(** * MCP service: chat orchestration loop and session registry

    A shallow embedding of
    - [mcp/src/client.ts]       the streaming [MCPClient] (incremental mode),
    - the completed-mode [MCPClient] (one [generateText] call per message),
    - the Express service with its [/connect], [/disconnect] and [/chat]
      handlers and the in-memory [activeConnections] map,
    followed by the properties of the orchestration loop and of the session
    registry that the design document states about them. *)

From stdpp Require Import gmap list strings pretty.
From Stdlib Require Import NArith Ascii.

Set Default Proof Using "Type".

(* ===================================================================== *)
(** * JavaScript values as the code observes them                         *)
(* ===================================================================== *)

(** A JavaScript string is a sequence of UTF-16 code units. *)
Abbreviation jsstring := (list N).

(** An ASCII literal of the source, as code units. *)
Definition lit (s : string) : jsstring :=
  (λ a, N_of_ascii a) <$> String.list_ascii_of_string s.

(** ECMAScript WhiteSpace and LineTerminator code points: what
    [String.prototype.trim] strips on both ends. *)
Definition is_white_space (c : N) : bool :=
  bool_decide (c ∈ [0x9; 0xA; 0xB; 0xC; 0xD; 0x20; 0xA0; 0x1680; 0x2028;
                    0x2029; 0x202F; 0x205F; 0x3000; 0xFEFF]%N)
  || ((0x2000 <=? c) && (c <=? 0x200A))%N.

Fixpoint trimStart (s : jsstring) : jsstring :=
  match s with
  | [] => []
  | c :: rest => if is_white_space c then trimStart rest else s
  end.

Definition trimEnd (s : jsstring) : jsstring := reverse (trimStart (reverse s)).

Definition trim (s : jsstring) : jsstring := trimEnd (trimStart s).

(** Truthiness of a string: the empty string is the only falsy one. *)
Definition truthy_string (s : jsstring) : bool :=
  match s with [] => false | _ => true end.

(** A value the code treats opaquely (tool arguments, tool result content,
    input schemas, thrown errors) is represented by the three observations
    the code makes of such values: its truthiness, its conversion to a
    string inside a template literal, and the text [JSON.stringify] gives
    for it inside a template literal. *)
Record JsValue := {
  ToBoolean : bool;
  ToString : jsstring;
  JSON_stringify : jsstring
}.

(** [new Error(message)]: truthy, printed as "Error: <message>". *)
Definition new_Error (message : jsstring) : JsValue :=
  {| ToBoolean := true;
     ToString := lit "Error: " ++ message;
     JSON_stringify := lit "{}" |}.

(** What [asyncTryCatch] (in [./utils]) hands back for an awaited promise:
    the pair the callers destructure.  [data = None] stands for a falsy
    [data]; [error] is tested for truthiness and interpolated. *)
Record TryCatch (T : Type) := {
  data : option T;
  error : JsValue
}.
Arguments data {T} _.
Arguments error {T} _.

(* ===================================================================== *)
(** * The output stream: [ReadableStreamDefaultController]                *)
(* ===================================================================== *)

(** The controller of a [ReadableStream<string>] as the Streams standard
    defines it, for a stream nobody has read from yet: the queue holds the
    chunks in the order they were enqueued.  In the standard, [enqueue]
    and [close] throw a TypeError when
    ReadableStreamDefaultControllerCanCloseOrEnqueue is false, that is
    unless the stream is readable and no close was requested; [error]
    returns at once on a stream that is not readable; and what a
    synchronous [start] throws is re-thrown by the constructor of the
    stream, while the rejection of an asynchronous [start] errors it. *)
Inductive StreamState :=
| readable
| closed
| errored (storedError : JsValue).

Record Controller := {
  queue : list jsstring;
  closeRequested : bool;
  state : StreamState
}.

(** The stream a [new ReadableStream(...)] starts with. *)
Definition new_controller : Controller :=
  {| queue := []; closeRequested := false; state := readable |}.

(** ReadableStreamDefaultControllerCanCloseOrEnqueue. *)
Definition CanCloseOrEnqueue (c : Controller) : bool :=
  negb (closeRequested c) &&
  match state c with readable => true | _ => false end.

(** [controller.enqueue(chunk)]: a TypeError ([invalid_state]) unless the
    stream is readable and not closing. *)
Definition enqueue (invalid_state : JsValue) (chunk : jsstring) (c : Controller)
  : JsValue + Controller :=
  if CanCloseOrEnqueue c
  then inr {| queue := queue c ++ [chunk];
              closeRequested := closeRequested c;
              state := state c |}
  else inl invalid_state.

(** [controller.close()]: the same guard; the stream closes at once when
    the queue is empty and after the queue has drained otherwise. *)
Definition close (invalid_state : JsValue) (c : Controller)
  : JsValue + Controller :=
  if CanCloseOrEnqueue c
  then inr {| queue := queue c;
              closeRequested := true;
              state := match queue c with [] => closed | _ => readable end |}
  else inl invalid_state.

(** [controller.error(e)]: does nothing unless the stream is readable;
    otherwise drops the queue and errors the stream. *)
Definition error_stream (e : JsValue) (c : Controller) : Controller :=
  match state c with
  | readable => {| queue := []; closeRequested := closeRequested c;
                   state := errored e |}
  | _ => c
  end.

(* ===================================================================== *)
(** * Messages, tool calls and tools                                      *)
(* ===================================================================== *)

Record ToolCallPart := {
  toolCallId : jsstring;
  toolName : jsstring;
  args : JsValue
}.

(** [result: unknown] holds either the error text the loop builds or the
    [content] of the tool's answer. *)
Inductive ResultData :=
| ErrorText (text : jsstring)
| ToolContent (content : JsValue).

Record ToolResultPart := {
  result_toolCallId : jsstring;
  result_toolName : jsstring;
  result : ResultData;
  isError : bool
}.

Inductive AssistantPart :=
| TextPart (text : jsstring)
| CallPart (call : ToolCallPart).

(** [CoreMessage].  The loop never inspects the messages it is given; it
    only appends assistant and tool messages. *)
Inductive CoreMessage :=
| SystemMessage (content : jsstring)
| UserMessage (content : JsValue)
| AssistantMessage (content : list AssistantPart)
| ToolMessage (content : list ToolResultPart).

(** The parts of [fullStream]; the [switch] of the loop has a case for the
    first two kinds only. *)
Inductive TextStreamPart :=
| text_delta (textDelta : jsstring)
| tool_call (call : ToolCallPart)
| other_part.

(** One consumption of a [fullStream]: the parts it yields and, when the
    iteration throws, the value thrown after them. *)
Record StreamRun := {
  parts : list TextStreamPart;
  failure : option JsValue
}.

Record Tool := {
  description : JsValue;
  parameters : JsValue
}.

Abbreviation ToolSet := (gmap jsstring Tool).

(** An entry of the answer of [listTools]. *)
Record ToolInfo := {
  tool_name : jsstring;
  tool_description : JsValue;
  inputSchema : JsValue
}.

Record MCPServerConfig := {
  displayName : jsstring;
  command : jsstring;
  config_args : list jsstring;
  cwd : option jsstring;
  env : option (gmap jsstring jsstring)
}.

Record StdioClientTransport := {
  transport_command : jsstring;
  transport_args : list jsstring;
  transport_cwd : option jsstring;
  transport_env : gmap jsstring jsstring
}.

(** The SDK [Client] object, by reference. *)
Abbreviation Client := N.

Record LanguageModel := { modelId : jsstring }.

(** The answer of a tool, [CallToolResult] of the SDK: its [content], and
    the [isError] flag by which the remote tool marks its answer as an
    error of its own ([false] when the answer has none).  The two clients
    read [content] and nothing else. *)
Record CallToolResult := {
  content : JsValue;
  answer_isError : bool
}.

(** The [Response] object of [toTextStreamResponse()]: the text stream it
    carries. *)
Record TextStreamResponse := { textStream : StreamRun }.

(** The items of [message.content] the completed-mode client walks over.
    [non_object] is an item with [typeof content !== "object"] (the
    characters of a string content); [other_item] any other object. *)
Inductive ContentItem :=
| non_object
| text_item (text : jsstring)
| reasoning_item (text : jsstring)
| tool_call_item (call : ToolCallPart)
| other_item.

(** What the completed-mode client reads of a [GenerateTextResult]:
    [response.messages] (each message by its content items) and [text]. *)
Record GenerateTextResult := {
  response_messages : list (list ContentItem);
  text : jsstring
}.

(* ===================================================================== *)
(** * The collaborators                                                   *)
(* ===================================================================== *)

(** The model provider, the tool transport, the clock and the process
    environment are outside the code.  Each is a function of the state of
    the outside world, which the calls thread through in program order. *)
Class Platform := {
  World : Type;
  (** the TypeError [enqueue] and [close] throw on a stream that can no
      longer take chunks *)
  ERR_INVALID_STATE : JsValue;
  (** [await streamText({model, messages, tools})]: [inl e] when the call
      itself throws [e], otherwise the result with its [fullStream] *)
  streamText :
    LanguageModel → list CoreMessage → option ToolSet → World →
    (JsValue + StreamRun) * World;
  (** [asyncTryCatch(generateText({model, messages, tools}))] *)
  generateText :
    LanguageModel → list CoreMessage → ToolSet → World →
    TryCatch GenerateTextResult * World;
  (** [new Client({name: "mcp-client", version: "1.0.0"})] *)
  new_Client : World → Client * World;
  (** [asyncTryCatch(client.connect(transport))]: only [error] is read *)
  sdk_connect : Client → StdioClientTransport → World → JsValue * World;
  (** [asyncTryCatch(client.listTools())] *)
  sdk_listTools : Client → World → TryCatch (list ToolInfo) * World;
  (** [asyncTryCatch(client.callTool({name, arguments}))] *)
  sdk_callTool :
    Client → jsstring → JsValue → World → TryCatch CallToolResult * World;
  (** [await client.close()]: [Some e] when it throws [e] *)
  sdk_close : Client → World → option JsValue * World;
  (** [process.env] *)
  process_env : World → gmap jsstring jsstring;
  (** [Date.now()] *)
  Date_now : World → N
}.

(** Calls that cross the boundary of the code, in the order they are made,
    and the [console.warn] / [console.error] calls by call site. *)
Inductive LogSite :=
| client_connect_failed
| client_listTools_failed
| client_generate_failed
| loop_empty_content (loopCounter : nat)
| loop_processing_error (loopCounter : nat) (err : JsValue)
| server_invalid_sessionId (route : string)
| server_limit_reached (sessionId : jsstring)
| server_model_missing (route : string)
| server_old_client_cleanup_failed (sessionId : jsstring) (err : JsValue)
| server_connect_failed (sessionId : jsstring) (err : JsValue)
| server_disconnect_failed (sessionId : jsstring) (err : JsValue)
| server_invalid_messages
| server_undefined_response
| server_direct_chat_failed (err : JsValue)
| server_chat_failed (sessionId : jsstring) (err : JsValue).

Inductive Event :=
| call_streamText (model : LanguageModel) (messages : list CoreMessage)
    (tools : option ToolSet)
| call_generateText (model : LanguageModel) (messages : list CoreMessage)
    (tools : ToolSet)
| call_new_Client (client : Client)
| call_connect (client : Client) (transport : StdioClientTransport)
| call_listTools (client : Client)
| call_callTool (client : Client) (name : jsstring) (arguments : JsValue)
| call_close (client : Client)
| console_warn (site : LogSite)
| console_error (site : LogSite).

(* ===================================================================== *)
(** * [MCPClient]: state, [start], [cleanup]                              *)
(* ===================================================================== *)

Record MCPClient := {
  client : option Client;
  transport : option StdioClientTransport;
  mcpServerConfig : option MCPServerConfig;
  tools : option ToolSet
}.

(** [constructor(serverConfig)]. *)
Definition new_MCPClient (serverConfig : MCPServerConfig) : MCPClient :=
  {| client := None; transport := None;
     mcpServerConfig := Some serverConfig; tools := None |}.

(** [configEnv.PATH || parentEnv.PATH || (the empty string)]. *)
Definition path_of (configEnv parentEnv : gmap jsstring jsstring) : jsstring :=
  match configEnv !! lit "PATH" with
  | Some (c :: p) => c :: p
  | _ => match parentEnv !! lit "PATH" with
         | Some (c :: p) => c :: p
         | _ => []
         end
  end.

(** [{ ...parentEnv, ...configEnv, PATH: ... }]. *)
Definition merge_env (configEnv parentEnv : gmap jsstring jsstring)
  : gmap jsstring jsstring :=
  <[lit "PATH" := path_of configEnv parentEnv]> (configEnv ∪ parentEnv).

(** The [reduce] over [allTools.tools], which starts from the plain
    object [{}] and assigns [acc[tool.name] = ...].  A [ToolSet] holds the
    own properties of the object.  A later tool of the same name replaces
    an earlier one.  For the name [__proto__] the assignment reaches the
    setter that every plain object inherits from [Object.prototype]: it
    replaces the prototype of [acc] by the tool and gives [acc] no
    property of that name. *)
Definition tool_set_of (all : list ToolInfo) : ToolSet :=
  foldl (λ acc tool,
           if bool_decide (tool_name tool = lit "__proto__") then acc
           else
             <[tool_name tool :=
                 {| description := tool_description tool;
                    parameters := inputSchema tool |}]> acc)
        ∅ all.

Section Client.
Context `{Platform}.

(** A method of [MCPClient] or a handler of the service: it reads and
    writes the world, records its calls, and returns or throws. *)
Record Effects := { world : World; trace : list Event }.

Definition emit (e : Event) (fx : Effects) : Effects :=
  {| world := world fx; trace := trace fx ++ [e] |}.

Definition ask {A} (f : World → A * World) (fx : Effects) : A * Effects :=
  let '(a, w) := f (world fx) in (a, {| world := w; trace := trace fx |}).

(** [start()]: the result is [inl e] when it throws [e]. *)
Definition start (this : MCPClient) (fx : Effects)
  : (JsValue + unit) * MCPClient * Effects :=
  match client this, mcpServerConfig this with
  | None, Some cfg =>
      let '(c, fx) := ask new_Client fx in
      let fx := emit (call_new_Client c) fx in
      let parentEnv := process_env (world fx) in
      let configEnv := default ∅ (env cfg) in
      let t := {| transport_command := command cfg;
                  transport_args := config_args cfg;
                  transport_cwd := cwd cfg;
                  transport_env := merge_env configEnv parentEnv |} in
      let fx := emit (call_connect c t) fx in
      let '(connectError, fx) := ask (sdk_connect c t) fx in
      if ToBoolean connectError then
        let fx := emit (console_error client_connect_failed) fx in
        (inl connectError,
         {| client := None; transport := None;
            mcpServerConfig := Some cfg; tools := tools this |}, fx)
      else
        let fx := emit (call_listTools c) fx in
        let '(r, fx) := ask (sdk_listTools c) fx in
        match ToBoolean (error r), data r with
        | false, Some allTools =>
            (inr (),
             {| client := Some c; transport := Some t;
                mcpServerConfig := Some cfg;
                tools := Some (tool_set_of allTools) |}, fx)
        | _, _ =>
            let fx := emit (console_error client_listTools_failed) fx in
            (inr (),
             {| client := Some c; transport := Some t;
                mcpServerConfig := Some cfg; tools := Some ∅ |}, fx)
        end
  | _, _ => (inr (), this, fx)
  end.

(** [cleanup()]: when [close] throws, the fields are left as they were. *)
Definition cleanup (this : MCPClient) (fx : Effects)
  : (JsValue + unit) * MCPClient * Effects :=
  match client this with
  | Some c =>
      let fx := emit (call_close c) fx in
      let '(r, fx) := ask (sdk_close c) fx in
      match r with
      | Some e => (inl e, this, fx)
      | None =>
          (inr (),
           {| client := None; transport := None;
              mcpServerConfig := mcpServerConfig this;
              tools := tools this |}, fx)
      end
  | None => (inr (), this, fx)
  end.

(** [MCPClient.directChat(model, messages)]: one [streamText] call
    without tools; its stream is the body of the [Response]. *)
Definition directChat (model : LanguageModel) (messages : list CoreMessage)
    (fx : Effects) : (JsValue + TextStreamResponse) * Effects :=
  let fx := emit (call_streamText model messages None) fx in
  let '(result, fx) := ask (streamText model messages None) fx in
  match result with
  | inl e => (inl e, fx)
  | inr run => (inr {| textStream := run |}, fx)
  end.

End Client.

(* ===================================================================== *)
(** * [MCPClient.chat], incremental mode ([mcp/src/client.ts])            *)
(* ===================================================================== *)

Definition nl : jsstring := [10%N].

(** How one pass through the body of [while (true)] ends. *)
Inductive Flow :=
| next_iteration
| break_loop
| return_from_start.

Section Streaming.
Context `{Platform}.

(** The variables the [start] callback of the stream closes over. *)
Record LoopState := {
  currentMessages : list CoreMessage;
  loopCounter : nat;
  controller : Controller;
  effects : Effects
}.

(** Statements of the callback: they change the variables and finish
    normally with a value or throw. *)
Definition Step (A : Type) : Type := LoopState → (JsValue + A) * LoopState.

Definition ret {A} (a : A) : Step A := λ s, (inr a, s).

Definition bind {A B} (m : Step A) (k : A → Step B) : Step B := λ s,
  match m s with
  | (inl e, s') => (inl e, s')
  | (inr a, s') => k a s'
  end.

Definition throw {A} (e : JsValue) : Step A := λ s, (inl e, s).

Definition try_catch {A} (m : Step A) (handler : JsValue → Step A) : Step A :=
  λ s, match m s with
       | (inl e, s') => handler e s'
       | (inr a, s') => (inr a, s')
       end.

Notation "'let*' x := m 'in' k" := (bind m (λ x, k))
  (at level 10, x name, m at level 100, k at level 200).

Definition read {A} (f : LoopState → A) : Step A := λ s, (inr (f s), s).

Definition with_effects (f : Effects → Effects) : Step unit := λ s,
  (inr (), {| currentMessages := currentMessages s;
              loopCounter := loopCounter s;
              controller := controller s;
              effects := f (effects s) |}).

Definition external {A} (f : World → A * World) : Step A := λ s,
  let '(a, fx) := ask f (effects s) in
  (inr a, {| currentMessages := currentMessages s;
             loopCounter := loopCounter s;
             controller := controller s;
             effects := fx |}).

Definition on_controller (op : Controller → JsValue + Controller) : Step unit :=
  λ s, match op (controller s) with
       | inl e => (inl e, s)
       | inr c => (inr (), {| currentMessages := currentMessages s;
                              loopCounter := loopCounter s;
                              controller := c;
                              effects := effects s |})
       end.

Definition controller_enqueue (chunk : jsstring) : Step unit :=
  on_controller (enqueue ERR_INVALID_STATE chunk).

Definition controller_close : Step unit :=
  on_controller (close ERR_INVALID_STATE).

(** [currentMessages.push(message)]. *)
Definition push_message (message : CoreMessage) : Step unit := λ s,
  (inr (), {| currentMessages := currentMessages s ++ [message];
              loopCounter := loopCounter s;
              controller := controller s;
              effects := effects s |}).

(** [loopCounter += 1]. *)
Definition count_loop : Step unit := λ s,
  (inr (), {| currentMessages := currentMessages s;
              loopCounter := S (loopCounter s);
              controller := controller s;
              effects := effects s |}).

(** The announcement enqueued for a tool call. *)
Definition calling_tool (part : ToolCallPart) : jsstring :=
  lit "**Calling Tool: " ++ toolName part ++ lit "(" ++
  JSON_stringify (args part) ++ lit ")**" ++ nl ++ nl.

(** [for await (const part of currentResult.fullStream)]: the three
    accumulators of the round are threaded through. *)
Fixpoint for_await (stream : list TextStreamPart)
    (capturedText : jsstring) (toolCallsToExecute : list ToolCallPart)
    (currentTurnHadToolCall : bool)
  : Step (jsstring * list ToolCallPart * bool) :=
  match stream with
  | [] => ret (capturedText, toolCallsToExecute, currentTurnHadToolCall)
  | text_delta textDelta :: rest =>
      let* _ := controller_enqueue textDelta in
      for_await rest (capturedText ++ textDelta) toolCallsToExecute
        currentTurnHadToolCall
  | tool_call part :: rest =>
      let* _ := controller_enqueue (calling_tool part) in
      for_await rest capturedText (toolCallsToExecute ++ [part]) true
  | other_part :: rest =>
      for_await rest capturedText toolCallsToExecute currentTurnHadToolCall
  end.

(** The [ToolResultPart] pushed for [toolCall] given what
    [asyncTryCatch(mcpClient.callTool(...))] returned. *)
Definition tool_result_of (toolCall : ToolCallPart)
    (answer : TryCatch CallToolResult) : ToolResultPart :=
  match ToBoolean (error answer), data answer with
  | false, Some d =>
      {| result_toolCallId := toolCallId toolCall;
         result_toolName := toolName toolCall;
         result := ToolContent (content d);
         isError := false |}
  | _, _ =>
      {| result_toolCallId := toolCallId toolCall;
         result_toolName := toolName toolCall;
         result := ErrorText (lit "Error: " ++ ToString (error answer));
         isError := true |}
  end.

(** [for (const toolCall of toolCallsToExecute)]. *)
Fixpoint execute_tools (mcpClient : Client)
    (toolCallsToExecute : list ToolCallPart)
    (toolResults : list ToolResultPart) : Step (list ToolResultPart) :=
  match toolCallsToExecute with
  | [] => ret toolResults
  | toolCall :: rest =>
      let* _ := with_effects
        (emit (call_callTool mcpClient (toolName toolCall) (args toolCall))) in
      let* answer := external
        (sdk_callTool mcpClient (toolName toolCall) (args toolCall)) in
      execute_tools mcpClient rest
        (toolResults ++ [tool_result_of toolCall answer])
  end.

(** The content of the assistant turn: the trimmed text when it is not
    empty, then the tool calls. *)
Definition assistant_turn (capturedText : jsstring)
    (toolCallsToExecute : list ToolCallPart) : list AssistantPart :=
  (if truthy_string (trim capturedText)
   then [TextPart (trim capturedText)] else [])
  ++ (CallPart <$> toolCallsToExecute).

(** The [try] block of one pass. *)
Definition try_block (model : LanguageModel) (mcpClient : Client)
    (tools : ToolSet) : Step Flow :=
  let* messages := read currentMessages in
  let* _ := with_effects (emit (call_streamText model messages (Some tools))) in
  let* currentResult := external (streamText model messages (Some tools)) in
  match currentResult with
  | inl e => throw e
  | inr run =>
      let* collected := for_await (parts run) [] [] false in
      let '(capturedText, toolCallsToExecute, currentTurnHadToolCall) :=
        collected in
      match failure run with
      | Some e => throw e
      | None =>
          let assistantTurnContent :=
            assistant_turn capturedText toolCallsToExecute in
          let* _ :=
            if bool_decide (length assistantTurnContent = 0)
            then let* n := read loopCounter in
                 with_effects (emit (console_warn (loop_empty_content n)))
            else ret () in
          let* _ := push_message (AssistantMessage assistantTurnContent) in
          if negb currentTurnHadToolCall then ret break_loop
          else
            let* toolResults :=
              execute_tools mcpClient toolCallsToExecute [] in
            let* _ := push_message (ToolMessage toolResults) in
            ret next_iteration
      end
  end.

(** The [catch] block. *)
Definition catch_block (err : JsValue) : Step Flow :=
  let* n := read loopCounter in
  let* _ := with_effects (emit (console_error (loop_processing_error n err))) in
  let* _ := controller_enqueue (nl ++ lit "[STREAM ERROR]: " ++ ToString err) in
  let* _ := controller_close in
  ret return_from_start.

(** One pass through the body of [while (true)]. *)
Definition loop_body (model : LanguageModel) (mcpClient : Client)
    (tools : ToolSet) : Step Flow :=
  let* _ := count_loop in
  try_catch (try_block model mcpClient tools) catch_block.

(** [while (true) { ... }].  The loop has no bound of its own: [fuel]
    bounds the passes this function looks at, and [None] says that the
    loop is still running after that many.  Otherwise the loop was left
    by [break], by the [return] of the [catch] block, or by an exception
    thrown inside the [catch] block. *)
Fixpoint while_true (fuel : nat) (model : LanguageModel) (mcpClient : Client)
    (tools : ToolSet) (s : LoopState) : option ((JsValue + Flow) * LoopState) :=
  match fuel with
  | 0 => None
  | S fuel =>
      match loop_body model mcpClient tools s with
      | (inr next_iteration, s') => while_true fuel model mcpClient tools s'
      | stopped => Some stopped
      end
  end.

(** The [async start(controller)] callback: the loop, and after a
    [break] the final [controller.close()]. *)
Definition stream_start (fuel : nat) (model : LanguageModel)
    (mcpClient : Client) (tools : ToolSet) (s : LoopState)
  : option ((JsValue + unit) * LoopState) :=
  match while_true fuel model mcpClient tools s with
  | None => None
  | Some (inl e, s') => Some (inl e, s')
  | Some (inr return_from_start, s') => Some (inr (), s')
  | Some (inr _, s') => Some (controller_close s')
  end.

(** What a caller of [chat] gets and what the call leaves behind. *)
Record ChatOutcome := {
  (** the promise of [chat]: rejected with a value, or the stream as
      its [start] callback leaves it *)
  returned : JsValue + Controller;
  (** [currentMessages] at the end *)
  transcript : list CoreMessage;
  (** [loopCounter] at the end *)
  rounds : nat;
  this_after : MCPClient;
  effects_after : Effects
}.

Definition not_connected : jsstring := lit "Error: MCP Client not connected".

(** [new ReadableStream({ start(controller) { ... } })] with a
    synchronous [start]: what [start] throws, the constructor throws. *)
Definition stream_of_sync_start (start : Controller → JsValue + Controller)
  : JsValue + Controller := start new_controller.

(** [chat(model, messages)].  With an [async start], a rejection of the
    callback errors the stream. *)
Definition chat (this : MCPClient) (model : LanguageModel)
    (messages : list CoreMessage) (fuel : nat) (fx : Effects)
  : option ChatOutcome :=
  match client this with
  | None =>
      Some {| returned :=
                stream_of_sync_start (λ controller,
                  close ERR_INVALID_STATE
                    (error_stream (new_Error not_connected) controller));
              transcript := messages;
              rounds := 0;
              this_after := this;
              effects_after := fx |}
  | Some mcpClient =>
      let tools := default ∅ (tools this) in
      match stream_start fuel model mcpClient tools
              {| currentMessages := messages; loopCounter := 0;
                 controller := new_controller; effects := fx |} with
      | None => None
      | Some (r, s) =>
          Some {| returned :=
                    inr match r with
                        | inl e => error_stream e (controller s)
                        | inr _ => controller s
                        end;
                  transcript := currentMessages s;
                  rounds := loopCounter s;
                  this_after := this;
                  effects_after := effects s |}
      end
  end.

End Streaming.

(* ===================================================================== *)
(** * [MCPClient.chat], completed mode                                    *)
(* ===================================================================== *)

(** [Array.prototype.join]. *)
Fixpoint join (separator : jsstring) (items : list jsstring) : jsstring :=
  match items with
  | [] => []
  | [item] => item
  | item :: rest => item ++ separator ++ join separator rest
  end.

Section Completed.
Context `{Platform}.

(** [generateModelResponse(model, messages, tools)]: [None] for the
    [undefined] it returns after logging a failure. *)
Definition generateModelResponse (model : LanguageModel)
    (messages : list CoreMessage) (tools : option ToolSet) (fx : Effects)
  : option GenerateTextResult * Effects :=
  let tools := default ∅ tools in
  let fx := emit (call_generateText model messages tools) fx in
  let '(r, fx) := ask (generateText model messages tools) fx in
  match ToBoolean (error r), data r with
  | false, Some response => (Some response, fx)
  | _, _ => (None, emit (console_error client_generate_failed) fx)
  end.

Definition error_calling_tool (call : ToolCallPart) (error : JsValue)
  : jsstring :=
  lit "Error calling tool: " ++ toolName call ++ lit " " ++
  JSON_stringify (args call) ++ lit ": " ++ ToString error.

Definition calling_tool_with_args (call : ToolCallPart) : jsstring :=
  lit "[Calling tool " ++ toolName call ++ lit " with args " ++
  JSON_stringify (args call) ++ lit "]".

(** [for (const content of message.content)]: [finalText] and
    [toolResults] are threaded through. *)
Fixpoint walk_content (mcpClient : Client) (model : LanguageModel)
    (messages : list CoreMessage) (items : list ContentItem)
    (finalText : list jsstring) (toolResults : list CallToolResult)
    (fx : Effects) : list jsstring * list CallToolResult * Effects :=
  match items with
  | [] => (finalText, toolResults, fx)
  | non_object :: rest | other_item :: rest =>
      walk_content mcpClient model messages rest finalText toolResults fx
  | text_item text :: rest | reasoning_item text :: rest =>
      walk_content mcpClient model messages rest (finalText ++ [text])
        toolResults fx
  | tool_call_item call :: rest =>
      let fx := emit (call_callTool mcpClient (toolName call) (args call)) fx in
      let '(answer, fx) :=
        ask (sdk_callTool mcpClient (toolName call) (args call)) fx in
      match ToBoolean (error answer), data answer with
      | false, Some toolCall =>
          let finalText := finalText ++ [calling_tool_with_args call] in
          let toolResults := toolResults ++ [toolCall] in
          let updatedMessages :=
            messages ++ [UserMessage (content toolCall)] in
          let '(finalResponse, fx) :=
            generateModelResponse model updatedMessages None fx in
          let finalText :=
            match finalResponse with
            | Some r => finalText ++ [text r]
            | None => finalText
            end in
          walk_content mcpClient model messages rest finalText toolResults fx
      | _, _ =>
          walk_content mcpClient model messages rest
            (finalText ++ [error_calling_tool call (error answer)])
            toolResults fx
      end
  end.

(** [for (const message of response.response.messages)]. *)
Fixpoint walk_messages (mcpClient : Client) (model : LanguageModel)
    (messages : list CoreMessage) (response : list (list ContentItem))
    (finalText : list jsstring) (toolResults : list CallToolResult)
    (fx : Effects) : list jsstring * list CallToolResult * Effects :=
  match response with
  | [] => (finalText, toolResults, fx)
  | message :: rest =>
      let '(finalText, toolResults, fx) :=
        walk_content mcpClient model messages message finalText toolResults fx in
      walk_messages mcpClient model messages rest finalText toolResults fx
  end.

(** [chat(model, messages): Promise<string>]. *)
Definition chat_completed (this : MCPClient) (model : LanguageModel)
    (messages : list CoreMessage) (fx : Effects)
  : jsstring * MCPClient * Effects :=
  match client this with
  | None => (not_connected, this, fx)
  | Some mcpClient =>
      let '(response, fx) :=
        generateModelResponse model messages (tools this) fx in
      match response with
      | None => (lit "Error generating response from AI", this, fx)
      | Some response =>
          let '(finalText, _, fx) :=
            walk_messages mcpClient model messages
              (response_messages response) [] [] fx in
          (join (nl ++ nl) finalText, this, fx)
      end
  end.

End Completed.

(* ===================================================================== *)
(** * The service: [activeConnections] and the three handlers             *)
(* ===================================================================== *)

(** The service imports its [MCPClient] from [./mcp-client], which is not
    among the sources.  The handlers use its [start], [cleanup] and static
    [directChat] as the two clients above have them, with the same
    signatures.  Its constructor, which takes the model and the
    configuration, and its [chat(messages)] are used in a way neither of
    the two clients allows: the handlers below take them as parameters.

    A handler gives way to other requests where it awaits.  [/connect]
    reads the map before it awaits [start] and writes it afterwards: it is
    given as the two parts between which other requests may be handled,
    and as their composition when no request comes in between.
    [/disconnect] and [/chat] are given as run in one piece: all they do to
    the map after their await is to delete the session's entry, or
    nothing. *)

Module Service.

Record ActiveConnection := {
  serverId : jsstring;
  client : MCPClient;
  lastActivityTimestamp : N
}.

(** [activeConnections]: session id to connection. *)
Abbreviation Connections := (gmap jsstring ActiveConnection).

Definition MAX_CONNECTIONS : nat := 10.
Definition IDLE_TIMEOUT_MS : N := 10 * 60 * 1000.

(** [AVAILABLE_MCP_SERVERS], an object literal: its keys in the order
    they are written, which is the order of [Object.keys]. *)
Definition AVAILABLE_MCP_SERVERS (PROJECT_ROOT_PATH : jsstring)
    (SUPABASE_ACCESS_TOKEN : option jsstring)
  : list (jsstring * MCPServerConfig) :=
  [ (lit "github",
     {| displayName := lit "Github";
        command := lit "docker-compose";
        config_args := [lit "run"; lit "--rm"; lit "github-mcp-server"];
        cwd := Some PROJECT_ROOT_PATH;
        env := None |});
    (lit "supabase",
     {| displayName := lit "Supabase";
        command := lit "npx";
        config_args :=
          [lit "-y"; lit "@supabase/mcp-server-supabase@latest";
           lit "--access-token";
           match SUPABASE_ACCESS_TOKEN with
           | Some (c :: token) => c :: token
           | _ => []
           end];
        cwd := None;
        env := None |}) ].

(** The properties an object literal inherits from [Object.prototype]. *)
Definition Object_prototype_keys : list jsstring :=
  [lit "constructor"; lit "__defineGetter__"; lit "__defineSetter__";
   lit "hasOwnProperty"; lit "__lookupGetter__"; lit "__lookupSetter__";
   lit "isPrototypeOf"; lit "propertyIsEnumerable"; lit "toString";
   lit "valueOf"; lit "__proto__"; lit "toLocaleString"].

(** What [servers[serverId]] is when it is not [undefined]: the
    configuration the literal has under that key, or what the literal
    inherits under it (a function, or the prototype itself).  Both are
    truthy. *)
Inductive ServerValue :=
| configured (config : MCPServerConfig)
| inherited (key : jsstring).

(** The property of its own that the literal has under [serverId]. *)
Fixpoint own_property (servers : list (jsstring * MCPServerConfig))
    (serverId : jsstring) : option MCPServerConfig :=
  match servers with
  | [] => None
  | (id, config) :: rest =>
      if bool_decide (id = serverId) then Some config
      else own_property rest serverId
  end.

(** [servers[serverId]]: the read goes on to the prototype when the
    literal has no such property of its own. *)
Definition server_config (servers : list (jsstring * MCPServerConfig))
    (serverId : jsstring) : option ServerValue :=
  match own_property servers serverId with
  | Some config => Some (configured config)
  | None =>
      if bool_decide (serverId ∈ Object_prototype_keys)
      then Some (inherited serverId) else None
  end.

(** [servers[serverId].displayName] in a template literal. *)
Definition displayName_of (value : ServerValue) : jsstring :=
  match value with
  | configured config => displayName config
  | inherited _ => lit "undefined"
  end.

(** A field of [req.body]: a string, or anything else (missing
    included). *)
Inductive BodyField :=
| string_field (s : jsstring)
| other_field.

(** What [res.json] is given. *)
Inductive Body :=
| message (text : jsstring)
| message_value (value : JsValue)
| response_value (value : JsValue)
| response_stream (value : TextStreamResponse).

Record Reply := {
  status : N;
  json : Body
}.

(** [JSON.stringify] of a string: the code units between double quotes,
    with the quote, the backslash and the control characters escaped, and
    a surrogate that has no partner written as a [\u] escape. *)
Definition hex_digit (n : N) : N :=
  if (n <? 10)%N then (48 + n)%N else (87 + n)%N.

Definition unicode_escape (c : N) : jsstring :=
  [92; 117]%N ++ [hex_digit (c / 4096 mod 16); hex_digit (c / 256 mod 16);
                  hex_digit (c / 16 mod 16); hex_digit (c mod 16)]%N.

Definition escape_unit (c : N) : jsstring :=
  if (c =? 8)%N then [92; 98]%N
  else if (c =? 9)%N then [92; 116]%N
  else if (c =? 10)%N then [92; 110]%N
  else if (c =? 12)%N then [92; 102]%N
  else if (c =? 13)%N then [92; 114]%N
  else if (c =? 34)%N then [92; 34]%N
  else if (c =? 92)%N then [92; 92]%N
  else if (c <? 32)%N then unicode_escape c
  else [c].

Definition is_leading_surrogate (c : N) : bool :=
  ((0xD800 <=? c) && (c <=? 0xDBFF))%N.

Definition is_trailing_surrogate (c : N) : bool :=
  ((0xDC00 <=? c) && (c <=? 0xDFFF))%N.

Fixpoint quote_units (s : jsstring) : jsstring :=
  match s with
  | [] => []
  | c :: rest =>
      if is_leading_surrogate c then
        match rest with
        | d :: rest' =>
            if is_trailing_surrogate d then c :: d :: quote_units rest'
            else unicode_escape c ++ quote_units rest
        | [] => unicode_escape c
        end
      else if is_trailing_surrogate c then unicode_escape c ++ quote_units rest
      else escape_unit c ++ quote_units rest
  end.

Definition JSON_stringify_string (s : jsstring) : jsstring :=
  [34%N] ++ quote_units s ++ [34%N].

(** [JSON.stringify] of an object literal with the one property [key],
    given the text of [JSON.stringify] for its value: a value that has
    none ([undefined], a function) is left out with its key. *)
Definition JSON_stringify_property (key : string) (value : jsstring)
  : jsstring :=
  if bool_decide (value = lit "undefined") then lit "{}"
  else lit "{" ++ [34%N] ++ lit key ++ [34%N] ++ lit ":" ++ value ++ lit "}".

(** [JSON.stringify] of the [Response] of [toTextStreamResponse()].  Its
    status, its headers and its body are accessors of the prototype: a
    [Response] has no enumerable property of its own, and its text is that
    of the empty object whatever its stream carries. *)
Definition JSON_stringify_Response (response : TextStreamResponse) : jsstring :=
  lit "{}".

(** [res.json(body)]: the text that goes out as the body of the reply. *)
Definition res_json (body : Body) : jsstring :=
  match body with
  | message text =>
      JSON_stringify_property "message" (JSON_stringify_string text)
  | message_value value =>
      JSON_stringify_property "message" (JSON_stringify value)
  | response_value value =>
      JSON_stringify_property "response" (JSON_stringify value)
  | response_stream response =>
      JSON_stringify_property "response" (JSON_stringify_Response response)
  end.

(** What [/connect] holds on to while it awaits [mcpClient.start()]. *)
Record Connecting := {
  connecting_sessionId : jsstring;
  connecting_serverId : jsstring;
  connecting_client : MCPClient
}.

Section Handlers.
Context `{Platform}.

(** The module-level [aiModel]: [None] when its construction failed. *)
Variable aiModel : option LanguageModel.

(** The properties of its own of [AVAILABLE_MCP_SERVERS]. *)
Variable servers : list (jsstring * MCPServerConfig).

(** [new MCPClient(aiModel, serverConfig)], the constructor of the class
    the service imports, given whatever [servers[serverId]] was. *)
Variable new_client : LanguageModel → ServerValue → MCPClient.

(** [connectionData.client.chat(messages)] of the service's own
    [MCPClient] ([./mcp-client]), which takes the messages alone:
    [inl e] when it throws [e], else the value it resolves to. *)
Variable client_chat :
  MCPClient → list CoreMessage → Effects →
  (JsValue + JsValue) * MCPClient * Effects.

(** [app.post("/connect", ...)] from the request to
    [await mcpClient.start()]: the reply when the handler returns before
    that, else the client it has constructed and is about to start. *)
Definition connect_checks (sessionId serverId : BodyField)
    (activeConnections : Connections) (fx : Effects)
  : (Reply * Connections * Effects) + (Connecting * Connections * Effects) :=
  match sessionId with
  | string_field (c :: s) =>
      let sessionId := c :: s in
      match serverId with
      | string_field (c' :: s') =>
          let serverId := c' :: s' in
          match server_config servers serverId with
          | Some serverConfig =>
              (* Check if connection already exists *)
              if bool_decide (is_Some (activeConnections !! sessionId)) then
                inl ({| status := 200;
                        json := message (lit "Already connected") |},
                     activeConnections, fx)
              (* Check connection limit *)
              else if bool_decide (MAX_CONNECTIONS ≤ size activeConnections) then
                inl ({| status := 503;
                        json := message
                          (lit "Service busy, connection limit reached") |},
                     activeConnections,
                     emit (console_warn (server_limit_reached sessionId)) fx)
              else
                match aiModel with
                | None =>
                    inl ({| status := 500;
                            json := message
                              (lit "AI Service not configured on backend.") |},
                         activeConnections,
                         emit (console_error (server_model_missing "/connect")) fx)
                | Some model =>
                    (* Handle existing connection *)
                    let proceed (activeConnections : Connections) (fx : Effects) :=
                      inr ({| connecting_sessionId := sessionId;
                              connecting_serverId := serverId;
                              connecting_client := new_client model serverConfig |},
                           activeConnections, fx) in
                    match activeConnections !! sessionId with
                    | Some existingConnection =>
                        if bool_decide
                             (Service.serverId existingConnection = serverId)
                        then
                          inl ({| status := 200;
                                  json := message
                                    (lit "Already connected to " ++
                                     displayName_of serverConfig) |},
                               activeConnections, fx)
                        else
                          (* Connecting to a different mcp server *)
                          let '(cleaned, _, fx) :=
                            cleanup (client existingConnection) fx in
                          let fx :=
                            match cleaned with
                            | inl err =>
                                emit (console_error
                                        (server_old_client_cleanup_failed
                                           sessionId err)) fx
                            | inr _ => fx
                            end in
                          proceed (delete sessionId activeConnections) fx
                    | None => proceed activeConnections fx
                    end
                end
          | None =>
              inl ({| status := 400;
                      json := message
                        (lit "Missing or invalid serverId. Available: " ++
                         join (lit ", ") (servers.*1)) |},
                   activeConnections, fx)
          end
      | _ =>
          inl ({| status := 400;
                  json := message
                    (lit "Missing or invalid serverId. Available: " ++
                     join (lit ", ") (servers.*1)) |},
               activeConnections, fx)
      end
  | _ =>
      inl ({| status := 400;
              json := message (lit "Missing or invalid sessionId") |},
           activeConnections,
           emit (console_warn (server_invalid_sessionId "/connect")) fx)
  end.

(** [/connect] after [await mcpClient.start()], on the map as it is by
    then: [started] is [inl err] when [start] threw [err]. *)
Definition connect_settle (pending : Connecting) (started : JsValue + unit)
    (mcpClient : MCPClient) (activeConnections : Connections) (fx : Effects)
  : Reply * Connections * Effects :=
  match started with
  | inr _ =>
      let connectionData :=
        {| serverId := connecting_serverId pending;
           client := mcpClient;
           lastActivityTimestamp := Date_now (world fx) |} in
      ({| status := 200; json := message (lit "Connection successful") |},
       <[connecting_sessionId pending := connectionData]> activeConnections,
       fx)
  | inl err =>
      ({| status := 500;
          json := message (lit "Failed to establish connection") |},
       delete (connecting_sessionId pending) activeConnections,
       emit (console_error
               (server_connect_failed (connecting_sessionId pending) err)) fx)
  end.

(** [start] runs to its end and the handler goes on with its outcome. *)
Definition connect_resume (pending : Connecting)
    (activeConnections : Connections) (fx : Effects)
  : Reply * Connections * Effects :=
  let '(started, mcpClient, fx) := start (connecting_client pending) fx in
  connect_settle pending started mcpClient activeConnections fx.

(** [/connect] when no other request is handled while it awaits. *)
Definition connect (sessionId serverId : BodyField)
    (activeConnections : Connections) (fx : Effects)
  : Reply * Connections * Effects :=
  match connect_checks sessionId serverId activeConnections fx with
  | inl answered => answered
  | inr (pending, activeConnections, fx) =>
      connect_resume pending activeConnections fx
  end.

(** Two [/connect] requests of which the second comes in while the first
    awaits [start], and which go on in the order they came in: the two
    replies, the map and the effects afterwards. *)
Definition connect_overlapped (first second : BodyField * BodyField)
    (activeConnections : Connections) (fx : Effects)
  : Reply * Reply * Connections * Effects :=
  match connect_checks first.1 first.2 activeConnections fx with
  | inl (reply1, activeConnections, fx) =>
      let '(reply2, activeConnections, fx) :=
        connect second.1 second.2 activeConnections fx in
      (reply1, reply2, activeConnections, fx)
  | inr (pending1, activeConnections, fx) =>
      match connect_checks second.1 second.2 activeConnections fx with
      | inl (reply2, activeConnections, fx) =>
          let '(reply1, activeConnections, fx) :=
            connect_resume pending1 activeConnections fx in
          (reply1, reply2, activeConnections, fx)
      | inr (pending2, activeConnections, fx) =>
          let '(reply1, activeConnections, fx) :=
            connect_resume pending1 activeConnections fx in
          let '(reply2, activeConnections, fx) :=
            connect_resume pending2 activeConnections fx in
          (reply1, reply2, activeConnections, fx)
      end
  end.

(** [app.post("/disconnect", ...)]: the [finally] block deletes the
    entry on both ways out of the [try]. *)
Definition disconnect (sessionId : BodyField)
    (activeConnections : Connections) (fx : Effects)
  : Reply * Connections * Effects :=
  match sessionId with
  | string_field (c :: s) =>
      let sessionId := c :: s in
      match activeConnections !! sessionId with
      | None =>
          ({| status := 200;
              json := message
                (lit "Session not found or already disconnected") |},
           activeConnections, fx)
      | Some connectionData =>
          let '(cleaned, _, fx) := cleanup (client connectionData) fx in
          match cleaned with
          | inr _ =>
              ({| status := 200;
                  json := message (lit "Disconnection successful") |},
               delete sessionId activeConnections, fx)
          | inl err =>
              ({| status := 500;
                  json := message
                    (lit "Error during disconnection cleanup") |},
               delete sessionId activeConnections,
               emit (console_error
                       (server_disconnect_failed sessionId err)) fx)
          end
      end
  | _ =>
      ({| status := 400; json := message (lit "Missing or invalid sessionId") |},
       activeConnections,
       emit (console_warn (server_invalid_sessionId "/disconnect")) fx)
  end.

(** [activeConnections.get(sessionId)] for an unchecked [sessionId]:
    every key of the map is a string. *)
Definition get_connection (sessionId : BodyField)
    (activeConnections : Connections) : option (jsstring * ActiveConnection) :=
  match sessionId with
  | string_field s => (λ connectionData, (s, connectionData)) <$> activeConnections !! s
  | other_field => None
  end.

(** [app.post("/chat", ...)].  [messages = None] stands for a body
    whose [messages] is missing or not an array. *)
Definition chat (sessionId : BodyField) (messages : option (list CoreMessage))
    (activeConnections : Connections) (fx : Effects)
  : Reply * Connections * Effects :=
  match aiModel with
  | None =>
      ({| status := 500;
          json := message (lit "AI Service not configured on backend.") |},
       activeConnections,
       emit (console_error (server_model_missing "/chat")) fx)
  | Some model =>
      match messages with
      | Some (m :: ms) =>
          let messages := m :: ms in
          match get_connection sessionId activeConnections with
          | None =>
              let '(response, fx) := directChat model messages fx in
              match response with
              | inr response =>
                  (* a [Response] object is never falsy *)
                  ({| status := 200; json := response_stream response |},
                   activeConnections, fx)
              | inl err =>
                  ({| status := 500;
                      json := message
                        (lit "Error processing direct chat: " ++ ToString err) |},
                   activeConnections,
                   emit (console_error (server_direct_chat_failed err)) fx)
              end
          | Some (key, connectionData) =>
              let now := Date_now (world fx) in
              let '(response, mcpClient, fx) :=
                client_chat (client connectionData) messages fx in
              let activeConnections :=
                <[key := {| serverId := serverId connectionData;
                            client := mcpClient;
                            lastActivityTimestamp := now |}]>
                  activeConnections in
              match response with
              | inr response =>
                  if ToBoolean response then
                    ({| status := 200; json := response_value response |},
                     activeConnections, fx)
                  else
                    ({| status := 500; json := message_value response |},
                     activeConnections,
                     emit (console_warn server_undefined_response) fx)
              | inl err =>
                  ({| status := 500;
                      json := message (lit "Error processing chat message") |},
                   activeConnections,
                   emit (console_error (server_chat_failed key err)) fx)
              end
          end
      | _ =>
          ({| status := 400;
              json := message (lit "Missing or invalid messages array") |},
           activeConnections,
           emit (console_warn server_invalid_messages) fx)
      end
  end.

End Handlers.

End Service.

(* ===================================================================== *)
(** * The service: [GET /servers]                                         *)
(* ===================================================================== *)

(** [app.get("/servers", ...)]: the [servers] array of the reply, each
    entry with its [id] and [name], in the order of [Object.entries]. *)
Definition get_servers (servers : list (jsstring * MCPServerConfig))
  : list (jsstring * jsstring) :=
  (λ entry, (entry.1, displayName entry.2)) <$> servers.

(* ===================================================================== *)
(** * The front end: [frontend/src/actions/mcp-client-actions.ts]         *)
(* ===================================================================== *)

(** The three server actions.  [fetch] and [uuid4] are outside the code:
    functions of the state of the world the actions run in. *)
Module Actions.

(** The path a request goes to, after [MCP_SERVICE_URL]. *)
Inductive Route :=
| connect_route
| disconnect_route
| chat_route.

(** What an action hands to [fetch]: the route and the fields of the JSON
    body ([messages] is sent by [sendChatMCP] alone). *)
Record Request := {
  route : Route;
  sessionId : jsstring;
  messages : option (list CoreMessage)
}.

(** What the actions read of the [Response] of [fetch]: its [status], and
    the outcome of [response.json()], which rejects ([inl]) or gives
    [data], read only through [data.response]: [None] stands for a [data]
    that is [null], on which that property read throws. *)
Record Response := {
  status : N;
  json : JsValue + option JsValue
}.

(** [response.ok]. *)
Definition ok (response : Response) : bool :=
  ((200 <=? status response) && (status response <=? 299))%N.

(** The result of [disconnectMCP]. *)
Record Disconnected := {
  success : bool;
  error : option jsstring
}.

Definition unexpected : jsstring :=
  lit "An unexpected error occurred during disconnect".

Section WithBrowser.
Context {W : Type}.
Variable uuid4 : W → jsstring * W.
Variable fetch : Request → W → (JsValue + Response) * W.

(** [connectMCP(currentSessionId)]: the [sessionId] of the result ([None]
    for [undefined]), the world afterwards and the requests made. *)
Definition connectMCP (currentSessionId : option jsstring) (w : W)
  : option jsstring * W * list Request :=
  let '(sessionId, w) :=
    match currentSessionId with
    | Some (c :: s) => (c :: s, w)
    | _ => uuid4 w
    end in
  let request :=
    {| route := connect_route; sessionId := sessionId; messages := None |} in
  match fetch request w with
  | (inr response, w) =>
      match json response with
      | inr data =>
          if negb (ok response) then (None, w, [request])
          else (Some sessionId, w, [request])
      | inl err => (None, w, [request])
      end
  | (inl err, w) => (None, w, [request])
  end.

(** [disconnectMCP(sessionId)]. *)
Definition disconnectMCP (sessionId : option jsstring) (w : W)
  : Disconnected * W * list Request :=
  match sessionId with
  | Some (c :: s) =>
      let request :=
        {| route := disconnect_route; sessionId := c :: s; messages := None |} in
      match fetch request w with
      | (inr response, w) =>
          if negb (ok response) then
            ({| success := false; error := Some (lit "Disconnect failed") |},
             w, [request])
          else
            match json response with
            | inr data => ({| success := true; error := None |}, w, [request])
            | inl err =>
                ({| success := false; error := Some unexpected |}, w, [request])
            end
      | (inl err, w) =>
          ({| success := false; error := Some unexpected |}, w, [request])
      end
  | _ => ({| success := true; error := None |}, w, [])
  end.

(** [sendChatMCP(sessionId, messages)]: [inl] for a result with [error],
    [inr] for one with [response]. *)
Definition sendChatMCP (sessionId : option jsstring)
    (messages : list CoreMessage) (w : W)
  : (jsstring + JsValue) * W * list Request :=
  match sessionId with
  | Some (c :: s) =>
      match messages with
      | [] => (inl (lit "Cannot send an empty message"), w, [])
      | _ :: _ =>
          let request :=
            {| route := chat_route; sessionId := c :: s;
               messages := Some messages |} in
          match fetch request w with
          | (inr response, w) =>
              match json response with
              | inr data =>
                  if negb (ok response) then
                    (inl (lit "Chat request failed with status: " ++
                          lit (pretty (status response))), w, [request])
                  else
                    match data with
                    | Some response_field => (inr response_field, w, [request])
                    | None => (inl unexpected, w, [request])
                    end
              | inl err => (inl unexpected, w, [request])
              end
          | (inl err, w) => (inl unexpected, w, [request])
          end
      end
  | _ => (inl (lit "Not connected. Session ID is missing"), w, [])
  end.

End WithBrowser.

End Actions.

(* ===================================================================== *)
(** * Vocabulary of the properties                                        *)
(* ===================================================================== *)

(** The tool-call requests of a model turn, in the order produced. *)
Definition calls_of (stream : list TextStreamPart) : list ToolCallPart :=
  omap (λ part, match part with tool_call c => Some c | _ => None end) stream.

(** The text of a model turn. *)
Definition text_of (stream : list TextStreamPart) : jsstring :=
  mjoin (omap (λ part, match part with text_delta d => Some d | _ => None end)
           stream).

(** What a model turn puts on the output stream. *)
Definition chunks_of (stream : list TextStreamPart) : list jsstring :=
  omap (λ part, match part with
                | text_delta d => Some d
                | tool_call c => Some (calling_tool c)
                | other_part => None
                end) stream.

(** The controller after further chunks were enqueued. *)
Definition enqueued (chunks : list jsstring) (c : Controller) : Controller :=
  {| queue := queue c ++ chunks;
     closeRequested := closeRequested c;
     state := state c |}.

(** The controller after a [close()] it accepted. *)
Definition closing (c : Controller) : Controller :=
  {| queue := queue c;
     closeRequested := true;
     state := match queue c with [] => closed | _ => readable end |}.

(** The marker the [catch] block of the loop puts on the stream. *)
Definition stream_error (err : JsValue) : jsstring :=
  nl ++ lit "[STREAM ERROR]: " ++ ToString err.

(** The tool-call requests an assistant turn carries. *)
Definition requests (content : list AssistantPart) : list ToolCallPart :=
  omap (λ part, match part with CallPart c => Some c | _ => None end) content.

(** The call to the tool failed: it threw, or it gave no answer.  This
    is what the clients test after [asyncTryCatch]. *)
Definition call_failed (answer : TryCatch CallToolResult) : Prop :=
  ToBoolean (error answer) = true ∨ data answer = None.

(** The call went through, and the remote tool marks its answer as an
    error. *)
Definition remote_error (answer : TryCatch CallToolResult) : Prop :=
  ToBoolean (error answer) = false ∧
  ∃ d, data answer = Some d ∧ answer_isError d = true.

(** A failure of the tool execution gateway in the words of the design
    document: an error of the transport or a timeout, which fail the
    call, or an application-level error the remote tool signals. *)
Definition gateway_failed (answer : TryCatch CallToolResult) : Prop :=
  call_failed answer ∨ remote_error answer.

(** [results] answers [calls] one for one, in order. *)
Definition answers_calls (results : list ToolResultPart)
    (calls : list ToolCallPart) : Prop :=
  Forall2 (λ r c, result_toolCallId r = toolCallId c ∧
                  result_toolName r = toolName c) results calls.

(** Every tool-result turn of [turns] directly follows an assistant turn
    and answers the requests of that turn one for one, in order. *)
Definition tool_turns_paired (turns : list CoreMessage) : Prop :=
  ∀ i results, turns !! i = Some (ToolMessage results) →
    ∃ j content, i = S j ∧ turns !! j = Some (AssistantMessage content) ∧
                 answers_calls results (requests content).

Section Rounds.
Context `{Platform}.

(** What the gateway answers to the calls of a batch issued from the
    world [w], one after the other, and the world after the batch. *)
Fixpoint gateway_answers (mcpClient : Client) (calls : list ToolCallPart)
    (w : World) : list (TryCatch CallToolResult) * World :=
  match calls with
  | [] => ([], w)
  | c :: rest =>
      let '(answer, w') := sdk_callTool mcpClient (toolName c) (args c) w in
      let '(answers, w'') := gateway_answers mcpClient rest w' in
      (answer :: answers, w'')
  end.

(** The calls to the gateway a batch records. *)
Definition gateway_calls (mcpClient : Client) (calls : list ToolCallPart)
  : list Event :=
  (λ c, call_callTool mcpClient (toolName c) (args c)) <$> calls.

(** The turn the model produces when it is invoked in state [s]: [None]
    when the invocation or the stream fails. *)
Definition model_turn (model : LanguageModel) (tools : ToolSet)
    (s : LoopState) : option (list TextStreamPart) :=
  match streamText model (currentMessages s) (Some tools) (world (effects s)) with
  | (inr run, _) =>
      match failure run with None => Some (parts run) | Some _ => None end
  | (inl _, _) => None
  end.

(** What the loop has appended to the transcript [base] it was given is
    paired. *)
Definition appended_paired (base : list CoreMessage) (s : LoopState) : Prop :=
  ∃ added, currentMessages s = base ++ added ∧ tool_turns_paired added.

(** The state after [n] rounds each of which went on to the next. *)
Fixpoint after_rounds (n : nat) (model : LanguageModel) (mcpClient : Client)
    (tools : ToolSet) (s : LoopState) : option LoopState :=
  match n with
  | 0 => Some s
  | S n =>
      match loop_body model mcpClient tools s with
      | (inr next_iteration, s') => after_rounds n model mcpClient tools s'
      | _ => None
      end
  end.

End Rounds.

(* ===================================================================== *)
(** * Vocabulary of further properties                                    *)
(* ===================================================================== *)

(** The [streamText] calls a trace records, each by the transcript and
    the tools it was given. *)
Definition model_calls (events : list Event)
  : list (list CoreMessage * option ToolSet) :=
  omap (λ e, match e with
             | call_streamText _ messages tools => Some (messages, tools)
             | _ => None
             end) events.

(** The [generateText] calls a trace records. *)
Definition generate_calls (events : list Event)
  : list (list CoreMessage * ToolSet) :=
  omap (λ e, match e with
             | call_generateText _ messages tools => Some (messages, tools)
             | _ => None
             end) events.

(** The [callTool] calls a trace records. *)
Definition tool_calls (events : list Event) : list Event :=
  omap (λ e, match e with
             | call_callTool _ _ _ => Some e
             | _ => None
             end) events.

(** The [close] calls a trace records. *)
Definition close_calls (events : list Event) : list Client :=
  omap (λ e, match e with call_close c => Some c | _ => None end) events.

(** The tool-call requests of the assistant turns of [turns], in order. *)
Definition requested (turns : list CoreMessage) : list ToolCallPart :=
  turns ≫= λ m, match m with
                | AssistantMessage content => requests content
                | _ => []
                end.

(** The tool calls and the texts among the content items of a message of
    a completed response. *)
Definition content_calls (items : list ContentItem) : list ToolCallPart :=
  omap (λ item, match item with tool_call_item c => Some c | _ => None end)
    items.

Definition content_texts (items : list ContentItem) : list jsstring :=
  omap (λ item, match item with
                | text_item t | reasoning_item t => Some t
                | _ => None
                end) items.

(** A follow-up call of the completed-mode client to the model: without
    tools, on the messages of the request and one user message with the
    content of a tool result. *)
Definition follow_up (messages : list CoreMessage)
    (call : list CoreMessage * ToolSet) : Prop :=
  call.2 = ∅ ∧ ∃ content, call.1 = messages ++ [UserMessage content].

(** The session map within the limit and without the empty key. *)
Definition registry_ok (activeConnections : gmap jsstring Service.ActiveConnection)
  : Prop :=
  size activeConnections ≤ Service.MAX_CONNECTIONS ∧
  activeConnections !! [] = None.

Section Forwarded.
Context `{Platform}.

(** What one pass puts on the stream, read off the answer of the model:
    the chunks of the turn, and the error marker when the call or the
    stream of the turn throws. *)
Definition round_chunks (model : LanguageModel) (tools : ToolSet)
    (s : LoopState) : list jsstring :=
  match streamText model (currentMessages s) (Some tools) (world (effects s)) with
  | (inl e, _) => [stream_error e]
  | (inr run, _) =>
      chunks_of (parts run) ++
      match failure run with Some e => [stream_error e] | None => [] end
  end.

(** The same for up to [fuel] passes, as far as the loop goes. *)
Fixpoint forwarded (fuel : nat) (model : LanguageModel) (mcpClient : Client)
    (tools : ToolSet) (s : LoopState) : list jsstring :=
  match fuel with
  | 0 => []
  | S fuel =>
      round_chunks model tools s ++
      match loop_body model mcpClient tools s with
      | (inr next_iteration, s') => forwarded fuel model mcpClient tools s'
      | _ => []
      end
  end.

End Forwarded.

(* ===================================================================== *)
(** * A scripted platform                                                 *)
(* ===================================================================== *)

(** A platform for running the code on concrete inputs: the model is a
    function of the transcript, the gateway a function of the call, every
    connection succeeds, and the world is a counter that serves as clock
    and as source of fresh client references. *)
Definition no_error : JsValue :=
  {| ToBoolean := false; ToString := lit "null"; JSON_stringify := lit "null" |}.

Definition scripted
    (model : list CoreMessage → JsValue + StreamRun)
    (gateway : jsstring → JsValue → TryCatch CallToolResult) : Platform :=
  {| World := N;
     ERR_INVALID_STATE :=
       {| ToBoolean := true;
          ToString := lit "TypeError: Invalid state";
          JSON_stringify := lit "{}" |};
     streamText := λ _ messages _ w, (model messages, w);
     generateText := λ _ _ _ w, ({| data := None; error := no_error |}, w);
     new_Client := λ w, (w, N.succ w);
     sdk_connect := λ _ _ w, (no_error, w);
     sdk_listTools := λ _ w, ({| data := Some []; error := no_error |}, w);
     sdk_callTool := λ _ name arguments w, (gateway name arguments, w);
     sdk_close := λ _ w, (None, w);
     process_env := λ _, ∅;
     Date_now := λ w, w |}.

Definition json (text : jsstring) : JsValue :=
  {| ToBoolean := true; ToString := lit "[object Object]";
     JSON_stringify := text |}.

Definition quoted (text : string) : jsstring := [34%N] ++ lit text ++ [34%N].

Definition says (text : string) : JsValue + StreamRun :=
  inr {| parts := [text_delta (lit text)]; failure := None |}.

Definition search_call : ToolCallPart :=
  {| toolCallId := lit "c1"; toolName := lit "search";
     args := json (lit "{" ++ quoted "q" ++ lit ":" ++ quoted "x" ++ lit "}") |}.

(** A connected client without tools. *)
Definition connected_client : MCPClient :=
  {| client := Some 0%N; transport := None; mcpServerConfig := None;
     tools := Some ∅ |}.

Definition gemini : LanguageModel := {| modelId := lit "gemini-1.5-flash" |}.

Definition hello : list CoreMessage := [UserMessage (json (quoted "hi"))].

(** The calls [events] recorded so far, in the world [w]. *)
Definition recorded `{Platform} (w : World) (events : list Event) : Effects :=
  {| world := w; trace := events |}.

(** Nothing recorded yet, in the world [w]. *)
Definition quiet `{Platform} (w : World) : Effects := recorded w [].

Definition fresh_loop (messages : list CoreMessage) `{Platform} (w : World)
  : LoopState :=
  {| currentMessages := messages; loopCounter := 0;
     controller := new_controller;
     effects := quiet w |}.

Definition fetch_call : ToolCallPart :=
  {| toolCallId := lit "c2"; toolName := lit "fetch";
     args := json (lit "{}") |}.

(** A gateway on which [search] fails and every other tool answers. *)
Definition search_is_down (name : jsstring) (arguments : JsValue)
  : TryCatch CallToolResult :=
  if bool_decide (name = lit "search")
  then {| data := None; error := new_Error (lit "connection lost") |}
  else {| data := Some {| content := json (lit "[]"); answer_isError := false |};
          error := no_error |}.

(** A gateway on which the call goes through and [search] itself reports
    an error in its answer. *)
Definition search_reports_an_error (name : jsstring) (arguments : JsValue)
  : TryCatch CallToolResult :=
  {| data := Some {| content := json (quoted "index unavailable");
                     answer_isError := bool_decide (name = lit "search") |};
     error := no_error |}.

Definition has_tool_turn (messages : list CoreMessage) : bool :=
  existsb (λ m, match m with ToolMessage _ => true | _ => false end) messages.

(** Asks for [search] and [fetch], and says "Done" once a tool-result
    turn is in the transcript. *)
Definition two_calls_then_done (messages : list CoreMessage)
  : JsValue + StreamRun :=
  if has_tool_turn messages then says "Done"
  else inr {| parts := [tool_call search_call; tool_call fetch_call];
              failure := None |}.

(** Asks for [search], and says "Done" once a tool-result turn is in the
    transcript. *)
Definition search_then_done (messages : list CoreMessage)
  : JsValue + StreamRun :=
  if has_tool_turn messages then says "Done"
  else inr {| parts := [tool_call search_call]; failure := None |}.

(** A gateway on which every tool answers. *)
Definition all_tools_up (name : jsstring) (arguments : JsValue)
  : TryCatch CallToolResult :=
  {| data := Some {| content := json (lit "[]"); answer_isError := false |};
     error := no_error |}.

(** Asks for [search] in every turn. *)
Definition always_calls (messages : list CoreMessage) : JsValue + StreamRun :=
  inr {| parts := [tool_call search_call]; failure := None |}.

(** Produces a turn of white space only. *)
Definition blank (messages : list CoreMessage) : JsValue + StreamRun :=
  inr {| parts := [text_delta (lit "  "); text_delta nl]; failure := None |}.

(** A catalog, a session on the Github server last active at time [t], and
    a map of ten such sessions ["s0"] ... ["s9"]. *)
Definition catalog : list (jsstring * MCPServerConfig) :=
  Service.AVAILABLE_MCP_SERVERS (lit "/srv/mcp") None.

Definition on_github (t : N) : Service.ActiveConnection :=
  {| Service.serverId := lit "github";
     Service.client := connected_client;
     Service.lastActivityTimestamp := t |}.

Definition ten_sessions : gmap jsstring Service.ActiveConnection :=
  list_to_map
    ((λ i, (lit "s" ++ [48 + i]%N, on_github i))
       <$> [0; 1; 2; 3; 4; 5; 6; 7; 8; 9]%N).

Definition nine_sessions : gmap jsstring Service.ActiveConnection :=
  list_to_map
    ((λ i, (lit "s" ++ [48 + i]%N, on_github i))
       <$> [0; 1; 2; 3; 4; 5; 6; 7; 8]%N).

(** A constructor for the examples: it keeps the configuration it is
    given, and reads a value that is not a configuration as one without a
    command. *)
Definition client_of (model : LanguageModel) (value : Service.ServerValue)
  : MCPClient :=
  new_MCPClient
    match value with
    | Service.configured config => config
    | Service.inherited _ =>
        {| displayName := lit "undefined"; command := []; config_args := [];
           cwd := None; env := None |}
    end.

(** The service's own [chat] is not exercised by the examples. *)
Definition unused_chat `{Platform} (this : MCPClient)
    (messages : list CoreMessage) (fx : Effects)
  : (JsValue + JsValue) * MCPClient * Effects :=
  (inr no_error, this, fx).

(** The platforms of the examples. *)
Definition flaky_search : Platform := scripted two_calls_then_done search_is_down.
Definition tool_hungry : Platform := scripted always_calls search_is_down.
Definition taciturn : Platform := scripted blank search_is_down.
Definition polite : Platform := scripted (λ _, says "Hello") search_is_down.
Definition searching : Platform := scripted search_then_done all_tools_up.
Definition overloaded : Platform :=
  scripted (λ _, inl (new_Error (lit "overloaded"))) all_tools_up.

(** A configuration and tools for the examples. *)
Definition github_config : MCPServerConfig :=
  {| displayName := lit "Github"; command := lit "docker-compose";
     config_args := [lit "run"; lit "--rm"; lit "github-mcp-server"];
     cwd := Some (lit "/srv/mcp");
     env := Some {[ lit "TOKEN" := lit "t0" ]} |}.

Definition tool_named (name description : string) : ToolInfo :=
  {| tool_name := lit name;
     tool_description := json (quoted description);
     inputSchema := json (lit "{}") |}.

(** A platform on which the listing of the tools fails, one on which the
    connection fails, and one on which closing throws. *)
Definition listing_fails : Platform :=
  {| World := N;
     ERR_INVALID_STATE := new_Error (lit "Invalid state");
     streamText := λ _ _ _ w, (says "Hello", w);
     generateText := λ _ _ _ w, ({| data := None; error := no_error |}, w);
     new_Client := λ w, (w, N.succ w);
     sdk_connect := λ _ _ w, (no_error, w);
     sdk_listTools := λ _ w,
       ({| data := None; error := new_Error (lit "no tools") |}, w);
     sdk_callTool := λ _ name arguments w, (all_tools_up name arguments, w);
     sdk_close := λ _ w, (Some (new_Error (lit "broken pipe")), w);
     process_env := λ _, {[ lit "PATH" := lit "/usr/bin" ]};
     Date_now := λ w, w |}.


(** A platform on which the server lists the tools [all]. *)
Definition listing (all : list ToolInfo) : Platform :=
  {| World := N;
     ERR_INVALID_STATE := new_Error (lit "Invalid state");
     streamText := λ _ _ _ w, (says "Hello", w);
     generateText := λ _ _ _ w, ({| data := None; error := no_error |}, w);
     new_Client := λ w, (w, N.succ w);
     sdk_connect := λ _ _ w, (no_error, w);
     sdk_listTools := λ _ w, ({| data := Some all; error := no_error |}, w);
     sdk_callTool := λ _ name arguments w, (all_tools_up name arguments, w);
     sdk_close := λ _ w, (None, w);
     process_env := λ _, ∅;
     Date_now := λ w, w |}.

Definition connection_fails : Platform :=
  {| World := N;
     ERR_INVALID_STATE := new_Error (lit "Invalid state");
     streamText := λ _ _ _ w, (says "Hello", w);
     generateText := λ _ _ _ w, ({| data := None; error := no_error |}, w);
     new_Client := λ w, (w, N.succ w);
     sdk_connect := λ _ _ w, (new_Error (lit "spawn ENOENT"), w);
     sdk_listTools := λ _ w, ({| data := Some []; error := no_error |}, w);
     sdk_callTool := λ _ name arguments w, (all_tools_up name arguments, w);
     sdk_close := λ _ w, (None, w);
     process_env := λ _, ∅;
     Date_now := λ w, w |}.

(** A completed response: text, a call of [search], a call of [fetch]. *)
Definition text_and_two_calls : GenerateTextResult :=
  {| response_messages :=
       [[text_item (lit "Let me look."); tool_call_item search_call];
        [non_object; tool_call_item fetch_call]];
     text := lit "Let me look." |}.

Definition found : GenerateTextResult :=
  {| response_messages := [[text_item (lit "Found.")]]; text := lit "Found." |}.

(** A platform whose [generateText] answers with [first] to a single
    message and with the text "Found." to a longer transcript. *)
Definition completing (first : GenerateTextResult)
    (gateway : jsstring → JsValue → TryCatch CallToolResult) : Platform :=
  {| World := N;
     ERR_INVALID_STATE := new_Error (lit "Invalid state");
     streamText := λ _ _ _ w, (says "Hello", w);
     generateText := λ _ messages tools w,
       ({| data := Some (match messages with [_] => first | _ => found end);
           error := no_error |}, w);
     new_Client := λ w, (w, N.succ w);
     sdk_connect := λ _ _ w, (no_error, w);
     sdk_listTools := λ _ w, ({| data := Some []; error := no_error |}, w);
     sdk_callTool := λ _ name arguments w, (gateway name arguments, w);
     sdk_close := λ _ w, (None, w);
     process_env := λ _, ∅;
     Date_now := λ w, w |}.

(** For the front end: [uuid4] gives a fixed id, and [fetch] answers every
    request with the given status and a body without [response]. *)
Definition fixed_uuid (w : N) : jsstring * N := (lit "generated-id", N.succ w).

Definition undefined : JsValue :=
  {| ToBoolean := false; ToString := lit "undefined";
     JSON_stringify := lit "undefined" |}.

Definition answering (status : N) (request : Actions.Request) (w : N)
  : (JsValue + Actions.Response) * N :=
  (inr {| Actions.status := status; Actions.json := inr (Some undefined) |},
   N.succ w).

(* ===================================================================== *)
(** * Strings                                                             *)
(* ===================================================================== *)

Example trim_strips_both_ends : trim (lit "  Hello " ++ nl) = lit "Hello".
Proof. reflexivity. Qed.

Example trim_keeps_inner_space : trim (lit " a b ") = lit "a b".
Proof. reflexivity. Qed.

Example trim_strips_unicode_space : trim [0xA0; 0x2003; 0xFEFF; 0x2028]%N = [].
Proof. reflexivity. Qed.

Example join_servers :
  join (lit ", ") [lit "github"; lit "supabase"] = lit "github, supabase".
Proof. reflexivity. Qed.

Lemma trimStart_white s : forallb is_white_space s = true → trimStart s = [].
Proof.
  induction s as [|c s IH]; [done|]. simpl.
  intros [Hc Hs]%andb_prop. rewrite Hc. by apply IH.
Qed.

(** A text of white space only is empty after trimming. *)
Lemma trim_white s : forallb is_white_space s = true → trim s = [].
Proof. intros Hs. unfold trim. by rewrite trimStart_white. Qed.

(* ===================================================================== *)
(** * The output stream                                                   *)
(* ===================================================================== *)

Lemma enqueue_open invalid chunk c :
  CanCloseOrEnqueue c = true →
  enqueue invalid chunk c = inr (enqueued [chunk] c).
Proof. intros Hopen. unfold enqueue. by rewrite Hopen. Qed.

Lemma enqueued_open chunks c :
  CanCloseOrEnqueue (enqueued chunks c) = CanCloseOrEnqueue c.
Proof. reflexivity. Qed.

Lemma enqueued_nil c : enqueued [] c = c.
Proof. destruct c. unfold enqueued. simpl. by rewrite app_nil_r. Qed.

Lemma enqueued_app chunks more c :
  enqueued more (enqueued chunks c) = enqueued (chunks ++ more) c.
Proof. unfold enqueued. simpl. by rewrite app_assoc. Qed.

Lemma close_open invalid c :
  CanCloseOrEnqueue c = true → close invalid c = inr (closing c).
Proof. intros Hopen. unfold close. by rewrite Hopen. Qed.

Lemma closing_not_open c : CanCloseOrEnqueue (closing c) = false.
Proof. reflexivity. Qed.

Lemma new_controller_open : CanCloseOrEnqueue new_controller = true.
Proof. reflexivity. Qed.

(* ===================================================================== *)
(** * One round of the loop                                               *)
(* ===================================================================== *)

Section RoundFacts.
Context `{Platform}.
Implicit Types (s : LoopState) (stream : list TextStreamPart).

(** On an open stream the [for await] loop runs to its end: it forwards
    every chunk in order and collects the text and the tool calls. *)
Lemma for_await_open stream : ∀ capturedText calls had s,
  CanCloseOrEnqueue (controller s) = true →
  for_await stream capturedText calls had s =
    (inr (capturedText ++ text_of stream, calls ++ calls_of stream,
          had || bool_decide (calls_of stream ≠ [])),
     {| currentMessages := currentMessages s;
        loopCounter := loopCounter s;
        controller := enqueued (chunks_of stream) (controller s);
        effects := effects s |}).
Proof.
  induction stream as [|part stream IH]; intros capturedText calls had s Hopen.
  - simpl. unfold ret. rewrite !app_nil_r, orb_false_r, enqueued_nil.
    by destruct s.
  - destruct part as [delta|call|]; simpl.
    + unfold bind, controller_enqueue, on_controller.
      rewrite enqueue_open by done. rewrite IH by done. simpl.
      unfold text_of. simpl. rewrite enqueued_app, app_assoc. done.
    + unfold bind, controller_enqueue, on_controller.
      rewrite enqueue_open by done. rewrite IH by done. simpl.
      rewrite enqueued_app, <- app_assoc. simpl.
      by rewrite orb_true_r.
    + by rewrite IH.
Qed.

(** The batch of tool calls never throws: every call gets its slot. *)
Lemma execute_tools_spec mcpClient calls : ∀ toolResults s,
  execute_tools mcpClient calls toolResults s =
    (inr (toolResults ++
          zip_with tool_result_of calls
            (gateway_answers mcpClient calls (world (effects s))).1),
     {| currentMessages := currentMessages s;
        loopCounter := loopCounter s;
        controller := controller s;
        effects :=
          {| world := (gateway_answers mcpClient calls (world (effects s))).2;
             trace := trace (effects s) ++ gateway_calls mcpClient calls |} |}).
Proof.
  induction calls as [|c calls IH]; intros toolResults s.
  - simpl. unfold ret. rewrite !app_nil_r. by destruct s as [? ? ? []].
  - simpl. unfold bind, with_effects, external, ask, emit. simpl.
    destruct (sdk_callTool mcpClient (toolName c) (args c) (world (effects s)))
      as [answer w'] eqn:Hcall.
    rewrite IH. simpl.
    destruct (gateway_answers mcpClient calls w') as [answers w''] eqn:Hrest.
    simpl. by rewrite <- !app_assoc.
Qed.

Lemma calls_of_requests text calls :
  requests (assistant_turn text calls) = calls.
Proof.
  unfold assistant_turn, requests. rewrite omap_app.
  replace (omap _ (if truthy_string (trim text) then _ else _))
    with (@nil ToolCallPart) by (by destruct (truthy_string (trim text))).
  simpl. induction calls as [|c calls IH]; [done|]. csimpl. by f_equal.
Qed.

Lemma assistant_turn_empty text calls :
  assistant_turn text calls = [] ↔ trim text = [] ∧ calls = [].
Proof.
  unfold assistant_turn. split.
  - intros Hnil. apply app_eq_nil in Hnil as [Htext Hcalls].
    apply fmap_nil_inv in Hcalls.
    by destruct (trim text).
  - intros [-> ->]. done.
Qed.

(** Enter a pass and its [try] block up to the answer [Hmodel] of the
    model; run the [catch] block over the open stream [Hopen]. *)
Ltac enter_round Hmodel :=
  unfold loop_body, bind, count_loop, try_catch, try_block, bind, read,
    with_effects, external, ask, emit; simpl;
  rewrite Hmodel.

Ltac run_catch Hopen :=
  unfold throw, catch_block, bind, read, with_effects,
    controller_enqueue, controller_close, on_controller, ret, emit; simpl;
  rewrite enqueue_open by exact Hopen; simpl;
  rewrite close_open by exact Hopen; simpl.

Section OneRound.
Variables (model : LanguageModel) (mcpClient : Client) (tools : ToolSet).
Variable s : LoopState.
Hypothesis stream_open : CanCloseOrEnqueue (controller s) = true.

(** The model invocation throws: the [catch] block reports on the
    stream, closes it and returns. *)
Lemma loop_body_invocation_throws e w1 :
  streamText model (currentMessages s) (Some tools) (world (effects s))
    = (inl e, w1) →
  loop_body model mcpClient tools s =
    (inr return_from_start,
     {| currentMessages := currentMessages s;
        loopCounter := S (loopCounter s);
        controller := closing (enqueued [stream_error e] (controller s));
        effects :=
          {| world := w1;
             trace := trace (effects s) ++
               [call_streamText model (currentMessages s) (Some tools);
                console_error
                  (loop_processing_error (S (loopCounter s)) e)] |} |}).
Proof using stream_open.
  intros Hmodel.
  enter_round Hmodel. run_catch stream_open.
  by rewrite <- app_assoc.
Qed.

(** The stream of the turn throws after some parts: the parts went
    out, nothing is appended to the transcript. *)
Lemma loop_body_stream_throws run e w1 :
  streamText model (currentMessages s) (Some tools) (world (effects s))
    = (inr run, w1) →
  failure run = Some e →
  loop_body model mcpClient tools s =
    (inr return_from_start,
     {| currentMessages := currentMessages s;
        loopCounter := S (loopCounter s);
        controller :=
          closing (enqueued (chunks_of (parts run) ++ [stream_error e])
                     (controller s));
        effects :=
          {| world := w1;
             trace := trace (effects s) ++
               [call_streamText model (currentMessages s) (Some tools);
                console_error
                  (loop_processing_error (S (loopCounter s)) e)] |} |}).
Proof using stream_open.
  intros Hmodel Hfail.
  enter_round Hmodel. rewrite for_await_open by done. simpl. rewrite Hfail.
  run_catch stream_open.
  by rewrite enqueued_app, <- app_assoc.
Qed.

(** A turn without tool calls: the assistant turn is pushed, with a
    warning when it has no content, and the loop is left by [break]. *)
Lemma loop_body_breaks run w1 :
  streamText model (currentMessages s) (Some tools) (world (effects s))
    = (inr run, w1) →
  failure run = None →
  calls_of (parts run) = [] →
  loop_body model mcpClient tools s =
    (inr break_loop,
     {| currentMessages := currentMessages s ++
          [AssistantMessage (assistant_turn (text_of (parts run)) [])];
        loopCounter := S (loopCounter s);
        controller := enqueued (chunks_of (parts run)) (controller s);
        effects :=
          {| world := w1;
             trace := trace (effects s) ++
               [call_streamText model (currentMessages s) (Some tools)] ++
               if truthy_string (trim (text_of (parts run))) then []
               else [console_warn
                       (loop_empty_content (S (loopCounter s)))] |} |}).
Proof using stream_open.
  intros Hmodel Hfail Hcalls.
  enter_round Hmodel. rewrite for_await_open by done. simpl. rewrite Hfail.
  rewrite Hcalls. simpl.
  unfold assistant_turn. simpl.
  destruct (truthy_string (trim (text_of (parts run)))); simpl;
    unfold ret, push_message, with_effects, emit; simpl;
    by rewrite ?app_nil_r, <- ?app_assoc.
Qed.

(** A turn with tool calls: the assistant turn and one tool-result
    turn are pushed and the loop goes on. *)
Lemma loop_body_continues run w1 :
  streamText model (currentMessages s) (Some tools) (world (effects s))
    = (inr run, w1) →
  failure run = None →
  calls_of (parts run) ≠ [] →
  loop_body model mcpClient tools s =
    (inr next_iteration,
     {| currentMessages := currentMessages s ++
          [AssistantMessage
             (assistant_turn (text_of (parts run)) (calls_of (parts run)));
           ToolMessage
             (zip_with tool_result_of (calls_of (parts run))
                (gateway_answers mcpClient (calls_of (parts run)) w1).1)];
        loopCounter := S (loopCounter s);
        controller := enqueued (chunks_of (parts run)) (controller s);
        effects :=
          {| world :=
               (gateway_answers mcpClient (calls_of (parts run)) w1).2;
             trace := trace (effects s) ++
               [call_streamText model (currentMessages s) (Some tools)] ++
               gateway_calls mcpClient (calls_of (parts run)) |} |}).
Proof using stream_open.
  intros Hmodel Hfail Hcalls.
  enter_round Hmodel. rewrite for_await_open by done. simpl. rewrite Hfail.
  rewrite (bool_decide_true (calls_of (parts run) ≠ [])) by done. simpl.
  destruct (bool_decide _) eqn:Hempty.
  { apply bool_decide_eq_true in Hempty. apply length_zero_iff_nil in Hempty.
    apply assistant_turn_empty in Hempty as [_ ?]. done. }
  unfold ret, push_message. simpl.
  rewrite execute_tools_spec. simpl.
  by rewrite <- !app_assoc.
Qed.

End OneRound.

Lemma gateway_answers_length mcpClient calls : ∀ w,
  length (gateway_answers mcpClient calls w).1 = length calls.
Proof.
  induction calls as [|c calls IH]; intros w; simpl; [done|].
  destruct (sdk_callTool _ _ _ w) as [answer w'].
  specialize (IH w').
  destruct (gateway_answers mcpClient calls w') as [answers w'']. simpl in *.
  by rewrite IH.
Qed.

Lemma tool_result_of_ids call answer :
  result_toolCallId (tool_result_of call answer) = toolCallId call ∧
  result_toolName (tool_result_of call answer) = toolName call.
Proof.
  unfold tool_result_of.
  by destruct (ToBoolean (error answer)), (data answer).
Qed.

Lemma tool_result_of_failed call answer :
  call_failed answer →
  tool_result_of call answer =
    {| result_toolCallId := toolCallId call;
       result_toolName := toolName call;
       result := ErrorText (lit "Error: " ++ ToString (error answer));
       isError := true |}.
Proof.
  unfold call_failed, tool_result_of. intros [-> | ->]; [done|].
  by destruct (ToBoolean (error answer)).
Qed.

Lemma tool_result_of_answered call answer d :
  ToBoolean (error answer) = false → data answer = Some d →
  tool_result_of call answer =
    {| result_toolCallId := toolCallId call;
       result_toolName := toolName call;
       result := ToolContent (content d);
       isError := false |}.
Proof. unfold tool_result_of. by intros -> ->. Qed.

Lemma tool_results_answer_calls calls : ∀ answers,
  length answers = length calls →
  answers_calls (zip_with tool_result_of calls answers) calls.
Proof.
  unfold answers_calls.
  induction calls as [|c calls IH]; intros [|a answers] Hlen;
    simplify_eq/=; constructor; auto using tool_result_of_ids.
Qed.

Lemma tool_turns_paired_nil : tool_turns_paired [].
Proof. intros i results Hi. by rewrite lookup_nil in Hi. Qed.

Lemma tool_turns_paired_assistant turns content :
  tool_turns_paired turns →
  tool_turns_paired (turns ++ [AssistantMessage content]).
Proof.
  intros Hturns i results Hi.
  apply lookup_app_Some in Hi as [Hi | [Hge Hi]].
  - destruct (Hturns i results Hi) as (j & c & -> & Hj & Hc).
    exists j, c. split_and!; [done| |done].
    by apply lookup_app_l_Some.
  - apply list_lookup_singleton_Some in Hi as [_ ?]. done.
Qed.

Lemma tool_turns_paired_round turns content results :
  tool_turns_paired turns →
  answers_calls results (requests content) →
  tool_turns_paired (turns ++ [AssistantMessage content; ToolMessage results]).
Proof.
  intros Hturns Hanswers.
  change [AssistantMessage content; ToolMessage results]
    with ([AssistantMessage content] ++ [ToolMessage results]).
  rewrite app_assoc.
  intros i results' Hi.
  apply lookup_app_Some in Hi as [Hi | [Hge Hi]].
  - destruct (tool_turns_paired_assistant _ content Hturns i results' Hi)
      as (j & c & -> & Hj & Hc).
    exists j, c. split_and!; [done| |done].
    by apply lookup_app_l_Some.
  - apply list_lookup_singleton_Some in Hi as [Hi ?]. simplify_eq.
    rewrite length_app in Hi, Hge. simpl in *.
    exists (length turns), content. split_and!; [lia| |done].
    rewrite <- app_assoc. by apply list_lookup_middle.
Qed.

(** The three ways a pass over an open stream can go, told apart by the
    turn of the model alone. *)
Lemma loop_body_cases model mcpClient tools s :
  CanCloseOrEnqueue (controller s) = true →
  ∃ s', loopCounter s' = S (loopCounter s) ∧
    ((model_turn model tools s = None ∧
      loop_body model mcpClient tools s = (inr return_from_start, s') ∧
      currentMessages s' = currentMessages s)
     ∨ (∃ turn, model_turn model tools s = Some turn ∧ calls_of turn = [] ∧
          loop_body model mcpClient tools s = (inr break_loop, s') ∧
          CanCloseOrEnqueue (controller s') = true ∧
          currentMessages s' = currentMessages s ++
            [AssistantMessage (assistant_turn (text_of turn) [])])
     ∨ (∃ turn results,
          model_turn model tools s = Some turn ∧ calls_of turn ≠ [] ∧
          loop_body model mcpClient tools s = (inr next_iteration, s') ∧
          CanCloseOrEnqueue (controller s') = true ∧
          currentMessages s' = currentMessages s ++
            [AssistantMessage
               (assistant_turn (text_of turn) (calls_of turn));
             ToolMessage results] ∧
          answers_calls results (calls_of turn))).
Proof.
  intros Hopen. unfold model_turn.
  destruct (streamText model (currentMessages s) (Some tools)
              (world (effects s))) as [[e|run] w1] eqn:Hmodel.
  - eexists. split; [|left; split_and!; [done| |]].
    2: by apply loop_body_invocation_throws. all: done.
  - destruct (failure run) as [e|] eqn:Hfail.
    + eexists. split; [|left; split_and!; [done| |]].
      2: by eapply loop_body_stream_throws. all: done.
    + destruct (decide (calls_of (parts run) = [])) as [Hcalls|Hcalls].
      * eexists. split; [|right; left; exists (parts run); split_and!].
        4: by eapply loop_body_breaks. all: done.
      * eexists. split;
          [|right; right; eexists (parts run), _; split_and!].
        4: by eapply loop_body_continues. all: try done.
        apply tool_results_answer_calls, gateway_answers_length.
Qed.

Lemma while_true_unfold fuel model mcpClient tools s :
  while_true (S fuel) model mcpClient tools s =
    match loop_body model mcpClient tools s with
    | (inr next_iteration, s') => while_true fuel model mcpClient tools s'
    | stopped => Some stopped
    end.
Proof. reflexivity. Qed.

(** The rounds that went on keep the stream open and count up. *)
Lemma after_rounds_open model mcpClient tools n : ∀ s s_n,
  CanCloseOrEnqueue (controller s) = true →
  after_rounds n model mcpClient tools s = Some s_n →
  CanCloseOrEnqueue (controller s_n) = true ∧
  loopCounter s_n = loopCounter s + n.
Proof.
  induction n as [|n IH]; intros s s_n Hopen Hrounds; simpl in Hrounds.
  - simplify_eq. split; [done|lia].
  - destruct (loop_body_cases model mcpClient tools s Hopen)
      as (s' & Hcount & [(_ & Hbody & _) | [(turn & _ & _ & Hbody & _)
          | (turn & results & _ & _ & Hbody & Hopen' & _)]]);
      rewrite Hbody in Hrounds; try done.
    destruct (IH _ _ Hopen' Hrounds) as [? ?]. split; [done|lia].
Qed.

(** As long as the rounds go on, the loop is running. *)
Lemma while_true_running model mcpClient tools n : ∀ s s_n,
  after_rounds n model mcpClient tools s = Some s_n →
  ∀ fuel, while_true (n + fuel) model mcpClient tools s =
          while_true fuel model mcpClient tools s_n.
Proof.
  induction n as [|n IH]; intros s s_n Hrounds fuel; simpl in *.
  - by simplify_eq.
  - destruct (loop_body model mcpClient tools s) as [[e|[]] s']; try done.
    by apply IH.
Qed.

(** A loop that is still running after [fuel] passes went on in each. *)
Lemma while_true_still_running model mcpClient tools fuel : ∀ s,
  CanCloseOrEnqueue (controller s) = true →
  while_true fuel model mcpClient tools s = None →
  is_Some (after_rounds fuel model mcpClient tools s).
Proof.
  induction fuel as [|fuel IH]; intros s Hopen Hloop; [by eexists|].
  rewrite while_true_unfold in Hloop. simpl.
  destruct (loop_body_cases model mcpClient tools s Hopen)
    as (s' & _ & [(_ & Hbody & _) | [(turn & _ & _ & Hbody & _)
        | (turn & results & _ & _ & Hbody & Hopen' & _)]]);
    rewrite Hbody in Hloop |- *; try done.
  by apply IH.
Qed.

(** How the loop can have been left, over an open stream. *)
Lemma while_true_stopped model mcpClient tools fuel : ∀ s stopped s_end,
  CanCloseOrEnqueue (controller s) = true →
  while_true fuel model mcpClient tools s = Some (stopped, s_end) →
  ∃ n s_n, n < fuel ∧ after_rounds n model mcpClient tools s = Some s_n ∧
           loop_body model mcpClient tools s_n = (stopped, s_end) ∧
           ((stopped = inr break_loop ∧
             ∃ turn, model_turn model tools s_n = Some turn ∧ calls_of turn = [])
            ∨ (stopped = inr return_from_start ∧
               model_turn model tools s_n = None)).
Proof.
  induction fuel as [|fuel IH]; intros s stopped s_end Hopen Hloop; [done|].
  rewrite while_true_unfold in Hloop.
  destruct (loop_body_cases model mcpClient tools s Hopen)
    as (s' & Hcount & [(Hturn & Hbody & _) | [(turn & Hturn & Hcalls & Hbody & _)
        | (turn & results & _ & _ & Hbody & Hopen' & _)]]);
    rewrite Hbody in Hloop.
  - simplify_eq. exists 0, s. split_and!; [lia|done|done|]. by right.
  - simplify_eq. exists 0, s. split_and!; [lia|done|done|]. left. eauto.
  - destruct (IH _ _ _ Hopen' Hloop)
      as (n & s_n & Hn & Hrounds & Hlast & Hwhy).
    exists (S n), s_n. split_and!; [lia| |done|done].
    simpl. by rewrite Hbody.
Qed.

End RoundFacts.

(* ===================================================================== *)
(** * Properties of the chat loop                                         *)
(* ===================================================================== *)

(** C2, amended.  In a round whose model turn requests tool calls, the
    gateway is called for every request, and the tool-result turn has one
    entry per request, at the position of the request, with the
    identifier and the name of the call.  The entry is decided by what the
    gateway answered to that very call: when the call failed (it threw, or
    gave no answer), the entry has [isError = true] and the text "Error: "
    followed by the error, which is not empty; when the call went through,
    the entry has [isError = false] and the content of the answer, also
    when the remote tool marks that answer as an error.  The batch is not
    cut short, and the loop goes on to the next round. *)
Theorem gateway_failure_fills_its_slot `{Platform}
    (model : LanguageModel) (mcpClient : Client) (tools : ToolSet)
    (s : LoopState) (run : StreamRun) (w1 : World) :
  CanCloseOrEnqueue (controller s) = true →
  streamText model (currentMessages s) (Some tools) (world (effects s))
    = (inr run, w1) →
  failure run = None →
  calls_of (parts run) ≠ [] →
  let calls := calls_of (parts run) in
  let answers := (gateway_answers mcpClient calls w1).1 in
  ∃ s' results,
    loop_body model mcpClient tools s = (inr next_iteration, s') ∧
    currentMessages s' = currentMessages s ++
      [AssistantMessage (assistant_turn (text_of (parts run)) calls);
       ToolMessage results] ∧
    length results = length calls ∧
    length answers = length calls ∧
    (∀ i call answer,
       calls !! i = Some call → answers !! i = Some answer →
       ∃ r,
         results !! i = Some r ∧
         result_toolCallId r = toolCallId call ∧
         result_toolName r = toolName call ∧
         (call_failed answer →
            isError r = true ∧
            result r = ErrorText (lit "Error: " ++ ToString (error answer)) ∧
            lit "Error: " ++ ToString (error answer) ≠ []) ∧
         (∀ d, ToBoolean (error answer) = false → data answer = Some d →
            isError r = false ∧ result r = ToolContent (content d))) ∧
    trace (effects s') = trace (effects s) ++
      [call_streamText model (currentMessages s) (Some tools)] ++
      gateway_calls mcpClient calls ∧
    CanCloseOrEnqueue (controller s') = true ∧
    ∀ fuel, while_true (S fuel) model mcpClient tools s =
            while_true fuel model mcpClient tools s'.
Proof.
  intros Hopen Hmodel Hfail Hcalls calls answers.
  pose proof (loop_body_continues model mcpClient tools s Hopen run w1
                Hmodel Hfail Hcalls) as Hbody.
  eexists _, _. split; [exact Hbody|].
  assert (length answers = length calls) as Hlen
    by apply gateway_answers_length.
  cbn [currentMessages effects trace controller].
  split_and!; try done.
  - rewrite length_zip_with. fold calls answers. lia.
  - intros i call answer Hcall Hanswer.
    exists (tool_result_of call answer).
    destruct (tool_result_of_ids call answer) as [Hid Hname].
    split_and!; [|exact Hid|exact Hname| |].
    + apply lookup_zip_with_Some. eauto.
    + intros Hfailed. by rewrite tool_result_of_failed.
    + intros d Herror Hdata.
      by rewrite (tool_result_of_answered call answer d).
  - intros fuel. rewrite while_true_unfold. by rewrite Hbody.
Qed.

Lemma gateway_failure_fills_its_slot_witness :
  let P := scripted two_calls_then_done search_is_down in
  let s := fresh_loop hello 0%N in
  ∃ s' first second,
    loop_body gemini 0%N ∅ s = (inr next_iteration, s') ∧
    currentMessages s' = hello ++
      [AssistantMessage [CallPart search_call; CallPart fetch_call];
       ToolMessage [first; second]] ∧
    result_toolCallId first = lit "c1" ∧ isError first = true ∧
    result first = ErrorText (lit "Error: Error: connection lost") ∧
    result_toolCallId second = lit "c2" ∧ isError second = false ∧
    result second = ToolContent (json (lit "[]")) ∧
    while_true 2 gemini 0%N ∅ s = while_true 1 gemini 0%N ∅ s'.
Proof.
  intros P s.
  destruct (gateway_failure_fills_its_slot (H := P) gemini 0%N ∅ s
              {| parts := [tool_call search_call; tool_call fetch_call];
                 failure := None |} 0%N)
    as (s' & results & Hbody & Hmessages & Hlen & _ & Hslot & _ & _ & Hnext);
    [reflexivity | reflexivity | reflexivity | discriminate |].
  destruct (Hslot 0 search_call
              {| data := None; error := new_Error (lit "connection lost") |})
    as (first & Hfirst & Hid1 & _ & Hfailed & _);
    [reflexivity | reflexivity |].
  destruct Hfailed as (Herr1 & Hresult1 & _); [by right|].
  destruct (Hslot 1 fetch_call (all_tools_up (lit "fetch") (json (lit "{}"))))
    as (second & Hsecond & Hid2 & _ & _ & Hanswered);
    [reflexivity | reflexivity |].
  destruct (Hanswered _ eq_refl eq_refl) as (Herr2 & Hresult2).
  destruct results as [|r1 [|r2 [|r3 results]]]; try discriminate Hlen.
  injection Hfirst as ->. injection Hsecond as ->.
  exists s', first, second.
  split_and!; [exact Hbody | exact Hmessages | exact Hid1 | exact Herr1
              | exact Hresult1 | exact Hid2 | exact Herr2 | exact Hresult2
              | apply Hnext].
Defined.

(** C2, as it is stated, fails: the call to [search] goes through and the
    tool reports an error in its answer, which is a failure of the gateway
    in the design document, and yet the entry for the call says
    [isError = false]. *)
Lemma remote_tool_error_is_not_flagged :
  let P := scripted search_then_done search_reports_an_error in
  let s := fresh_loop (H := P) hello 0%N in
  let answer := search_reports_an_error (toolName search_call) (args search_call) in
  gateway_failed answer ∧
  sdk_callTool (Platform := P) 0%N (toolName search_call) (args search_call) 0%N
    = (answer, 0%N) ∧
  ∃ r,
    currentMessages (loop_body (H := P) gemini 0%N ∅ s).2
      = hello ++ [AssistantMessage [CallPart search_call]; ToolMessage [r]] ∧
    result_toolCallId r = lit "c1" ∧
    isError r = false.
Proof.
  split; [|split; [reflexivity|]].
  - right. split; [reflexivity|]. eexists. split; reflexivity.
  - eexists. by vm_compute.
Qed.

(** A turn without tool calls ends the loop in that very round. *)
Lemma turn_without_calls_breaks `{Platform} model mcpClient tools s turn :
  CanCloseOrEnqueue (controller s) = true →
  model_turn model tools s = Some turn → calls_of turn = [] →
  ∃ s', loop_body model mcpClient tools s = (inr break_loop, s') ∧
        loopCounter s' = S (loopCounter s) ∧
        CanCloseOrEnqueue (controller s') = true.
Proof.
  intros Hopen Hturn Hcalls.
  destruct (loop_body_cases model mcpClient tools s Hopen)
    as (s' & Hcount & [(Hnone & _) | [(turn' & Hturn' & _ & Hbody & Hopen' & _)
        | (turn' & results & Hturn' & Hcalls' & _)]]).
  - congruence.
  - eauto.
  - congruence.
Qed.

(** C3.  Over the stream [chat] opens, the loop is left by [break] in
    round [n + 1] as soon as, after [n] rounds that went on, the model
    returns a turn without tool-call requests: it then terminates, and
    [start] closes the stream.  Conversely the loop is left by [break] only
    in a round whose turn has no tool-call request.  And nothing else
    bounds the rounds: after [n] passes the loop is still running exactly
    when each of the [n] rounds went on, whatever [n] is. *)
Theorem loop_ends_exactly_on_a_turn_without_tool_calls `{Platform}
    (model : LanguageModel) (mcpClient : Client) (tools : ToolSet)
    (s : LoopState) :
  CanCloseOrEnqueue (controller s) = true →
  (∀ n s_n turn,
     after_rounds n model mcpClient tools s = Some s_n →
     model_turn model tools s_n = Some turn → calls_of turn = [] →
     ∃ s_end,
       loopCounter s_end = loopCounter s + S n ∧
       ∀ fuel, n < fuel →
         while_true fuel model mcpClient tools s = Some (inr break_loop, s_end) ∧
         stream_start fuel model mcpClient tools s =
           Some (inr (),
                 {| currentMessages := currentMessages s_end;
                    loopCounter := loopCounter s_end;
                    controller := closing (controller s_end);
                    effects := effects s_end |}))
  ∧ (∀ fuel s_end,
       while_true fuel model mcpClient tools s = Some (inr break_loop, s_end) →
       ∃ n s_n turn,
         n < fuel ∧
         after_rounds n model mcpClient tools s = Some s_n ∧
         model_turn model tools s_n = Some turn ∧ calls_of turn = [] ∧
         loopCounter s_end = loopCounter s + S n)
  ∧ (∀ n,
       while_true n model mcpClient tools s = None ↔
       is_Some (after_rounds n model mcpClient tools s)).
Proof.
  intros Hopen. split_and!.
  - intros n s_n turn Hrounds Hturn Hcalls.
    destruct (after_rounds_open _ _ _ _ _ _ Hopen Hrounds) as [Hopen_n Hcount_n].
    destruct (turn_without_calls_breaks model mcpClient tools s_n turn
                Hopen_n Hturn Hcalls) as (s_end & Hbody & Hcount & Hopen_end).
    exists s_end. split; [lia|].
    intros fuel Hfuel.
    assert (while_true fuel model mcpClient tools s = Some (inr break_loop, s_end))
      as Hloop.
    { replace fuel with (n + S (fuel - S n)) by lia.
      rewrite (while_true_running _ _ _ _ _ _ Hrounds).
      rewrite while_true_unfold. by rewrite Hbody. }
    split; [done|].
    unfold stream_start. rewrite Hloop.
    unfold controller_close, on_controller. by rewrite close_open.
  - intros fuel s_end Hloop.
    destruct (while_true_stopped _ _ _ _ _ _ _ Hopen Hloop)
      as (n & s_n & Hn & Hrounds & Hbody & [[_ (turn & Hturn & Hcalls)] | [? _]]);
      [|done].
    destruct (after_rounds_open _ _ _ _ _ _ Hopen Hrounds) as [Hopen_n Hcount_n].
    destruct (turn_without_calls_breaks model mcpClient tools s_n turn
                Hopen_n Hturn Hcalls) as (s' & Hbody' & Hcount & _).
    exists n, s_n, turn. split_and!; try done.
    rewrite Hbody in Hbody'. simplify_eq. lia.
  - intros n. split.
    + by apply while_true_still_running.
    + intros [s_n Hrounds]. rewrite <- (Nat.add_0_r n).
      by rewrite (while_true_running _ _ _ _ _ _ Hrounds).
Qed.

(** A model that asks for a tool in every turn keeps the loop going for
    any number of rounds. *)
Lemma always_calls_goes_on gateway n : ∀ s,
  CanCloseOrEnqueue (controller s) = true →
  is_Some (after_rounds (H := scripted always_calls gateway) n gemini 0%N ∅ s).
Proof.
  induction n as [|n IH]; intros s Hopen; simpl; [eauto|].
  rewrite (loop_body_continues (H := scripted always_calls gateway) gemini 0%N ∅ s
             Hopen {| parts := [tool_call search_call]; failure := None |}
             (world (effects s))); [|done..].
  by apply IH.
Qed.

Lemma loop_ends_exactly_on_a_turn_without_tool_calls_witness :
  (let P := scripted two_calls_then_done search_is_down in
   ∃ s_end,
     while_true 2 gemini 0%N ∅ (fresh_loop hello 0%N) =
       Some (inr break_loop, s_end) ∧
     loopCounter s_end = 2)
  ∧ (let P := scripted always_calls search_is_down in
     ∀ fuel, while_true fuel gemini 0%N ∅ (fresh_loop hello 0%N) = None).
Proof.
  split.
  - intros P.
    destruct (loop_ends_exactly_on_a_turn_without_tool_calls (H := P)
                gemini 0%N ∅ (fresh_loop (H := P) hello 0%N) eq_refl) as (Hlive & _ & _).
    destruct (after_rounds (H := P) 1 gemini 0%N ∅ (fresh_loop (H := P) hello 0%N))
      as [s1|] eqn:Hs1; [|vm_compute in Hs1; discriminate].
    destruct (Hlive 1 s1 [text_delta (lit "Done")] Hs1) as (s_end & Hcount & Hrun).
    + vm_compute in Hs1. injection Hs1 as <-. reflexivity.
    + reflexivity.
    + exists s_end. split; [apply (Hrun 2); lia | exact Hcount].
  - intros P fuel.
    destruct (loop_ends_exactly_on_a_turn_without_tool_calls (H := P)
                gemini 0%N ∅ (fresh_loop (H := P) hello 0%N) eq_refl) as (_ & _ & Hgo).
    destruct (always_calls_goes_on search_is_down fuel (fresh_loop (H := P) hello 0%N)
                eq_refl) as [s_n Hs_n].
    apply (Hgo fuel). by exists s_n.
Defined.

Section Pairing.
Context `{Platform}.
Variables (model : LanguageModel) (mcpClient : Client) (tools : ToolSet).
Variable base : list CoreMessage.

Lemma after_rounds_paired n : ∀ s s_n,
  CanCloseOrEnqueue (controller s) = true →
  appended_paired base s →
  after_rounds n model mcpClient tools s = Some s_n →
  appended_paired base s_n.
Proof.
  induction n as [|n IH]; intros s s_n Hopen Hpaired Hrounds; simpl in Hrounds.
  - by simplify_eq.
  - destruct (loop_body_cases model mcpClient tools s Hopen)
      as (s' & _ & [(_ & Hbody & _) | [(turn & _ & _ & Hbody & _)
          | (turn & results & _ & _ & Hbody & Hopen' & Hmessages & Hanswers)]]);
      rewrite Hbody in Hrounds; try done.
    apply (IH s' s_n Hopen'); [|done].
    destruct Hpaired as (added & Hadded & Hpaired).
    eexists. split.
    + rewrite Hmessages, Hadded, <- app_assoc. done.
    + apply tool_turns_paired_round; [done|]. by rewrite calls_of_requests.
Qed.

Lemma while_true_paired fuel s stopped s_end :
  CanCloseOrEnqueue (controller s) = true →
  appended_paired base s →
  while_true fuel model mcpClient tools s = Some (stopped, s_end) →
  appended_paired base s_end.
Proof.
  intros Hopen Hpaired Hloop.
  destruct (while_true_stopped _ _ _ _ _ _ _ Hopen Hloop)
    as (n & s_n & _ & Hrounds & Hbody & Hwhy).
  pose proof (after_rounds_paired n s s_n Hopen Hpaired Hrounds) as Hpaired_n.
  destruct (after_rounds_open _ _ _ _ _ _ Hopen Hrounds) as [Hopen_n _].
  destruct (loop_body_cases model mcpClient tools s_n Hopen_n)
    as (s' & _ & [(_ & Hbody' & Hmessages)
        | [(turn & _ & _ & Hbody' & _ & Hmessages)
        | (turn & results & _ & _ & Hbody' & _)]]);
    rewrite Hbody in Hbody'; simplify_eq.
  - destruct Hpaired_n as (added & Hadded & ?).
    exists added. by rewrite Hmessages.
  - destruct Hpaired_n as (added & Hadded & ?).
    eexists. split.
    + rewrite Hmessages, Hadded, <- app_assoc. done.
    + by apply tool_turns_paired_assistant.
  - by destruct Hwhy as [[? _] | [? _]].
Qed.

End Pairing.

(** C4.  In the transcript [chat] ends with, and in the transcript of
    every round on the way, each tool-result turn the loop has appended
    directly follows the assistant turn of its round and carries one
    result per tool-call request of that turn, with the identifiers (and
    tool names) in the order of the requests. *)
Theorem tool_results_answer_the_preceding_requests `{Platform}
    (this : MCPClient) (model : LanguageModel) (messages : list CoreMessage)
    (fx : Effects) :
  (∀ fuel out,
     chat this model messages fuel fx = Some out →
     ∃ added, transcript out = messages ++ added ∧ tool_turns_paired added)
  ∧ (∀ mcpClient n s_n,
       client this = Some mcpClient →
       after_rounds n model mcpClient (default ∅ (tools this))
         {| currentMessages := messages; loopCounter := 0;
            controller := new_controller; effects := fx |} = Some s_n →
       ∃ added, currentMessages s_n = messages ++ added ∧
                tool_turns_paired added).
Proof.
  set (s0 := {| currentMessages := messages; loopCounter := 0;
                controller := new_controller; effects := fx |}).
  assert (appended_paired messages s0) as Hstart.
  { exists []. split; [by rewrite app_nil_r | apply tool_turns_paired_nil]. }
  split.
  - intros fuel out Hchat. unfold chat in Hchat.
    destruct (client this) as [mcpClient|].
    + unfold stream_start in Hchat. fold s0 in Hchat.
      destruct (while_true fuel model mcpClient _ s0) as [[stopped s_end]|]
        eqn:Hloop; [|done].
      pose proof (while_true_paired model mcpClient _ messages fuel s0 _ _
                    eq_refl Hstart Hloop) as Hend.
      destruct stopped as [e|[]]; simplify_eq/=; try done.
      all: unfold controller_close, on_controller in Hchat;
        destruct (close _ _); simplify_eq/=; done.
    + simplify_eq/=. exists []. split; [by rewrite app_nil_r|].
      apply tool_turns_paired_nil.
  - intros mcpClient n s_n _ Hrounds.
    by apply (after_rounds_paired model mcpClient _ messages n s0 _
                eq_refl Hstart Hrounds).
Qed.

Lemma tool_results_answer_the_preceding_requests_witness :
  let P := scripted two_calls_then_done search_is_down in
  ∃ out added,
    chat connected_client gemini hello 5 (quiet (H := P) 0%N) = Some out ∧
    transcript out = hello ++ added ∧
    length added = 3 ∧
    tool_turns_paired added.
Proof.
  intros P.
  destruct (chat (H := P) connected_client gemini hello 5 (quiet (H := P) 0%N))
    as [out|] eqn:Hchat; [|vm_compute in Hchat; discriminate].
  destruct (tool_results_answer_the_preceding_requests (H := P)
              connected_client gemini hello (quiet (H := P) 0%N))
    as [Hfinal _].
  destruct (Hfinal 5 out Hchat) as (added & Htranscript & Hpaired).
  exists out, added. split_and!; [reflexivity | exact Htranscript | | exact Hpaired].
  vm_compute in Hchat. injection Hchat as <-.
  apply (f_equal length) in Htranscript.
  rewrite length_app in Htranscript. simpl in Htranscript. lia.
Defined.

(** The model answers "Hello" and asks for no tool: one round, "Hello" on
    the stream, which is then closed, and the transcript ends with the
    assistant turn. *)
Example hello_runs_one_round :
  chat (H := polite) connected_client gemini hello 1 (quiet (H := polite) 0%N) =
    Some {| returned :=
              inr {| queue := [lit "Hello"]; closeRequested := true;
                     state := readable |};
            transcript := hello ++ [AssistantMessage [TextPart (lit "Hello")]];
            rounds := 1;
            this_after := connected_client;
            effects_after :=
              recorded (H := polite) 0%N
                [call_streamText gemini hello (Some ∅)] |}.
Proof. by vm_compute. Qed.

(** The model asks for [search] and, given the result, answers "Done":
    two rounds, and the transcript has grown by the assistant turn with
    the call, the tool-result turn and the assistant turn "Done". *)
Example search_then_done_runs_two_rounds :
  ∃ out,
    chat (H := searching) connected_client gemini hello 2
      (quiet (H := searching) 0%N) = Some out ∧
    rounds out = 2 ∧
    transcript out = hello ++
      [AssistantMessage [CallPart search_call];
       ToolMessage
         [{| result_toolCallId := lit "c1"; result_toolName := lit "search";
             result := ToolContent (json (lit "[]")); isError := false |}];
       AssistantMessage [TextPart (lit "Done")]] ∧
    chat (H := searching) connected_client gemini hello 1
      (quiet (H := searching) 0%N) = None.
Proof. eexists. split; [by vm_compute|]. by vm_compute. Qed.

(** The model call throws: one round, the error marker on the stream,
    which is then closed, and nothing appended to the transcript. *)
Example model_failure_ends_the_stream :
  chat (H := overloaded) connected_client gemini hello 1
    (quiet (H := overloaded) 0%N) =
    Some {| returned :=
              inr {| queue := [nl ++ lit "[STREAM ERROR]: Error: overloaded"];
                     closeRequested := true; state := readable |};
            transcript := hello;
            rounds := 1;
            this_after := connected_client;
            effects_after :=
              recorded (H := overloaded) 0%N
                [call_streamText gemini hello (Some ∅);
                 console_error
                   (loop_processing_error 1 (new_Error (lit "overloaded")))] |}.
Proof. by vm_compute. Qed.

(** The turn of a round, read off the answer of the model. *)
Lemma model_turn_Some `{Platform} model tools s turn :
  model_turn model tools s = Some turn →
  ∃ run w1,
    streamText model (currentMessages s) (Some tools) (world (effects s))
      = (inr run, w1) ∧
    failure run = None ∧ parts run = turn.
Proof.
  unfold model_turn. intros Hturn.
  destruct (streamText _ _ _ _) as [[e|run] w1]; [done|].
  destruct (failure run) eqn:Hfail; [done|].
  simplify_eq. eauto.
Qed.

(** C5, as the code has it.  In a round whose turn has no tool-call
    request and whose text is empty after trimming, the loop logs a
    warning, still appends the assistant turn, with empty content, to the
    transcript, and is left by [break]: nothing is reported as an error,
    and [start] closes the stream as after any last round. *)
Theorem empty_turn_is_warned_about_and_appended `{Platform}
    (model : LanguageModel) (mcpClient : Client) (tools : ToolSet)
    (s : LoopState) (turn : list TextStreamPart) :
  CanCloseOrEnqueue (controller s) = true →
  model_turn model tools s = Some turn →
  calls_of turn = [] →
  trim (text_of turn) = [] →
  ∃ s',
    loop_body model mcpClient tools s = (inr break_loop, s') ∧
    currentMessages s' = currentMessages s ++ [AssistantMessage []] ∧
    trace (effects s') = trace (effects s) ++
      [call_streamText model (currentMessages s) (Some tools);
       console_warn (loop_empty_content (S (loopCounter s)))] ∧
    controller s' = enqueued (chunks_of turn) (controller s) ∧
    ∀ fuel,
      stream_start (S fuel) model mcpClient tools s =
        Some (inr (),
              {| currentMessages := currentMessages s';
                 loopCounter := loopCounter s';
                 controller := closing (controller s');
                 effects := effects s' |}).
Proof.
  intros Hopen Hturn Hcalls Htext.
  destruct (model_turn_Some _ _ _ _ Hturn) as (run & w1 & Hmodel & Hfail & <-).
  pose proof (loop_body_breaks model mcpClient tools s Hopen run w1
                Hmodel Hfail Hcalls) as Hbody.
  unfold assistant_turn in Hbody. rewrite Htext in Hbody. simpl in Hbody.
  eexists. split; [exact Hbody|].
  split_and!; try done.
  intros fuel. unfold stream_start. rewrite while_true_unfold, Hbody.
  unfold controller_close, on_controller. simpl.
  by rewrite close_open.
Qed.

Lemma empty_turn_is_warned_about_and_appended_witness :
  ∃ s',
    loop_body (H := taciturn) gemini 0%N ∅ (fresh_loop (H := taciturn) hello 0%N)
      = (inr break_loop, s') ∧
    currentMessages s' = hello ++ [AssistantMessage []] ∧
    trace (effects s') =
      [call_streamText gemini hello (Some ∅); console_warn (loop_empty_content 1)].
Proof.
  destruct (empty_turn_is_warned_about_and_appended (H := taciturn)
              gemini 0%N ∅ (fresh_loop (H := taciturn) hello 0%N)
              [text_delta (lit "  "); text_delta nl])
    as (s' & Hbody & Hmessages & Htrace & _);
    [reflexivity | reflexivity | reflexivity | reflexivity |].
  exists s'. split_and!; [exact Hbody | exact Hmessages | exact Htrace].
Defined.

(** C5, as it is stated, fails: the model answers with white space only,
    no tool call is requested and the trimmed text is empty, and yet the
    transcript has grown by an assistant turn. *)
Lemma empty_assistant_turn_is_appended :
  let s := fresh_loop (H := taciturn) hello 0%N in
  let turn := [text_delta (lit "  "); text_delta nl] in
  model_turn (H := taciturn) gemini ∅ s = Some turn ∧
  calls_of turn = [] ∧
  trim (text_of turn) = [] ∧
  currentMessages (loop_body (H := taciturn) gemini 0%N ∅ s).2
    = hello ++ [AssistantMessage []] ∧
  currentMessages (loop_body (H := taciturn) gemini 0%N ∅ s).2
    ≠ currentMessages s.
Proof. by vm_compute. Qed.

(* ===================================================================== *)
(** * [chat] on a client that is not connected                            *)
(* ===================================================================== *)

(** The states in which [this.client] is [null]: a client that was never
    started, one whose [start] threw, and one that was cleaned up. *)
Lemma client_of_new_MCPClient serverConfig :
  client (new_MCPClient serverConfig) = None.
Proof. reflexivity. Qed.

Lemma client_after_failed_start `{Platform} this fx e this' fx' :
  client this = None →
  start this fx = (inl e, this', fx') → client this' = None.
Proof.
  unfold start. intros -> Hstart.
  destruct (mcpServerConfig this) as [cfg|]; [|by simplify_eq].
  unfold ask in Hstart.
  destruct (new_Client (world fx)) as [c w1]. simpl in Hstart.
  destruct (sdk_connect c _ w1) as [connectError w2]. simpl in Hstart.
  destruct (ToBoolean connectError); [by simplify_eq|].
  destruct (sdk_listTools c w2) as [r w3]. simpl in Hstart.
  by destruct (ToBoolean (error r)), (data r).
Qed.

Lemma client_after_cleanup `{Platform} this fx this' fx' :
  cleanup this fx = (inr (), this', fx') → client this' = None.
Proof.
  unfold cleanup. intros Hcleanup.
  destruct (client this) as [c|] eqn:Hclient; [|by simplify_eq].
  unfold ask in Hcleanup. simpl in Hcleanup.
  destruct (sdk_close c (world fx)) as [[e|] w1]; by simplify_eq.
Qed.

(** C10, evaluated.  On a client that is not connected, neither variant
    of [chat] invokes the model or changes the client, and the completed
    variant returns the error string.  In the streaming variant the
    [start] callback errors the fresh stream and then calls
    [controller.close()] on it, which throws: the constructor of the
    stream throws, so the promise of [chat] is rejected with that
    TypeError and the caller receives no stream. *)
Theorem chat_not_connected `{Platform}
    (this : MCPClient) (model : LanguageModel) (messages : list CoreMessage)
    (fuel : nat) (fx : Effects) :
  client this = None →
  chat this model messages fuel fx =
    Some {| returned := inl ERR_INVALID_STATE;
            transcript := messages;
            rounds := 0;
            this_after := this;
            effects_after := fx |}
  ∧ chat_completed this model messages fx =
      (lit "Error: MCP Client not connected", this, fx).
Proof.
  intros Hclient. unfold chat, chat_completed. rewrite Hclient. done.
Qed.

Lemma chat_not_connected_witness :
  let this :=
    new_MCPClient
      {| displayName := lit "Github"; command := lit "docker-compose";
         config_args := []; cwd := None; env := None |} in
  ∃ out,
    chat (H := flaky_search) this gemini hello 3 (quiet (H := flaky_search) 0%N)
      = Some out ∧
    returned out = inl (ERR_INVALID_STATE (Platform := flaky_search)) ∧
    (∀ stream, returned out ≠ inr stream) ∧
    effects_after out = quiet (H := flaky_search) 0%N ∧
    this_after out = this.
Proof.
  intros this.
  destruct (chat_not_connected (H := flaky_search) this gemini hello 3
              (quiet (H := flaky_search) 0%N) eq_refl) as [Hchat _].
  eexists. split; [exact Hchat|]. simpl. by split_and!.
Defined.

(* ===================================================================== *)
(** * Tool failures in completed mode                                     *)
(* ===================================================================== *)

(** The completed-mode client builds no transcript and no tool-result
    turn: a failed call becomes a line of the text it returns, and the walk
    over the content goes on with the next item. *)
Lemma walk_content_failed_call `{Platform} mcpClient model messages call rest
    finalText toolResults fx answer w1 :
  sdk_callTool mcpClient (toolName call) (args call) (world fx) = (answer, w1) →
  call_failed answer →
  walk_content mcpClient model messages (tool_call_item call :: rest)
    finalText toolResults fx =
  walk_content mcpClient model messages rest
    (finalText ++ [error_calling_tool call (error answer)]) toolResults
    {| world := w1;
       trace := trace fx ++
         [call_callTool mcpClient (toolName call) (args call)] |}.
Proof.
  intros Hcall Hfailed. simpl. unfold ask, emit. simpl. rewrite Hcall.
  destruct Hfailed as [-> | ->]; [done|].
  by destruct (ToBoolean (error answer)).
Qed.

(* ===================================================================== *)
(** * Properties of the session registry                                  *)
(* ===================================================================== *)

(** Reduces the [match] of [connect] once [connect_checks] has come to
    its answer. *)
Ltac answered H := cbv beta iota zeta in H; simplify_eq.

Section Registry.
Context `{Platform}.
Variable aiModel : option LanguageModel.
Variable servers : list (jsstring * MCPServerConfig).
Variable new_client : LanguageModel → Service.ServerValue → MCPClient.
Implicit Types (activeConnections : gmap jsstring Service.ActiveConnection).

(** A request for a session id that is in the map is answered at the
    first check of [/connect], whatever the server asked for. *)
Lemma connect_registered sessionId serverId serverConfig activeConnections fx :
  sessionId ≠ [] → serverId ≠ [] →
  Service.server_config servers serverId = Some serverConfig →
  is_Some (activeConnections !! sessionId) →
  Service.connect aiModel servers new_client
    (Service.string_field sessionId) (Service.string_field serverId)
    activeConnections fx =
    ({| Service.status := 200;
        Service.json := Service.message (lit "Already connected") |},
     activeConnections, fx).
Proof.
  intros Hsession Hserver Hconfig Hregistered.
  unfold Service.connect, Service.connect_checks.
  destruct sessionId as [|c s]; [done|].
  destruct serverId as [|c' s']; [done|].
  rewrite Hconfig. by rewrite bool_decide_true.
Qed.

(** The ways through [/connect] when nothing comes in between: an answer
    that leaves the map as it is and starts nothing, or the start of a new
    client for a session id that is not in the map. *)
Lemma connect_cases sessionId serverId activeConnections fx
    reply activeConnections' fx' :
  Service.connect aiModel servers new_client sessionId serverId
    activeConnections fx = (reply, activeConnections', fx') →
  (activeConnections' = activeConnections ∧ world fx' = world fx ∧
   Service.connect_checks aiModel servers new_client sessionId serverId
     activeConnections fx = inl (reply, activeConnections', fx') ∧
   (Service.status reply = 200%N →
      ∃ sid, sessionId = Service.string_field sid ∧
             is_Some (activeConnections !! sid))) ∨
  ∃ sid srv serverConfig model outcome mcpClient fx0,
    sessionId = Service.string_field sid ∧ sid ≠ [] ∧
    serverId = Service.string_field srv ∧ srv ≠ [] ∧
    Service.server_config servers srv = Some serverConfig ∧
    aiModel = Some model ∧
    activeConnections !! sid = None ∧
    size activeConnections < Service.MAX_CONNECTIONS ∧
    Service.connect_checks aiModel servers new_client sessionId serverId
      activeConnections fx =
      inr ({| Service.connecting_sessionId := sid;
              Service.connecting_serverId := srv;
              Service.connecting_client := new_client model serverConfig |},
           activeConnections, fx) ∧
    start (new_client model serverConfig) fx = (outcome, mcpClient, fx0) ∧
    match outcome with
    | inr _ =>
        Service.status reply = 200%N ∧ fx' = fx0 ∧
        activeConnections' =
          <[sid := {| Service.serverId := srv;
                      Service.client := mcpClient;
                      Service.lastActivityTimestamp := Date_now (world fx0) |}]>
            activeConnections
    | inl err =>
        Service.status reply = 500%N ∧
        activeConnections' = activeConnections ∧
        fx' = emit (console_error (server_connect_failed sid err)) fx0
    end.
Proof.
  intros Hconnect. unfold Service.connect in Hconnect.
  destruct (Service.connect_checks aiModel servers new_client sessionId
              serverId activeConnections fx)
    as [[[reply0 activeConnections0] fx0']|[[pending activeConnections0] fx0']]
    eqn:Hchecks; unfold Service.connect_checks in Hchecks.
  - left. injection Hconnect as -> -> ->.
    destruct sessionId as [[|c s]|]; try (simplify_eq; by split_and!).
    destruct serverId as [[|c' s']|]; try (simplify_eq; by split_and!).
    destruct (Service.server_config servers (c' :: s')) as [serverConfig|];
      [|simplify_eq; by split_and!].
    destruct (bool_decide (is_Some (activeConnections !! (c :: s)))) eqn:Hhas.
    { apply bool_decide_eq_true in Hhas. simplify_eq.
      split_and!; try done. intros _. by exists (c :: s). }
    apply bool_decide_eq_false in Hhas.
    destruct (bool_decide (Service.MAX_CONNECTIONS ≤ size activeConnections));
      [simplify_eq; by split_and!|].
    destruct aiModel as [model|]; [|simplify_eq; by split_and!].
    destruct (activeConnections !! (c :: s)) as [existing|] eqn:Hlookup.
    { destruct Hhas. eauto. }
    discriminate Hchecks.
  - right.
    destruct sessionId as [[|c s]|]; try discriminate Hchecks.
    destruct serverId as [[|c' s']|]; try discriminate Hchecks.
    destruct (Service.server_config servers (c' :: s')) as [serverConfig|]
      eqn:Hconfig; [|discriminate Hchecks].
    destruct (bool_decide (is_Some (activeConnections !! (c :: s)))) eqn:Hhas;
      [discriminate Hchecks|].
    apply bool_decide_eq_false in Hhas.
    destruct (bool_decide (Service.MAX_CONNECTIONS ≤ size activeConnections))
      eqn:Hfull; [discriminate Hchecks|].
    apply bool_decide_eq_false in Hfull.
    destruct aiModel as [model|]; [|discriminate Hchecks].
    destruct (activeConnections !! (c :: s)) as [existing|] eqn:Hlookup.
    { destruct Hhas. eauto. }
    injection Hchecks as <- <- <-.
    unfold Service.connect_resume, Service.connect_settle in Hconnect.
    cbn [Service.connecting_client Service.connecting_sessionId
         Service.connecting_serverId] in Hconnect.
    destruct (start (new_client model serverConfig) fx)
      as [[outcome mcpClient] fx0] eqn:Hstart.
    exists (c :: s), (c' :: s'), serverConfig, model, outcome, mcpClient, fx0.
    split_and!; try done; [lia|].
    destruct outcome as [err|[]]; injection Hconnect as <- <- <-;
      split_and!; try done.
    by apply delete_id.
Qed.

(** The first successful [/connect] for a session id registers it. *)
Lemma connect_fresh sessionId serverId serverConfig activeConnections fx
    reply activeConnections' fx' :
  sessionId ≠ [] → serverId ≠ [] →
  Service.server_config servers serverId = Some serverConfig →
  activeConnections !! sessionId = None →
  Service.connect aiModel servers new_client
    (Service.string_field sessionId) (Service.string_field serverId)
    activeConnections fx = (reply, activeConnections', fx') →
  Service.status reply = 200%N →
  ∃ model mcpClient fx0,
    aiModel = Some model ∧
    start (new_client model serverConfig) fx = (inr (), mcpClient, fx0) ∧
    fx' = fx0 ∧
    activeConnections' =
      <[sessionId :=
          {| Service.serverId := serverId;
             Service.client := mcpClient;
             Service.lastActivityTimestamp := Date_now (world fx0) |}]>
        activeConnections ∧
    size activeConnections < Service.MAX_CONNECTIONS.
Proof.
  intros Hsession Hserver Hconfig Hfresh Hconnect Hok.
  destruct (connect_cases _ _ _ _ _ _ _ Hconnect)
    as [(_ & _ & _ & Hknown)
       | (sid & srv & serverConfig' & model & outcome & mcpClient & fx0 &
          [= <-] & _ & [= <-] & _ & Hconfig' & Hmodel & _ & Hroom & _ &
          Hstart & Hpost)].
  { destruct (Hknown Hok) as (sid & [= <-] & Hsome).
    rewrite Hfresh in Hsome. by destruct Hsome. }
  rewrite Hconfig in Hconfig'. injection Hconfig' as <-.
  destruct outcome as [err|[]].
  { destruct Hpost as (Hfailed & _). by rewrite Hfailed in Hok. }
  destruct Hpost as (_ & -> & ->). by exists model, mcpClient, fx0.
Qed.

(** [/connect] never takes the map beyond the limit when nothing comes in
    between. *)
Lemma connect_keeps_the_limit sessionId serverId activeConnections fx
    reply activeConnections' fx' :
  size activeConnections ≤ Service.MAX_CONNECTIONS →
  Service.connect aiModel servers new_client sessionId serverId activeConnections fx
    = (reply, activeConnections', fx') →
  size activeConnections' ≤ Service.MAX_CONNECTIONS.
Proof.
  intros Hlimit Hconnect.
  destruct (connect_cases _ _ _ _ _ _ _ Hconnect)
    as [(-> & _)
       | (sid & srv & serverConfig & model & outcome & mcpClient & fx0 &
          _ & _ & _ & _ & _ & _ & Hfresh & Hroom & _ & _ & Hpost)];
    [done|].
  destruct outcome as [err|[]].
  - by destruct Hpost as (_ & -> & _).
  - destruct Hpost as (_ & _ & ->). rewrite map_size_insert_None by done. lia.
Qed.

(** C1, evaluated.  A [/connect] that names another server for a
    session id already in the map stops at the first check: it answers
    "Already connected", calls nothing (no teardown of the old client,
    no new connection), and leaves the entry on the old server. *)
Theorem connect_to_another_server_changes_nothing
    sessionId serverId serverConfig existingConnection activeConnections fx :
  sessionId ≠ [] → serverId ≠ [] →
  Service.server_config servers serverId = Some (Service.configured serverConfig) →
  activeConnections !! sessionId = Some existingConnection →
  Service.serverId existingConnection ≠ serverId →
  ∃ reply activeConnections' fx',
    Service.connect aiModel servers new_client
      (Service.string_field sessionId) (Service.string_field serverId)
      activeConnections fx = (reply, activeConnections', fx') ∧
    Service.status reply = 200%N ∧
    Service.json reply = Service.message (lit "Already connected") ∧
    activeConnections' = activeConnections ∧
    activeConnections' !! sessionId = Some existingConnection ∧
    fx' = fx.
Proof.
  intros Hsession Hserver Hconfig Hregistered Hother.
  eexists _, _, _. split.
  - apply (connect_registered _ _ (Service.configured serverConfig)); eauto.
  - by split_and!.
Qed.

(** C6.  A [/connect] for a session id that is not in the map, while
    the map holds [MAX_CONNECTIONS] = 10 sessions (or more), is answered
    503 "connection limit reached"; it calls nothing but [console.warn]
    (no client is created, nothing is connected), and the map is the
    same afterwards: same size, and the session id still not in it. *)
Theorem connect_at_capacity_is_rejected
    sessionId serverId serverConfig activeConnections fx :
  sessionId ≠ [] → serverId ≠ [] →
  Service.server_config servers serverId = Some (Service.configured serverConfig) →
  activeConnections !! sessionId = None →
  Service.MAX_CONNECTIONS ≤ size activeConnections →
  Service.MAX_CONNECTIONS = 10 ∧
  ∃ reply activeConnections' fx',
    Service.connect aiModel servers new_client
      (Service.string_field sessionId) (Service.string_field serverId)
      activeConnections fx = (reply, activeConnections', fx') ∧
    Service.status reply = 503%N ∧
    Service.json reply =
      Service.message (lit "Service busy, connection limit reached") ∧
    activeConnections' = activeConnections ∧
    size activeConnections' = size activeConnections ∧
    activeConnections' !! sessionId = None ∧
    world fx' = world fx ∧
    trace fx' = trace fx ++ [console_warn (server_limit_reached sessionId)].
Proof.
  intros Hsession Hserver Hconfig Hfresh Hfull. split; [done|].
  unfold Service.connect, Service.connect_checks.
  destruct sessionId as [|c s]; [done|].
  destruct serverId as [|c' s']; [done|].
  rewrite Hconfig.
  rewrite bool_decide_false by (rewrite Hfresh; by intros [? ?]).
  rewrite bool_decide_true by done.
  eexists _, _, _. split; [done|]. by split_and!.
Qed.

(** C7, evaluated.  After a first [/connect] that registered the
    session, a second one with the same session id and server id is
    answered 200 "Already connected" and calls nothing: no client is
    created and nothing is connected.  The map, which has one entry for
    the session id, is left exactly as it was: the entry keeps the
    [lastActivityTimestamp] of the first call whatever the clock says at
    the second. *)
Theorem second_connect_changes_nothing
    sessionId serverId serverConfig activeConnections fx
    reply activeConnections' fx' :
  sessionId ≠ [] → serverId ≠ [] →
  Service.server_config servers serverId = Some (Service.configured serverConfig) →
  activeConnections !! sessionId = None →
  Service.connect aiModel servers new_client
    (Service.string_field sessionId) (Service.string_field serverId)
    activeConnections fx = (reply, activeConnections', fx') →
  Service.status reply = 200%N →
  ∃ connectionData,
    activeConnections' !! sessionId = Some connectionData ∧
    Service.serverId connectionData = serverId ∧
    Service.lastActivityTimestamp connectionData = Date_now (world fx') ∧
    size activeConnections' = S (size activeConnections) ∧
    ∀ fx2,
      Service.connect aiModel servers new_client
        (Service.string_field sessionId) (Service.string_field serverId)
        activeConnections' fx2 =
        ({| Service.status := 200;
            Service.json := Service.message (lit "Already connected") |},
         activeConnections', fx2).
Proof.
  intros Hsession Hserver Hconfig Hfresh Hconnect Hok.
  destruct (connect_fresh _ _ _ _ _ _ _ _ Hsession Hserver Hconfig Hfresh
              Hconnect Hok)
    as (model & mcpClient & fx0 & _ & Hstart & -> & -> & Hroom).
  eexists. split_and!.
  - apply lookup_insert_eq.
  - done.
  - done.
  - by apply map_size_insert_None.
  - intros fx2.
    apply (connect_registered _ _ (Service.configured serverConfig)); try done.
    rewrite lookup_insert_eq. eauto.
Qed.

(** C8.  [/disconnect] for a session id that is not in the map answers
    200 and changes nothing.  For one that is in the map it runs
    [cleanup] on the client of the session, which closes the connection,
    and deletes the entry whether [cleanup] returned or threw.  Either
    way the session id is not in the map afterwards, and a further
    [/disconnect] for it is the no-op. *)
Theorem disconnect_removes_the_session sessionId activeConnections fx :
  sessionId ≠ [] →
  ∃ reply activeConnections' fx',
    Service.disconnect (Service.string_field sessionId) activeConnections fx
      = (reply, activeConnections', fx') ∧
    activeConnections' !! sessionId = None ∧
    activeConnections' = delete sessionId activeConnections ∧
    (activeConnections !! sessionId = None →
       Service.status reply = 200%N ∧
       activeConnections' = activeConnections ∧ fx' = fx) ∧
    (∀ connectionData,
       activeConnections !! sessionId = Some connectionData →
       ∃ outcome this' fx0,
         cleanup (Service.client connectionData) fx = (outcome, this', fx0) ∧
         (∀ c, client (Service.client connectionData) = Some c →
               call_close c ∈ trace fx') ∧
         match outcome with
         | inr _ => Service.status reply = 200%N ∧ fx' = fx0
         | inl err =>
             Service.status reply = 500%N ∧
             fx' = emit (console_error
                           (server_disconnect_failed sessionId err)) fx0
         end) ∧
    Service.disconnect (Service.string_field sessionId) activeConnections' fx'
      = ({| Service.status := 200;
            Service.json := Service.message
              (lit "Session not found or already disconnected") |},
         activeConnections', fx').
Proof.
  intros Hsession. destruct sessionId as [|c s]; [done|]. clear Hsession.
  assert (∀ m fx1, m !! (c :: s) = None →
            Service.disconnect (Service.string_field (c :: s)) m fx1
            = ({| Service.status := 200;
                  Service.json := Service.message
                    (lit "Session not found or already disconnected") |},
               m, fx1)) as Hunknown.
  { intros m fx1 Hm. unfold Service.disconnect. by rewrite Hm. }
  destruct (activeConnections !! (c :: s)) as [connectionData|] eqn:Hlookup.
  - unfold Service.disconnect at 1. rewrite Hlookup.
    destruct (cleanup (Service.client connectionData) fx)
      as [[outcome this'] fx0] eqn:Hcleanup.
    assert (∀ c0, client (Service.client connectionData) = Some c0 →
                  call_close c0 ∈ trace fx0) as Hclosed.
    { intros c0 Hc0. unfold cleanup in Hcleanup. rewrite Hc0 in Hcleanup.
      unfold ask, emit in Hcleanup. simpl in Hcleanup.
      destruct (sdk_close c0 (world fx)) as [[e|] w1]; simplify_eq/=;
        set_solver. }
    destruct outcome as [err|[]].
    + eexists _, _, _. split; [done|].
      split_and!; try done.
      * apply lookup_delete_eq.
      * intros ? [= <-]. eexists _, _, _. split; [done|].
        split; [|done]. intros c0 Hc0. unfold emit. simpl.
        specialize (Hclosed c0 Hc0). set_solver.
      * apply Hunknown, lookup_delete_eq.
    + eexists _, _, _. split; [done|].
      split_and!; try done.
      * apply lookup_delete_eq.
      * intros ? [= <-]. eexists _, _, _. split; [done|]. by split.
      * apply Hunknown, lookup_delete_eq.
  - eexists _, _, _. split; [by apply Hunknown|].
    split_and!; try done.
    + by rewrite delete_id.
    + by apply Hunknown.
Qed.

End Registry.

(** C9, evaluated.  With the model configured, a [/chat] with a
    non-empty message array for which no session is found (an unknown
    session id, or one that is not a string) does not fail for that: it
    makes the single [streamText] call of [directChat], without tools, and
    does not touch the map or the session client; only a throwing model
    call turns the answer into a 500.  When the call returns, the handler
    answers 200 and hands the [Response] of that call to [res.json]: the
    body that goes out is the text of an object whose [response] is the
    empty object, whatever the model has produced. *)
Theorem chat_without_session_goes_direct `{Platform}
    (aiModel : option LanguageModel)
    (client_chat : MCPClient → list CoreMessage → Effects →
                   (JsValue + JsValue) * MCPClient * Effects)
    (model : LanguageModel) (sessionId : Service.BodyField)
    (messages : list CoreMessage)
    (activeConnections : gmap jsstring Service.ActiveConnection) (fx : Effects) :
  aiModel = Some model →
  messages ≠ [] →
  Service.get_connection sessionId activeConnections = None →
  ∃ reply fx' result w1,
    Service.chat aiModel client_chat sessionId (Some messages)
      activeConnections fx = (reply, activeConnections, fx') ∧
    streamText model messages None (world fx) = (result, w1) ∧
    directChat model messages fx =
      (match result with
       | inl e => inl e
       | inr run => inr {| textStream := run |}
       end,
       {| world := w1;
          trace := trace fx ++ [call_streamText model messages None] |}) ∧
    match result with
    | inr run =>
        reply = {| Service.status := 200;
                   Service.json :=
                     Service.response_stream {| textStream := run |} |} ∧
        Service.res_json (Service.json reply)
          = lit "{" ++ quoted "response" ++ lit ":{}}" ∧
        fx' = {| world := w1;
                 trace := trace fx ++ [call_streamText model messages None] |}
    | inl err =>
        reply = {| Service.status := 500;
                   Service.json := Service.message
                     (lit "Error processing direct chat: " ++ ToString err) |} ∧
        fx' = {| world := w1;
                 trace := trace fx ++
                   [call_streamText model messages None;
                    console_error (server_direct_chat_failed err)] |}
    end.
Proof.
  intros -> Hmessages Hnone.
  destruct messages as [|m ms]; [done|].
  unfold Service.chat. rewrite Hnone.
  unfold directChat, ask, emit. simpl.
  destruct (streamText model (m :: ms) None (world fx)) as [[err|run] w1].
  - eexists _, _, (inl err), w1. split_and!; try done.
    simpl. by rewrite <- app_assoc.
  - by eexists _, _, (inr run), w1.
Qed.

(** What goes out for the bodies the handlers build: a message, and the
    answer of a session's chat, which is sent as it is. *)
Example res_json_message :
  Service.res_json (Service.message (lit "Already connected"))
  = lit "{" ++ quoted "message" ++ lit ":" ++ quoted "Already connected"
    ++ lit "}".
Proof. reflexivity. Qed.

Example res_json_response_value :
  Service.res_json (Service.response_value (json (quoted "Hello")))
  = lit "{" ++ quoted "response" ++ lit ":" ++ quoted "Hello" ++ lit "}".
Proof. reflexivity. Qed.

(** A quote and a line feed are escaped, a pair of surrogates is kept
    and a lone one is written out in hexadecimal. *)
Example JSON_stringify_string_escapes :
  Service.JSON_stringify_string (lit "a" ++ [34; 10; 0xD83D; 0xDE00; 0xD800]%N)
  = [34%N] ++ lit "a" ++ [92; 34; 92; 110; 0xD83D; 0xDE00; 92; 117]%N
    ++ lit "d800" ++ [34%N].
Proof. reflexivity. Qed.

(* ===================================================================== *)
(** * The registry properties on concrete requests                        *)
(* ===================================================================== *)

Lemma ten_sessions_size : size ten_sessions = 10.
Proof. by vm_compute. Qed.

(** A server id that is not in the catalog is turned down with the list
    of the ones that are. *)
Example connect_to_unknown_server :
  Service.connect (H := polite) (Some gemini) catalog client_of
    (Service.string_field (lit "s1")) (Service.string_field (lit "gitlab"))
    ∅ (quiet (H := polite) 0%N) =
    ({| Service.status := 400;
        Service.json := Service.message
          (lit "Missing or invalid serverId. Available: github, supabase") |},
     ∅, quiet (H := polite) 0%N).
Proof. by vm_compute. Qed.

Lemma connect_to_another_server_changes_nothing_witness :
  ∃ reply,
    Service.connect (H := flaky_search) (Some gemini) catalog client_of
      (Service.string_field (lit "s3")) (Service.string_field (lit "supabase"))
      ten_sessions (quiet (H := flaky_search) 77%N)
      = (reply, ten_sessions, quiet (H := flaky_search) 77%N) ∧
    Service.json reply = Service.message (lit "Already connected") ∧
    ten_sessions !! lit "s3" = Some (on_github 3).
Proof.
  destruct (Service.own_property catalog (lit "supabase")) as [config|] eqn:Hown;
    [|discriminate Hown].
  assert (Service.server_config catalog (lit "supabase")
          = Some (Service.configured config)) as Hconfig
    by (unfold Service.server_config; by rewrite Hown).
  destruct (connect_to_another_server_changes_nothing (H := flaky_search)
              (Some gemini) catalog client_of (lit "s3") (lit "supabase") config
              (on_github 3) ten_sessions (quiet (H := flaky_search) 77%N))
    as (reply & reg' & fx' & Hconnect & _ & Hjson & -> & Hkept & ->);
    [discriminate | discriminate | exact Hconfig | by vm_compute | discriminate |].
  exists reply. split_and!; [exact Hconnect | exact Hjson | exact Hkept].
Defined.

Lemma connect_at_capacity_is_rejected_witness :
  ∃ reply fx',
    Service.connect (H := flaky_search) (Some gemini) catalog client_of
      (Service.string_field (lit "s10")) (Service.string_field (lit "github"))
      ten_sessions (quiet (H := flaky_search) 77%N)
      = (reply, ten_sessions, fx') ∧
    Service.status reply = 503%N ∧
    trace fx' = [console_warn (server_limit_reached (lit "s10"))].
Proof.
  destruct (Service.own_property catalog (lit "github")) as [config|] eqn:Hown;
    [|discriminate Hown].
  assert (Service.server_config catalog (lit "github")
          = Some (Service.configured config)) as Hconfig
    by (unfold Service.server_config; by rewrite Hown).
  destruct (connect_at_capacity_is_rejected (H := flaky_search)
              (Some gemini) catalog client_of (lit "s10") (lit "github") config
              ten_sessions (quiet (H := flaky_search) 77%N))
    as (_ & reply & reg' & fx' & Hconnect & Hstatus & _ & -> & _ & _ & _ & Htrace);
    [discriminate | discriminate | exact Hconfig | by vm_compute
    | rewrite ten_sessions_size; reflexivity |].
  exists reply, fx'. split_and!; [exact Hconnect | exact Hstatus | exact Htrace].
Defined.

Lemma second_connect_changes_nothing_witness :
  ∃ reply activeConnections' fx' connectionData,
    Service.connect (H := flaky_search) (Some gemini) catalog client_of
      (Service.string_field (lit "s1")) (Service.string_field (lit "github"))
      ∅ (quiet (H := flaky_search) 1000%N)
      = (reply, activeConnections', fx') ∧
    activeConnections' !! lit "s1" = Some connectionData ∧
    Service.lastActivityTimestamp connectionData = 1001%N ∧
    size activeConnections' = 1 ∧
    Service.connect (H := flaky_search) (Some gemini) catalog client_of
      (Service.string_field (lit "s1")) (Service.string_field (lit "github"))
      activeConnections' (quiet (H := flaky_search) 5000%N)
      = ({| Service.status := 200;
            Service.json := Service.message (lit "Already connected") |},
         activeConnections', quiet (H := flaky_search) 5000%N).
Proof.
  destruct (Service.own_property catalog (lit "github")) as [config|] eqn:Hown;
    [|discriminate Hown].
  assert (Service.server_config catalog (lit "github")
          = Some (Service.configured config)) as Hconfig
    by (unfold Service.server_config; by rewrite Hown).
  destruct (Service.connect (H := flaky_search) (Some gemini) catalog client_of
              (Service.string_field (lit "s1")) (Service.string_field (lit "github"))
              ∅ (quiet (H := flaky_search) 1000%N))
    as [[reply activeConnections'] fx'] eqn:Hconnect.
  assert (Service.status reply = 200%N ∧ world fx' = 1001%N) as [Hok Hworld].
  { vm_compute in Hconnect. by simplify_eq. }
  destruct (second_connect_changes_nothing (H := flaky_search)
              (Some gemini) catalog client_of (lit "s1") (lit "github") config
              ∅ (quiet (H := flaky_search) 1000%N) reply activeConnections' fx')
    as (connectionData & Hentry & _ & Htime & Hsize & Hsecond);
    [discriminate | discriminate | exact Hconfig | reflexivity
    | exact Hconnect | exact Hok |].
  exists reply, activeConnections', fx', connectionData.
  split_and!; [reflexivity | exact Hentry | | exact Hsize | apply Hsecond].
  rewrite Htime. exact Hworld.
Defined.

Lemma disconnect_removes_the_session_witness :
  ∃ reply activeConnections' fx',
    Service.disconnect (H := flaky_search)
      (Service.string_field (lit "s3")) ten_sessions
      (quiet (H := flaky_search) 77%N) = (reply, activeConnections', fx') ∧
    activeConnections' !! lit "s3" = None ∧
    call_close 0%N ∈ trace fx'.
Proof.
  destruct (disconnect_removes_the_session (H := flaky_search)
              (lit "s3") ten_sessions (quiet (H := flaky_search) 77%N))
    as (reply & reg' & fx' & Hdisconnect & Hgone & _ & _ & Hknown & _);
    [discriminate|].
  destruct (Hknown (on_github 3)) as (_ & _ & _ & _ & Hclosed & _);
    [by vm_compute|].
  exists reply, reg', fx'.
  split_and!; [exact Hdisconnect | exact Hgone | by apply Hclosed].
Defined.

Lemma chat_without_session_goes_direct_witness :
  ∃ reply fx',
    Service.chat (H := polite) (Some gemini) (unused_chat (H := polite))
      (Service.string_field (lit "nobody")) (Some hello)
      ten_sessions (quiet (H := polite) 77%N) = (reply, ten_sessions, fx') ∧
    streamText (Platform := polite) gemini hello None 77%N
      = (says "Hello", 77%N) ∧
    Service.status reply = 200%N ∧
    Service.res_json (Service.json reply)
      = lit "{" ++ quoted "response" ++ lit ":{}}" ∧
    trace fx' = [call_streamText gemini hello None].
Proof.
  destruct (chat_without_session_goes_direct (H := polite)
              (Some gemini) (unused_chat (H := polite)) gemini
              (Service.string_field (lit "nobody")) hello
              ten_sessions (quiet (H := polite) 77%N))
    as (reply & fx' & result & w1 & Hchat & Hmodel & _ & Hreply);
    [reflexivity | discriminate | by vm_compute |].
  vm_compute in Hmodel. injection Hmodel as <- <-.
  destruct Hreply as (Hreply & Hwire & ->).
  eexists reply, _.
  split_and!; [exact Hchat | reflexivity | by rewrite Hreply
              | exact Hwire | reflexivity].
Defined.

(* ===================================================================== *)
(** * [MCPClient.start] and [MCPClient.cleanup]                           *)
(* ===================================================================== *)

(** The PATH of the merged environment is that of the configuration when
    it is not empty, else that of the process when it is not empty, else
    the empty string; every other variable is that of the configuration
    when it has one, else that of the process. *)
Lemma merge_env_spec (configEnv parentEnv : gmap jsstring jsstring) :
  merge_env configEnv parentEnv !! lit "PATH" =
    Some (match configEnv !! lit "PATH" with
          | Some (c :: p) => c :: p
          | _ => default [] (parentEnv !! lit "PATH")
          end)
  ∧ ∀ name, name ≠ lit "PATH" →
      merge_env configEnv parentEnv !! name =
        match configEnv !! name with
        | Some value => Some value
        | None => parentEnv !! name
        end.
Proof.
  unfold merge_env. split.
  - rewrite lookup_insert_eq. f_equal. unfold path_of.
    destruct (configEnv !! lit "PATH") as [[|c p]|];
      by destruct (parentEnv !! lit "PATH") as [[|c' p']|].
  - intros name Hname. rewrite lookup_insert_ne by done.
    rewrite lookup_union. by destruct (configEnv !! name), (parentEnv !! name).
Qed.

Lemma tool_set_of_snoc all tool :
  tool_set_of (all ++ [tool]) =
    if bool_decide (tool_name tool = lit "__proto__") then tool_set_of all
    else <[tool_name tool := {| description := tool_description tool;
                                parameters := inputSchema tool |}]>
           (tool_set_of all).
Proof. unfold tool_set_of. by rewrite foldl_app. Qed.

(** The tool set has a tool under a name exactly when the name is not
    [__proto__] and the listing has a tool of that name, and then it is
    the last of that name in the listing. *)
Lemma tool_set_of_spec (all : list ToolInfo) (name : jsstring) (t : Tool) :
  tool_set_of all !! name = Some t ↔
  name ≠ lit "__proto__" ∧
  ∃ before tool after,
    all = before ++ tool :: after ∧
    tool_name tool = name ∧
    (name ∉ tool_name <$> after) ∧
    t = ({| description := tool_description tool;
            parameters := inputSchema tool |}).
Proof.
  revert t. induction all as [|last all IH] using rev_ind; intros t.
  - split; [done|]. intros (_ & before & tool & after & Hall & _).
    by destruct before.
  - rewrite tool_set_of_snoc.
    assert (∀ before tool after,
              all ++ [last] = before ++ tool :: after →
              (after = [] ∧ before = all ∧ tool = last) ∨
              ∃ after', after = after' ++ [last] ∧
                        all = before ++ tool :: after') as Hsplit.
    { intros before tool after Hall.
      destruct after as [|a after _] using rev_ind.
      - apply app_inj_tail in Hall as [-> ->]. by left.
      - rewrite app_comm_cons, app_assoc in Hall.
        apply app_inj_tail in Hall as [-> ->]. right. by exists after. }
    destruct (decide (tool_name last = name)) as [Hname|Hname].
    + case_bool_decide as Hproto.
      * split.
        -- intros Hlookup. apply IH in Hlookup as [Hnot _]. congruence.
        -- intros [Hnot _]. congruence.
      * rewrite Hname, lookup_insert_eq. split.
        -- intros [= <-]. split; [congruence|].
           exists all, last, []. split_and!; try done.
           simpl. apply not_elem_of_nil.
        -- intros (_ & before & tool & after & Hall & Htool & Hafter & ->).
           destruct (Hsplit _ _ _ Hall)
             as [(-> & -> & ->) | (after' & -> & ->)]; [done|].
           rewrite fmap_app in Hafter. set_solver.
    + assert ((if bool_decide (tool_name last = lit "__proto__")
               then tool_set_of all
               else <[tool_name last :=
                        {| description := tool_description last;
                           parameters := inputSchema last |}]>
                      (tool_set_of all)) !! name
              = tool_set_of all !! name) as ->.
      { case_bool_decide; [done|]. by rewrite lookup_insert_ne. }
      rewrite IH. split.
      * intros (Hnot & before & tool & after & -> & Htool & Hafter & ->).
        split; [done|]. exists before, tool, (after ++ [last]).
        split_and!; try done; [by rewrite <- app_assoc|].
        rewrite fmap_app. set_solver.
      * intros (Hnot & before & tool & after & Hall & Htool & Hafter & ->).
        split; [done|].
        destruct (Hsplit _ _ _ Hall)
          as [(-> & -> & ->) | (after' & -> & ->)]; [done|].
        exists before, tool, after'. split_and!; try done.
        rewrite fmap_app in Hafter. set_solver.
Qed.

Section ClientFacts.
Context `{Platform}.

Lemma start_fresh (this : MCPClient) (cfg : MCPServerConfig)
    (fx : Effects) (outcome : JsValue + unit) (this' : MCPClient)
    (fx' : Effects) :
  client this = None →
  mcpServerConfig this = Some cfg →
  start this fx = (outcome, this', fx') →
  ∃ c t,
    transport_command t = command cfg ∧
    is_Some (transport_env t !! lit "PATH") ∧
    match outcome with
    | inl e =>
        ToBoolean e = true ∧
        this' = {| client := None; transport := None;
                   mcpServerConfig := Some cfg; tools := tools this |} ∧
        trace fx' = trace fx ++
          [call_new_Client c; call_connect c t;
           console_error client_connect_failed]
    | inr _ =>
        client this' = Some c ∧ transport this' = Some t ∧
        mcpServerConfig this' = Some cfg ∧ is_Some (tools this') ∧
        ∃ more, trace fx' = trace fx ++
                  [call_new_Client c; call_connect c t; call_listTools c] ++ more
    end.
Proof.
  unfold start. intros -> -> Hstart. unfold ask, emit in Hstart.
  destruct (new_Client (world fx)) as [c w1]. simpl in Hstart.
  destruct (sdk_connect c _ w1) as [connectError w2] eqn:Hconnect.
  simpl in Hstart.
  exists c, {| transport_command := command cfg;
               transport_args := config_args cfg;
               transport_cwd := cwd cfg;
               transport_env :=
                 merge_env (default ∅ (env cfg)) (process_env w1) |}.
  split; [reflexivity|]. split.
  { simpl. unfold merge_env. rewrite lookup_insert_eq. eauto. }
  destruct (ToBoolean connectError) eqn:Herror.
  - simplify_eq. split_and!; try done. simpl. by rewrite <- !app_assoc.
  - destruct (sdk_listTools c w2) as [r w3]. simpl in Hstart.
    destruct (ToBoolean (error r)), (data r); simplify_eq/=;
      split_and!; eauto; eexists; rewrite <- !app_assoc; simpl; done.
Qed.

(** The environment of the transport through which [start] connects, as
    the call to connect records it: its PATH is that of the configuration
    when it is not empty, else that of the process when it is not empty,
    else the empty string; every other variable is that of the
    configuration when it has one, else that of the process, read after
    the SDK client was created. *)
Theorem start_transport_env (this : MCPClient) (cfg : MCPServerConfig)
    (fx : Effects) (outcome : JsValue + unit) (this' : MCPClient)
    (fx' : Effects) :
  client this = None →
  mcpServerConfig this = Some cfg →
  start this fx = (outcome, this', fx') →
  ∃ c w1 t more,
    new_Client (world fx) = (c, w1) ∧
    trace fx' = trace fx ++ [call_new_Client c; call_connect c t] ++ more ∧
    (outcome = inr () → transport this' = Some t) ∧
    transport_env t !! lit "PATH" =
      Some (match default ∅ (env cfg) !! lit "PATH" with
            | Some (c :: p) => c :: p
            | _ => default [] (process_env w1 !! lit "PATH")
            end) ∧
    ∀ name, name ≠ lit "PATH" →
      transport_env t !! name =
        match default ∅ (env cfg) !! name with
        | Some value => Some value
        | None => process_env w1 !! name
        end.
Proof.
  unfold start. intros -> -> Hstart. unfold ask, emit in Hstart.
  destruct (new_Client (world fx)) as [c w1]. simpl in Hstart.
  destruct (sdk_connect c _ w1) as [connectError w2] eqn:Hconnect.
  simpl in Hstart.
  destruct (merge_env_spec (default ∅ (env cfg)) (process_env w1))
    as [Hpath Hother].
  assert (∃ more, trace fx' = trace fx ++
            [call_new_Client c;
             call_connect c
               {| transport_command := command cfg;
                  transport_args := config_args cfg;
                  transport_cwd := cwd cfg;
                  transport_env :=
                    merge_env (default ∅ (env cfg)) (process_env w1) |}]
            ++ more ∧
          (outcome = inr () →
           transport this' =
             Some {| transport_command := command cfg;
                     transport_args := config_args cfg;
                     transport_cwd := cwd cfg;
                     transport_env :=
                       merge_env (default ∅ (env cfg)) (process_env w1) |}))
    as (more & Htrace & Htransport).
  { destruct (ToBoolean connectError).
    - simplify_eq. eexists. split; [|done]. simpl. by rewrite <- !app_assoc.
    - destruct (sdk_listTools c w2) as [r w3]. simpl in Hstart.
      destruct (ToBoolean (error r)), (data r); simplify_eq/=;
        (eexists; split; [rewrite <- !app_assoc; simpl; done | done]). }
  eexists c, w1, _, more. split_and!; [done | exact Htrace | exact Htransport
                                      | exact Hpath | exact Hother].
Qed.

(** The tool set [start] leaves on the client is built from what the
    server answered to [listTools]: when the listing came back, the set
    has a tool under a name exactly when the name is not [__proto__] and
    the listing has a tool of that name, and then with the description and
    the schema of the last tool of that name; when the listing failed, the
    set is empty. *)
Theorem start_tool_set (this : MCPClient) (cfg : MCPServerConfig)
    (fx : Effects) (this' : MCPClient) (fx' : Effects) :
  client this = None →
  mcpServerConfig this = Some cfg →
  start this fx = (inr (), this', fx') →
  ∃ c w r toolSet,
    client this' = Some c ∧
    sdk_listTools c w = (r, world fx') ∧
    tools this' = Some toolSet ∧
    match ToBoolean (error r), data r with
    | false, Some allTools =>
        ∀ name t,
          toolSet !! name = Some t ↔
          name ≠ lit "__proto__" ∧
          ∃ before tool after,
            allTools = before ++ tool :: after ∧
            tool_name tool = name ∧
            (name ∉ tool_name <$> after) ∧
            t = ({| description := tool_description tool;
                    parameters := inputSchema tool |})
    | _, _ => toolSet = ∅
    end.
Proof.
  unfold start. intros -> -> Hstart. unfold ask, emit in Hstart.
  destruct (new_Client (world fx)) as [c w1]. simpl in Hstart.
  destruct (sdk_connect c _ w1) as [connectError w2]. simpl in Hstart.
  destruct (ToBoolean connectError); [by simplify_eq|].
  destruct (sdk_listTools c w2) as [r w3] eqn:Hlist. simpl in Hstart.
  destruct (ToBoolean (error r)) eqn:Herror, (data r) as [allTools|] eqn:Hdata;
    injection Hstart as <- <-; eexists c, w2, r, _;
    (split_and!; [done | by rewrite Hlist | done |]);
    rewrite Herror, ?Hdata; try done.
  intros name t. apply tool_set_of_spec.
Qed.

(** [start] on a client that is not connected and has a configuration
    either throws what the connection attempt failed with, leaving the
    client without connection, its tools as they were, and the tools of
    the server unasked for; or it returns with the client connected
    through a transport whose environment has a PATH, and with a tool set,
    after having asked the server for its tools. *)
Theorem start_postcondition (this : MCPClient) (cfg : MCPServerConfig)
    (fx : Effects) (outcome : JsValue + unit) (this' : MCPClient)
    (fx' : Effects) :
  client this = None →
  mcpServerConfig this = Some cfg →
  start this fx = (outcome, this', fx') →
  ∃ c t,
    transport_command t = command cfg ∧
    is_Some (transport_env t !! lit "PATH") ∧
    match outcome with
    | inl e =>
        ToBoolean e = true ∧
        this' = {| client := None; transport := None;
                   mcpServerConfig := Some cfg; tools := tools this |} ∧
        trace fx' = trace fx ++
          [call_new_Client c; call_connect c t;
           console_error client_connect_failed]
    | inr _ =>
        client this' = Some c ∧ transport this' = Some t ∧
        mcpServerConfig this' = Some cfg ∧ is_Some (tools this') ∧
        ∃ more, trace fx' = trace fx ++
                  [call_new_Client c; call_connect c t; call_listTools c] ++ more
    end.
Proof. apply start_fresh. Qed.

(** A second [start] after one that returned does nothing: it makes no
    call and leaves the client as it is. *)
Theorem start_twice (this : MCPClient) (fx : Effects)
    (this' : MCPClient) (fx' : Effects) :
  start this fx = (inr (), this', fx') →
  ∀ fx2, start this' fx2 = (inr (), this', fx2).
Proof.
  intros Hstart fx2.
  destruct (client this) as [c0|] eqn:Hclient.
  { unfold start in Hstart. rewrite Hclient in Hstart. simplify_eq.
    unfold start. by rewrite Hclient. }
  destruct (mcpServerConfig this) as [cfg|] eqn:Hcfg.
  - destruct (start_fresh this cfg fx _ _ _ Hclient Hcfg Hstart)
      as (c & t & _ & _ & Hc & _).
    unfold start. by rewrite Hc.
  - unfold start in Hstart. rewrite Hclient, Hcfg in Hstart. simplify_eq.
    unfold start. by rewrite Hclient, Hcfg.
Qed.

(** A server that connects but fails to list its tools does not fail
    [start]: whenever [start] logs that failure, it returns with the
    client connected and an empty tool set. *)
Theorem start_survives_failed_listing (this : MCPClient)
    (fx : Effects) (outcome : JsValue + unit)
    (this' : MCPClient) (fx' : Effects) :
  start this fx = (outcome, this', fx') →
  console_error client_listTools_failed ∉ trace fx →
  console_error client_listTools_failed ∈ trace fx' →
  outcome = inr () ∧ is_Some (client this') ∧ tools this' = Some ∅.
Proof.
  unfold start. intros Hstart Hbefore Hlogged.
  destruct (client this); [by simplify_eq|].
  destruct (mcpServerConfig this) as [cfg|]; [|by simplify_eq].
  unfold ask, emit in Hstart.
  destruct (new_Client (world fx)) as [c w1]. simpl in Hstart.
  destruct (sdk_connect c _ w1) as [connectError w2]. simpl in Hstart.
  destruct (ToBoolean connectError).
  { simplify_eq/=. set_solver. }
  destruct (sdk_listTools c w2) as [r w3]. simpl in Hstart.
  destruct (ToBoolean (error r)), (data r); simplify_eq/=; eauto.
  set_solver.
Qed.


(** [cleanup] closes the connection at most once: after a [cleanup] that
    returned the client has no connection, and a further [cleanup] makes
    no call. *)
Theorem cleanup_twice (this : MCPClient) (fx : Effects)
    (this' : MCPClient) (fx' : Effects) :
  cleanup this fx = (inr (), this', fx') →
  client this' = None ∧
  close_calls (trace fx') =
    close_calls (trace fx) ++ option_list (client this) ∧
  ∀ fx2, cleanup this' fx2 = (inr (), this', fx2).
Proof.
  unfold cleanup at 1. intros Hcleanup.
  destruct (client this) as [c|] eqn:Hclient.
  - unfold ask, emit in Hcleanup. simpl in Hcleanup.
    destruct (sdk_close c (world fx)) as [[e|] w1]; simplify_eq/=.
    split_and!; try done. unfold close_calls. by rewrite omap_app.
  - simplify_eq. split_and!; try done.
    + simpl. by rewrite app_nil_r.
    + intros fx2. unfold cleanup. by rewrite Hclient.
Qed.

(** When closing throws, [cleanup] throws the same and the client keeps
    its connection, so that a later [cleanup] tries to close it again. *)
Theorem cleanup_failure_keeps_the_client (this : MCPClient) (fx : Effects)
    (e : JsValue) (this' : MCPClient) (fx' : Effects) :
  cleanup this fx = (inl e, this', fx') →
  this' = this ∧
  ∃ c, client this' = Some c ∧
       sdk_close c (world fx) = (Some e, world fx') ∧
       trace fx' = trace fx ++ [call_close c] ∧
       ∀ outcome this2 fx2,
         cleanup this' fx' = (outcome, this2, fx2) →
         trace fx2 = trace fx' ++ [call_close c].
Proof.
  unfold cleanup. intros Hcleanup.
  destruct (client this) as [c|] eqn:Hclient; [|by simplify_eq].
  unfold ask, emit in Hcleanup. simpl in Hcleanup.
  destruct (sdk_close c (world fx)) as [[e'|] w1] eqn:Hclose; simplify_eq/=.
  split; [done|]. exists c. split_and!; try done.
  intros outcome this2 fx2 Hagain. rewrite Hclient in Hagain.
  unfold ask, emit in Hagain. simpl in Hagain.
  destruct (sdk_close c w1) as [[e2|] w2]; by simplify_eq/=.
Qed.

End ClientFacts.

Lemma start_postcondition_witness :
  ∃ this' fx',
    start (H := connection_fails) (new_MCPClient github_config)
      (quiet (H := connection_fails) 0%N)
      = (inl (new_Error (lit "spawn ENOENT")), this', fx') ∧
    client this' = None ∧
    call_listTools 0%N ∉ trace fx'.
Proof.
  destruct (start (H := connection_fails) (new_MCPClient github_config)
              (quiet (H := connection_fails) 0%N))
    as [[outcome this'] fx'] eqn:Hstart.
  destruct (start_postcondition (H := connection_fails)
              (new_MCPClient github_config) github_config
              (quiet (H := connection_fails) 0%N) outcome this' fx'
              eq_refl eq_refl Hstart) as (c & t & _ & _ & Hpost).
  assert (outcome = inl (new_Error (lit "spawn ENOENT"))) as ->
    by (vm_compute in Hstart; by simplify_eq).
  destruct Hpost as (_ & Hthis & Htrace).
  exists this', fx'.
  split_and!; [reflexivity | by rewrite Hthis |].
  rewrite Htrace. simpl. set_solver.
Defined.

Lemma start_transport_env_witness :
  let P := listing_fails in
  ∃ outcome this' fx' t,
    start (H := P) (new_MCPClient github_config) (quiet (H := P) 0%N)
      = (outcome, this', fx') ∧
    call_connect 0%N t ∈ trace fx' ∧
    transport_env t !! lit "PATH" = Some (lit "/usr/bin") ∧
    transport_env t !! lit "TOKEN" = Some (lit "t0").
Proof.
  intros P.
  destruct (start (H := P) (new_MCPClient github_config) (quiet (H := P) 0%N))
    as [[outcome this'] fx'] eqn:Hstart.
  destruct (start_transport_env (H := P) (new_MCPClient github_config)
              github_config (quiet (H := P) 0%N) outcome this' fx'
              eq_refl eq_refl Hstart)
    as (c & w1 & t & more & Hnew & Htrace & _ & Hpath & Hother).
  injection Hnew as <- <-.
  exists outcome, this', fx', t. split_and!; [reflexivity | | |].
  - rewrite Htrace. set_solver.
  - rewrite Hpath. reflexivity.
  - rewrite Hother by discriminate. reflexivity.
Defined.

Lemma start_tool_set_witness :
  let P := listing [tool_named "search" "old"; tool_named "__proto__" "Proto";
                    tool_named "search" "new"] in
  ∃ this' fx' toolSet,
    start (H := P) (new_MCPClient github_config) (quiet (H := P) 0%N)
      = (inr (), this', fx') ∧
    tools this' = Some toolSet ∧
    toolSet !! lit "search" =
      Some {| description := json (quoted "new");
              parameters := json (lit "{}") |} ∧
    toolSet !! lit "__proto__" = None.
Proof.
  intros P.
  eassert (start (H := P) (new_MCPClient github_config) (quiet (H := P) 0%N)
           = (inr (), _, _)) as Hstart by reflexivity.
  destruct (start_tool_set (H := P) (new_MCPClient github_config)
              github_config (quiet (H := P) 0%N) _ _ eq_refl eq_refl Hstart)
    as (c & w & r & toolSet & _ & _ & Htools & _).
  eexists _, _, toolSet. split_and!; [exact Hstart | exact Htools | |].
  - injection Htools as <-. by vm_compute.
  - injection Htools as <-. by vm_compute.
Defined.

Lemma start_twice_witness :
  ∃ this' fx',
    start (H := polite) (new_MCPClient github_config) (quiet (H := polite) 0%N)
      = (inr (), this', fx') ∧
    client this' = Some 0%N ∧
    start (H := polite) this' fx' = (inr (), this', fx').
Proof.
  destruct (start (H := polite) (new_MCPClient github_config)
              (quiet (H := polite) 0%N)) as [[outcome this'] fx'] eqn:Hstart.
  assert (outcome = inr () ∧ client this' = Some 0%N) as [-> Hclient]
    by (vm_compute in Hstart; by simplify_eq).
  exists this', fx'. split_and!; [reflexivity | exact Hclient |].
  exact (start_twice (H := polite) _ _ _ _ Hstart fx').
Defined.

Lemma start_survives_failed_listing_witness :
  ∃ this' fx',
    start (H := listing_fails) (new_MCPClient github_config)
      (quiet (H := listing_fails) 0%N) = (inr (), this', fx') ∧
    client this' = Some 0%N ∧ tools this' = Some ∅.
Proof.
  destruct (start (H := listing_fails) (new_MCPClient github_config)
              (quiet (H := listing_fails) 0%N))
    as [[outcome this'] fx'] eqn:Hstart.
  destruct (start_survives_failed_listing (H := listing_fails)
              (new_MCPClient github_config)
              (quiet (H := listing_fails) 0%N) outcome this' fx'
              Hstart) as (-> & _ & Htools).
  - simpl. set_solver.
  - vm_compute in Hstart. simplify_eq. simpl. set_solver.
  - exists this', fx'. split_and!; [reflexivity | | exact Htools].
    vm_compute in Hstart. by simplify_eq.
Defined.

Lemma cleanup_twice_witness :
  ∃ this' fx',
    cleanup (H := polite) connected_client (quiet (H := polite) 0%N)
      = (inr (), this', fx') ∧
    close_calls (trace fx') = [0%N] ∧
    cleanup (H := polite) this' fx' = (inr (), this', fx').
Proof.
  destruct (cleanup (H := polite) connected_client (quiet (H := polite) 0%N))
    as [[outcome this'] fx'] eqn:Hcleanup.
  assert (outcome = inr ()) as -> by (vm_compute in Hcleanup; by simplify_eq).
  destruct (cleanup_twice (H := polite) _ _ _ _ Hcleanup)
    as (_ & Htrace & Hagain).
  exists this', fx'. split_and!; [reflexivity | exact Htrace | apply Hagain].
Defined.

Lemma cleanup_failure_keeps_the_client_witness :
  ∃ fx',
    cleanup (H := listing_fails) connected_client
      (quiet (H := listing_fails) 0%N)
      = (inl (new_Error (lit "broken pipe")), connected_client, fx') ∧
    client connected_client = Some 0%N.
Proof.
  destruct (cleanup (H := listing_fails) connected_client
              (quiet (H := listing_fails) 0%N))
    as [[outcome this'] fx'] eqn:Hcleanup.
  assert (outcome = inl (new_Error (lit "broken pipe"))) as ->
    by (vm_compute in Hcleanup; by simplify_eq).
  destruct (cleanup_failure_keeps_the_client (H := listing_fails) _ _ _ _ _
              Hcleanup) as (-> & c & Hclient & _).
  exists fx'. split; reflexivity.
Defined.

(* ===================================================================== *)
(** * The chat loop: what it calls and what it forwards                   *)
(* ===================================================================== *)

Lemma model_calls_app events more :
  model_calls (events ++ more) = model_calls events ++ model_calls more.
Proof. apply omap_app. Qed.

Lemma tool_calls_app events more :
  tool_calls (events ++ more) = tool_calls events ++ tool_calls more.
Proof. apply omap_app. Qed.

Lemma requested_app turns more :
  requested (turns ++ more) = requested turns ++ requested more.
Proof. apply bind_app. Qed.

Lemma gateway_calls_app mcpClient calls more :
  gateway_calls mcpClient (calls ++ more) =
    gateway_calls mcpClient calls ++ gateway_calls mcpClient more.
Proof. apply fmap_app. Qed.

Lemma tool_calls_gateway_calls mcpClient calls :
  tool_calls (gateway_calls mcpClient calls) = gateway_calls mcpClient calls.
Proof. induction calls as [|c calls IH]; [done|]. csimpl. by f_equal. Qed.

Lemma model_calls_gateway_calls mcpClient calls :
  model_calls (gateway_calls mcpClient calls) = [].
Proof. by induction calls. Qed.

(** Split a pass over the open stream [Hopen] by the answer of the model,
    with the equation [Hbody] of the pass in each case. *)
Ltac round_split model mcpClient tools s Hopen :=
  let e := fresh "e" in
  let run := fresh "run" in
  let w1 := fresh "w1" in
  destruct (streamText model (currentMessages s) (Some tools)
              (world (effects s))) as [[e|run] w1] eqn:Hmodel;
  [ pose proof (loop_body_invocation_throws model mcpClient tools s Hopen
                  e w1 Hmodel) as Hbody
  | destruct (failure run) as [e|] eqn:Hfail;
    [ pose proof (loop_body_stream_throws model mcpClient tools s Hopen
                    run e w1 Hmodel Hfail) as Hbody
    | destruct (decide (calls_of (parts run) = [])) as [Hcalls|Hcalls];
      [ pose proof (loop_body_breaks model mcpClient tools s Hopen
                      run w1 Hmodel Hfail Hcalls) as Hbody
      | pose proof (loop_body_continues model mcpClient tools s Hopen
                      run w1 Hmodel Hfail Hcalls) as Hbody ] ] ].

Section LoopTrace.
Context `{Platform}.
Variables (model : LanguageModel) (mcpClient : Client) (tools : ToolSet).

Lemma open_is_readable c :
  CanCloseOrEnqueue c = true → state c = readable ∧ closeRequested c = false.
Proof.
  unfold CanCloseOrEnqueue. destruct (closeRequested c), (state c); by simpl.
Qed.

(** What one pass over an open stream adds: one model call, on the
    transcript as it stands and with the tools; the turns it appends; a
    gateway call for each request of these turns; the chunks of the turn
    on the stream, which is left open unless the pass returned. *)
Lemma loop_body_adds s flow s' :
  CanCloseOrEnqueue (controller s) = true →
  loop_body model mcpClient tools s = (flow, s') →
  ∃ added new,
    loopCounter s' = S (loopCounter s) ∧
    currentMessages s' = currentMessages s ++ added ∧
    trace (effects s') = trace (effects s) ++ new ∧
    model_calls new = [(currentMessages s, Some tools)] ∧
    tool_calls new = gateway_calls mcpClient (requested added) ∧
    queue (controller s') = queue (controller s) ++ round_chunks model tools s ∧
    (∀ e, state (controller s') ≠ errored e) ∧
    match flow with
    | inr return_from_start =>
        closeRequested (controller s') = true ∧ added = []
    | inr _ => CanCloseOrEnqueue (controller s') = true
    | inl _ => False
    end.
Proof.
  intros Hopen Hflow. destruct (open_is_readable _ Hopen) as [Hstate _].
  unfold round_chunks.
  round_split model mcpClient tools s Hopen;
    rewrite Hbody in Hflow; simplify_eq; simpl.
  - eexists [], _. split_and!; try done.
    + by rewrite app_nil_r.
    + by destruct (queue (controller s) ++ [stream_error e]).
  - eexists [], _. split_and!; try done.
    + by rewrite app_nil_r.
    + by destruct (queue (controller s) ++ _ ++ [stream_error e]).
  - eexists _, _. rewrite Hstate. split_and!; try done.
    + by destruct (truthy_string _).
    + unfold requested. simpl. rewrite calls_of_requests.
      by destruct (truthy_string _).
    + by rewrite app_nil_r.
  - eexists _, _. rewrite Hstate. split_and!; try done.
    + simpl. by rewrite model_calls_gateway_calls.
    + simpl. rewrite tool_calls_gateway_calls.
      unfold requested. simpl. by rewrite calls_of_requests, !app_nil_r.
    + by rewrite app_nil_r.
Qed.

(** The same for a run of the loop that was left. *)
Lemma while_true_adds fuel : ∀ s stopped s_end,
  CanCloseOrEnqueue (controller s) = true →
  while_true fuel model mcpClient tools s = Some (stopped, s_end) →
  ∃ added new,
    currentMessages s_end = currentMessages s ++ added ∧
    trace (effects s_end) = trace (effects s) ++ new ∧
    loopCounter s_end = loopCounter s + length (model_calls new) ∧
    Forall (λ call, call.2 = Some tools ∧ currentMessages s `prefix_of` call.1)
      (model_calls new) ∧
    tool_calls new = gateway_calls mcpClient (requested added) ∧
    queue (controller s_end) =
      queue (controller s) ++ forwarded fuel model mcpClient tools s ∧
    (∀ e, state (controller s_end) ≠ errored e) ∧
    match stopped with
    | inr return_from_start => closeRequested (controller s_end) = true
    | inr _ => CanCloseOrEnqueue (controller s_end) = true
    | inl _ => False
    end ∧
    model_calls new ≠ [].
Proof.
  induction fuel as [|fuel IH]; intros s stopped s_end Hopen Hloop; [done|].
  rewrite while_true_unfold in Hloop. simpl.
  destruct (loop_body model mcpClient tools s) as [flow s'] eqn:Hbody.
  destruct (loop_body_adds s flow s' Hopen Hbody)
    as (added & new & Hcount & Hmessages & Htrace & Hmodel & Htools & Hqueue
        & Hstate & Hflow).
  assert (Forall (λ call, call.2 = Some tools ∧
                          currentMessages s `prefix_of` call.1)
            (model_calls new)) as Hcalls.
  { rewrite Hmodel. by repeat constructor. }
  destruct flow as [e|[]]; [done| |simplify_eq..].
  - destruct (IH s' stopped s_end Hflow Hloop)
      as (added' & new' & Hmessages' & Htrace' & Hcount' & Hmodel' & Htools'
          & Hqueue' & Hstate' & Hstopped & _).
    exists (added ++ added'), (new ++ new'). split_and!; try done.
    + by rewrite Hmessages', Hmessages, app_assoc.
    + by rewrite Htrace', Htrace, app_assoc.
    + rewrite Hcount', Hcount, model_calls_app, Hmodel, length_app. simpl. lia.
    + rewrite model_calls_app. apply Forall_app. split; [done|].
      eapply Forall_impl; [exact Hmodel'|]. intros call [? Hprefix].
      split; [done|]. etrans; [|exact Hprefix].
      rewrite Hmessages. by apply prefix_app_r.
    + by rewrite tool_calls_app, requested_app, gateway_calls_app, Htools, Htools'.
    + by rewrite Hqueue', Hqueue, <- app_assoc.
    + by rewrite model_calls_app, Hmodel.
  - exists added, new. split_and!; try done.
    + rewrite Hcount, Hmodel. simpl. lia.
    + by rewrite Hqueue, app_nil_r.
    + by rewrite Hmodel.
  - destruct Hflow as [Hclosed ->].
    exists [], new. split_and!; try done.
    + rewrite Hcount, Hmodel. simpl. lia.
    + by rewrite Hqueue, app_nil_r.
    + by rewrite Hmodel.
Qed.

End LoopTrace.

Section ChatFacts.
Context `{Platform}.
Variables (this : MCPClient) (model : LanguageModel).
Variables (messages : list CoreMessage) (fx : Effects).
Variable mcpClient : Client.
Hypothesis connected : client this = Some mcpClient.

Lemma fresh_stream_open :
  CanCloseOrEnqueue
    (controller {| currentMessages := messages; loopCounter := 0;
                   controller := new_controller; effects := fx |}) = true.
Proof. reflexivity. Qed.

(** [chat] on a connected client, in terms of its loop. *)
Lemma chat_connected fuel out :
  chat this model messages fuel fx = Some out →
  ∃ stopped s_end stream,
    while_true fuel model mcpClient (default ∅ (tools this))
      {| currentMessages := messages; loopCounter := 0;
         controller := new_controller; effects := fx |}
      = Some (stopped, s_end) ∧
    returned out = inr stream ∧
    queue stream = queue (controller s_end) ∧
    closeRequested stream = true ∧
    (∀ e, state stream ≠ errored e) ∧
    transcript out = currentMessages s_end ∧
    rounds out = loopCounter s_end ∧
    effects_after out = effects s_end.
Proof using connected.
  unfold chat, stream_start. rewrite connected.
  set (s0 := {| currentMessages := messages; loopCounter := 0;
                controller := new_controller; effects := fx |}).
  destruct (while_true fuel model mcpClient _ s0) as [[stopped s_end]|]
    eqn:Hloop; [|done].
  destruct (while_true_adds model mcpClient _ fuel s0 stopped s_end
              eq_refl Hloop)
    as (_ & _ & _ & _ & _ & _ & _ & _ & Hstate & Hstopped & _).
  intros Hout. exists stopped, s_end.
  destruct stopped as [e|[]]; [done|..].
  1,2: unfold controller_close, on_controller in Hout;
    rewrite close_open in Hout by done; simplify_eq/=;
    eexists; split_and!; try done;
    intros e; unfold closing; simpl; by destruct (queue (controller s_end)).
  simplify_eq/=. eexists. by split_and!.
Qed.

(** [chat] on a connected client never rejects and never errors its
    stream: when the loop is over, the caller has a stream on which close
    was requested, also when the model failed. *)
Theorem chat_resolves_with_a_closed_stream fuel out :
  chat this model messages fuel fx = Some out →
  ∃ stream,
    returned out = inr stream ∧
    closeRequested stream = true ∧
    CanCloseOrEnqueue stream = false ∧
    ∀ e, state stream ≠ errored e.
Proof using connected.
  intros Hout.
  destruct (chat_connected fuel out Hout)
    as (_ & _ & stream & _ & Hreturned & _ & Hclosed & Hstate & _).
  exists stream. split_and!; try done.
  unfold CanCloseOrEnqueue. by rewrite Hclosed.
Qed.

(** The stream of [chat] carries, in the order of the rounds and within
    a round in the order the model produced them, the text fragments and
    the tool-call announcements of every turn, then the error marker when
    the model failed, and nothing else. *)
Theorem chat_stream_carries_the_turns fuel out :
  chat this model messages fuel fx = Some out →
  ∃ stream,
    returned out = inr stream ∧
    queue stream =
      forwarded fuel model mcpClient (default ∅ (tools this))
        {| currentMessages := messages; loopCounter := 0;
           controller := new_controller; effects := fx |}.
Proof using connected.
  intros Hout.
  destruct (chat_connected fuel out Hout)
    as (stopped & s_end & stream & Hloop & Hreturned & Hqueue & _).
  destruct (while_true_adds model mcpClient _ fuel _ stopped s_end
              fresh_stream_open Hloop)
    as (_ & _ & _ & _ & _ & _ & _ & Hforwarded & _).
  exists stream. split; [done|]. by rewrite Hqueue, Hforwarded.
Qed.

(** [chat] invokes the model once per round, never more: each time with
    the tool set of the client and with a transcript that begins with the
    messages it was given. *)
Theorem one_model_call_per_round fuel out :
  chat this model messages fuel fx = Some out →
  ∃ new,
    trace (effects_after out) = trace fx ++ new ∧
    length (model_calls new) = rounds out ∧
    1 ≤ rounds out ∧
    Forall (λ call, call.2 = Some (default ∅ (tools this)) ∧
                    messages `prefix_of` call.1) (model_calls new).
Proof using connected.
  intros Hout.
  destruct (chat_connected fuel out Hout)
    as (stopped & s_end & _ & Hloop & _ & _ & _ & _ & _ & -> & ->).
  destruct (while_true_adds model mcpClient _ fuel _ stopped s_end
              fresh_stream_open Hloop)
    as (_ & new & _ & Htrace & Hcount & Hcalls & _ & _ & _ & _ & Hsome).
  exists new. simpl in *. split_and!; try done.
  rewrite Hcount. destruct (model_calls new); [done|]. simpl. lia.
Qed.

(** Every tool-call request of the assistant turns [chat] appends was
    sent to the gateway, once and in the order of the requests, and the
    gateway was called for nothing else. *)
Theorem every_request_is_executed_once fuel out :
  chat this model messages fuel fx = Some out →
  ∃ added new,
    transcript out = messages ++ added ∧
    trace (effects_after out) = trace fx ++ new ∧
    tool_calls new = gateway_calls mcpClient (requested added).
Proof using connected.
  intros Hout.
  destruct (chat_connected fuel out Hout)
    as (stopped & s_end & _ & Hloop & _ & _ & _ & _ & -> & _ & ->).
  destruct (while_true_adds model mcpClient _ fuel _ stopped s_end
              fresh_stream_open Hloop)
    as (added & new & Hmessages & Htrace & _ & _ & Htools & _).
  by exists added, new.
Qed.

End ChatFacts.

Lemma chat_resolves_with_a_closed_stream_witness :
  ∃ out stream,
    chat (H := overloaded) connected_client gemini hello 1
      (quiet (H := overloaded) 0%N) = Some out ∧
    returned out = inr stream ∧ closeRequested stream = true.
Proof.
  destruct (chat (H := overloaded) connected_client gemini hello 1
              (quiet (H := overloaded) 0%N)) as [out|] eqn:Hchat;
    [|by vm_compute in Hchat].
  destruct (chat_resolves_with_a_closed_stream (H := overloaded)
              connected_client gemini hello (quiet (H := overloaded) 0%N)
              0%N eq_refl 1 out Hchat) as (stream & Hreturned & Hclosed & _).
  by exists out, stream.
Defined.

Lemma chat_stream_carries_the_turns_witness :
  ∃ out,
    chat (H := flaky_search) connected_client gemini hello 2
      (quiet (H := flaky_search) 0%N) = Some out ∧
    returned out =
      inr {| queue := [calling_tool search_call; calling_tool fetch_call;
                       lit "Done"];
             closeRequested := true; state := readable |}.
Proof.
  destruct (chat (H := flaky_search) connected_client gemini hello 2
              (quiet (H := flaky_search) 0%N)) as [out|] eqn:Hchat;
    [|by vm_compute in Hchat].
  destruct (chat_stream_carries_the_turns (H := flaky_search)
              connected_client gemini hello (quiet (H := flaky_search) 0%N)
              0%N eq_refl 2 out Hchat) as (stream & Hreturned & Hqueue).
  exists out. split; [reflexivity|].
  vm_compute in Hchat. by simplify_eq.
Defined.

Lemma one_model_call_per_round_witness :
  ∃ out new,
    chat (H := flaky_search) connected_client gemini hello 2
      (quiet (H := flaky_search) 0%N) = Some out ∧
    trace (effects_after out) = new ∧
    length (model_calls new) = 2.
Proof.
  destruct (chat (H := flaky_search) connected_client gemini hello 2
              (quiet (H := flaky_search) 0%N)) as [out|] eqn:Hchat;
    [|by vm_compute in Hchat].
  destruct (one_model_call_per_round (H := flaky_search)
              connected_client gemini hello (quiet (H := flaky_search) 0%N)
              0%N eq_refl 2 out Hchat) as (new & Htrace & Hcount & _).
  exists out, new. split_and!; [reflexivity | exact Htrace |].
  rewrite Hcount. vm_compute in Hchat. by simplify_eq.
Defined.

Lemma every_request_is_executed_once_witness :
  ∃ out new,
    chat (H := flaky_search) connected_client gemini hello 2
      (quiet (H := flaky_search) 0%N) = Some out ∧
    trace (effects_after out) = new ∧
    tool_calls new = gateway_calls 0%N [search_call; fetch_call].
Proof.
  destruct (chat (H := flaky_search) connected_client gemini hello 2
              (quiet (H := flaky_search) 0%N)) as [out|] eqn:Hchat;
    [|by vm_compute in Hchat].
  destruct (every_request_is_executed_once (H := flaky_search)
              connected_client gemini hello (quiet (H := flaky_search) 0%N)
              0%N eq_refl 2 out Hchat) as (added & new & Hadded & Htrace & Htools).
  exists out, new. split_and!; [reflexivity | exact Htrace |].
  rewrite Htools. vm_compute in Hchat. simplify_eq. simpl in Hadded.
  by simplify_list_eq.
Defined.

(** A model that fails in a round, by throwing from the call or from
    its stream, ends the call in that round: the loop returns however many
    passes it is allowed, it has invoked the model once and not again,
    called no tool, appended nothing to the transcript, logged the error,
    and put the error marker last on the stream before closing it. *)
Theorem model_failure_is_not_retried `{Platform}
    (model : LanguageModel) (mcpClient : Client) (tools : ToolSet)
    (s : LoopState) :
  CanCloseOrEnqueue (controller s) = true →
  model_turn model tools s = None →
  ∃ s' e before,
    (∀ fuel, while_true (S fuel) model mcpClient tools s
             = Some (inr return_from_start, s')) ∧
    currentMessages s' = currentMessages s ∧
    controller s' =
      closing (enqueued (before ++ [stream_error e]) (controller s)) ∧
    trace (effects s') = trace (effects s) ++
      [call_streamText model (currentMessages s) (Some tools);
       console_error (loop_processing_error (S (loopCounter s)) e)].
Proof.
  intros Hopen Hturn. unfold model_turn in Hturn.
  round_split model mcpClient tools s Hopen; try done.
  - match type of Hbody with _ = (_, ?s') => exists s', e, [] end.
    split_and!; try done.
    intros fuel. by rewrite while_true_unfold, Hbody.
  - match type of Hbody with
    | _ = (_, ?s') => exists s', e, (chunks_of (parts run))
    end.
    split_and!; try done.
    intros fuel. by rewrite while_true_unfold, Hbody.
Qed.

Lemma model_failure_is_not_retried_witness :
  ∃ s',
    while_true (H := overloaded) 7 gemini 0%N ∅
      (fresh_loop (H := overloaded) hello 0%N)
      = Some (inr return_from_start, s') ∧
    currentMessages s' = hello ∧
    model_calls (trace (effects s')) = [(hello, Some ∅)].
Proof.
  destruct (model_failure_is_not_retried (H := overloaded) gemini 0%N ∅
              (fresh_loop (H := overloaded) hello 0%N))
    as (s' & e & before & Hloop & Hmessages & _ & Htrace);
    [reflexivity | reflexivity |].
  exists s'. split_and!; [apply Hloop | exact Hmessages |].
  rewrite Htrace. reflexivity.
Defined.

(* ===================================================================== *)
(** * The completed-mode client                                           *)
(* ===================================================================== *)

Lemma generate_calls_app events more :
  generate_calls (events ++ more) = generate_calls events ++ generate_calls more.
Proof. apply omap_app. Qed.

Lemma content_calls_app items more :
  content_calls (items ++ more) = content_calls items ++ content_calls more.
Proof. apply omap_app. Qed.

Section CompletedFacts.
Context `{Platform}.
Variables (mcpClient : Client) (model : LanguageModel).
Variable messages : list CoreMessage.

(** What the walk over the content of a message calls and collects. *)
Lemma walk_content_calls items : ∀ finalText toolResults fx finalText' toolResults' fx',
  walk_content mcpClient model messages items finalText toolResults fx
    = (finalText', toolResults', fx') →
  ∃ new,
    trace fx' = trace fx ++ new ∧
    tool_calls new = gateway_calls mcpClient (content_calls items) ∧
    Forall (follow_up messages) (generate_calls new) ∧
    length (generate_calls new) = length toolResults' - length toolResults ∧
    length toolResults ≤ length toolResults' ∧
    length toolResults' ≤ length toolResults + length (content_calls items) ∧
    (content_calls items = [] →
       finalText' = finalText ++ content_texts items ∧ fx' = fx).
Proof.
  induction items as [|item items IH];
    intros finalText toolResults fx finalText' toolResults' fx' Hwalk.
  - simpl in Hwalk. simplify_eq. exists []. rewrite !app_nil_r.
    split_and!; try done; simpl; lia.
  - destruct item as [|t|t|call|]; simpl in Hwalk.
    1,5: destruct (IH _ _ _ _ _ _ Hwalk) as (new & ? & ? & ? & ? & ? & ? & ?);
      exists new; by split_and!.
    1,2: destruct (IH _ _ _ _ _ _ Hwalk)
        as (new & ? & ? & ? & ? & ? & ? & Htexts);
      exists new; split_and!; try done;
      intros Hnone; destruct (Htexts Hnone) as [-> ->];
      by rewrite <- app_assoc.
    unfold ask, emit in Hwalk. simpl in Hwalk.
    destruct (sdk_callTool mcpClient (toolName call) (args call) (world fx))
      as [answer w1]. simpl in Hwalk.
    destruct (ToBoolean (error answer)) eqn:Herror;
      [|destruct (data answer) as [toolCall|] eqn:Hdata].
    1,3: destruct (IH _ _ _ _ _ _ Hwalk)
        as (new & Htrace & Htools & Hfollow & Hcount & Hle & Hge & _);
      simpl in Htrace;
      exists (call_callTool mcpClient (toolName call) (args call) :: new);
      split_and!; try done;
      [ by rewrite Htrace, <- app_assoc
      | simpl; by rewrite Htools
      | simpl; lia ].
    unfold generateModelResponse, ask, emit in Hwalk. simpl in Hwalk.
    destruct (generateText model _ _ w1) as [r w2]. simpl in Hwalk.
    assert (∃ fx2 finalText2,
              walk_content mcpClient model messages items finalText2
                (toolResults ++ [toolCall]) fx2
                = (finalText', toolResults', fx') ∧
              world fx2 = w2 ∧
              ∃ logged,
                trace fx2 = trace fx ++
                  [call_callTool mcpClient (toolName call) (args call);
                   call_generateText model
                     (messages ++ [UserMessage (content toolCall)]) ∅] ++ logged ∧
                generate_calls logged = [] ∧ tool_calls logged = [])
      as (fx2 & finalText2 & Hrest & _ & logged & Htrace2 & Hlogged & Hlogged').
    { destruct (ToBoolean (error r)), (data r);
        eexists _, _; (split; [exact Hwalk|]); (split; [done|]); simpl;
        eexists; rewrite <- !app_assoc; simpl; split_and!; try done. }
    destruct (IH _ _ _ _ _ _ Hrest)
      as (new & Htrace & Htools & Hfollow & Hcount & Hle & Hge & _).
    rewrite length_app in Hcount, Hle, Hge. simpl in *.
    exists ([call_callTool mcpClient (toolName call) (args call);
             call_generateText model
               (messages ++ [UserMessage (content toolCall)]) ∅]
            ++ logged ++ new).
    split_and!; try done.
    + rewrite Htrace, Htrace2. by rewrite <- !app_assoc.
    + simpl. rewrite tool_calls_app, Hlogged', Htools. done.
    + simpl. rewrite generate_calls_app, Hlogged. simpl.
      constructor; [|done]. split; [done|]. eauto.
    + simpl. rewrite generate_calls_app, Hlogged. simpl. lia.
    + lia.
    + lia.
Qed.

(** The same for the walk over the messages of the response. *)
Lemma walk_messages_calls response : ∀ finalText toolResults fx finalText' toolResults' fx',
  walk_messages mcpClient model messages response finalText toolResults fx
    = (finalText', toolResults', fx') →
  ∃ new,
    trace fx' = trace fx ++ new ∧
    tool_calls new = gateway_calls mcpClient (response ≫= content_calls) ∧
    Forall (follow_up messages) (generate_calls new) ∧
    length (generate_calls new) = length toolResults' - length toolResults ∧
    length toolResults ≤ length toolResults' ∧
    length toolResults' ≤
      length toolResults + length (response ≫= content_calls) ∧
    (response ≫= content_calls = [] →
       finalText' = finalText ++ (response ≫= content_texts) ∧ fx' = fx).
Proof.
  induction response as [|message response IH];
    intros finalText toolResults fx finalText' toolResults' fx' Hwalk.
  - simpl in Hwalk. simplify_eq. exists []. rewrite !app_nil_r.
    split_and!; try done; simpl; lia.
  - simpl in Hwalk.
    destruct (walk_content mcpClient model messages message finalText
                toolResults fx) as [[finalText1 toolResults1] fx1] eqn:Hfirst.
    destruct (walk_content_calls _ _ _ _ _ _ _ Hfirst)
      as (new1 & Htrace1 & Htools1 & Hfollow1 & Hcount1 & Hle1 & Hge1 & Htexts1).
    destruct (IH _ _ _ _ _ _ Hwalk)
      as (new & Htrace & Htools & Hfollow & Hcount & Hle & Hge & Htexts).
    exists (new1 ++ new). csimpl. split_and!.
    + by rewrite Htrace, Htrace1, app_assoc.
    + by rewrite tool_calls_app, gateway_calls_app, Htools1, Htools.
    + rewrite generate_calls_app. by apply Forall_app.
    + rewrite generate_calls_app, length_app. lia.
    + lia.
    + rewrite length_app. lia.
    + intros [Hnone1 Hnone]%app_eq_nil.
      destruct (Htexts1 Hnone1) as [-> ->].
      destruct (Htexts Hnone) as [-> ->].
      by rewrite <- app_assoc.
Qed.

End CompletedFacts.

Section CompletedChat.
Context `{Platform}.
Variables (this : MCPClient) (model : LanguageModel).
Variables (messages : list CoreMessage) (fx : Effects).
Variable mcpClient : Client.
Hypothesis connected : client this = Some mcpClient.

(** When the first [generateText] fails, by an error or by an answer
    without data, the completed-mode [chat] returns the fixed error text
    after that one call, which it logs, and calls nothing else. *)
Theorem completed_chat_generation_failure r w1 :
  generateText model messages (default ∅ (tools this)) (world fx) = (r, w1) →
  ToBoolean (error r) = true ∨ data r = None →
  chat_completed this model messages fx =
    (lit "Error generating response from AI", this,
     {| world := w1;
        trace := trace fx ++
          [call_generateText model messages (default ∅ (tools this));
           console_error client_generate_failed] |}).
Proof using connected.
  intros Hgenerate Hfailed.
  unfold chat_completed, generateModelResponse, ask, emit. rewrite connected.
  simpl. rewrite Hgenerate. simpl.
  destruct Hfailed as [-> | ->]; [|destruct (ToBoolean (error r))];
    simpl; by rewrite <- app_assoc.
Qed.

(** Given the response of the first [generateText], the completed-mode
    [chat] sends every tool call of the response to the gateway, once and
    in the order of the content, and nothing else; it asks the model
    again at most once per tool call, each time without tools and with
    the messages of the request followed by one user message, so that no
    follow-up sees the result of another call. *)
Theorem completed_chat_calls response fx1 text this' fx' :
  generateModelResponse model messages (tools this) fx = (Some response, fx1) →
  chat_completed this model messages fx = (text, this', fx') →
  this' = this ∧
  ∃ new,
    trace fx' = trace fx1 ++ new ∧
    tool_calls new =
      gateway_calls mcpClient (response_messages response ≫= content_calls) ∧
    Forall (follow_up messages) (generate_calls new) ∧
    length (generate_calls new) ≤
      length (response_messages response ≫= content_calls).
Proof using connected.
  intros Hgenerate. unfold chat_completed. rewrite connected, Hgenerate.
  destruct (walk_messages mcpClient model messages
              (response_messages response) [] [] fx1)
    as [[finalText toolResults] fx2] eqn:Hwalk.
  intros [= <- <- <-]. split; [done|].
  destruct (walk_messages_calls _ _ _ _ _ _ _ _ _ _ Hwalk)
    as (new & Htrace & Htools & Hfollow & Hcount & Hle & Hge & _).
  exists new. split_and!; try done. simpl in *. lia.
Qed.

(** A response without tool calls is returned as its text and reasoning
    items joined by blank lines, and nothing more is called. *)
Theorem completed_chat_without_tool_calls response fx1 :
  generateModelResponse model messages (tools this) fx = (Some response, fx1) →
  response_messages response ≫= content_calls = [] →
  chat_completed this model messages fx =
    (join (nl ++ nl) (response_messages response ≫= content_texts), this, fx1).
Proof using connected.
  intros Hgenerate Hnone. unfold chat_completed. rewrite connected, Hgenerate.
  destruct (walk_messages mcpClient model messages
              (response_messages response) [] [] fx1)
    as [[finalText toolResults] fx2] eqn:Hwalk.
  destruct (walk_messages_calls _ _ _ _ _ _ _ _ _ _ Hwalk)
    as (_ & _ & _ & _ & _ & _ & _ & Htexts).
  by destruct (Htexts Hnone) as [-> ->].
Qed.

End CompletedChat.

Lemma completed_chat_generation_failure_witness :
  ∃ fx',
    chat_completed (H := polite) connected_client gemini hello
      (quiet (H := polite) 0%N)
    = (lit "Error generating response from AI", connected_client, fx') ∧
    trace fx' =
      [call_generateText gemini hello ∅; console_error client_generate_failed].
Proof.
  eexists. split.
  - apply (completed_chat_generation_failure (H := polite) connected_client
             gemini hello (quiet (H := polite) 0%N) 0%N eq_refl
             {| data := None; error := no_error |} 0%N);
      [reflexivity | by right].
  - reflexivity.
Defined.

Lemma completed_chat_calls_witness :
  let P := completing text_and_two_calls search_is_down in
  ∃ response fx1 text fx' new,
    generateModelResponse (H := P) gemini hello (tools connected_client)
      (quiet (H := P) 0%N) = (Some response, fx1) ∧
    chat_completed (H := P) connected_client gemini hello (quiet (H := P) 0%N)
      = (text, connected_client, fx') ∧
    trace fx' = trace fx1 ++ new ∧
    tool_calls new = gateway_calls 0%N [search_call; fetch_call] ∧
    length (generate_calls new) ≤ 2.
Proof.
  intros P.
  eassert (generateModelResponse (H := P) gemini hello (tools connected_client)
             (quiet (H := P) 0%N) = (Some text_and_two_calls, _))
    as Hgenerate by reflexivity.
  eassert (chat_completed (H := P) connected_client
             gemini hello (quiet (H := P) 0%N) = (_, _, _))
    as Hchat by reflexivity.
  destruct (completed_chat_calls (H := P) connected_client gemini hello
              (quiet (H := P) 0%N) 0%N eq_refl _ _ _ _ _ Hgenerate Hchat)
    as (_ & new & Htrace & Htools & _ & Hcount).
  eexists _, _, _, _, new.
  split_and!; [exact Hgenerate | exact Hchat | exact Htrace | exact Htools
              | exact Hcount].
Defined.

Lemma completed_chat_without_tool_calls_witness :
  let P := completing found all_tools_up in
  chat_completed (H := P) connected_client gemini hello (quiet (H := P) 0%N)
  = (lit "Found.", connected_client,
     recorded (H := P) 0%N [call_generateText gemini hello ∅]).
Proof.
  intros P.
  apply (completed_chat_without_tool_calls (H := P) connected_client gemini
           hello (quiet (H := P) 0%N) 0%N eq_refl found);
    reflexivity.
Defined.

(* ===================================================================== *)
(** * Further properties of the service                                   *)
(* ===================================================================== *)

(** The ids that [GET /servers] lists are the keys the catalog has of its
    own. *)
Lemma get_servers_ids (servers : list (jsstring * MCPServerConfig)) :
  (get_servers servers).*1 = servers.*1.
Proof.
  unfold get_servers. rewrite <- list_fmap_compose. by apply list_fmap_ext.
Qed.

Lemma own_property_listed (servers : list (jsstring * MCPServerConfig))
    (serverId : jsstring) :
  serverId ∈ servers.*1 ↔ is_Some (Service.own_property servers serverId).
Proof.
  induction servers as [|[id config] rest IH].
  - split; [by intros ?%elem_of_nil | by intros [? ?]].
  - rewrite fmap_cons, elem_of_cons. simpl. case_bool_decide as Hid.
    + split; [eauto | by left].
    + rewrite IH. split; [intros [?|?]; [congruence|done] | by right].
Qed.

(** [servers[serverId]] is defined for the keys the catalog has of its
    own and for those every object inherits. *)
Lemma server_config_defined (servers : list (jsstring * MCPServerConfig))
    (serverId : jsstring) :
  is_Some (Service.server_config servers serverId) ↔
  serverId ∈ servers.*1 ∨ serverId ∈ Service.Object_prototype_keys.
Proof.
  rewrite own_property_listed. unfold Service.server_config.
  destruct (Service.own_property servers serverId) as [config|].
  - split; [intros _; left; eauto | eauto].
  - case_bool_decide as Hkey.
    + split; [by right | eauto].
    + split; [by intros [? ?] | intros [[? ?]|?]; done].
Qed.

Lemma Object_prototype_keys_not_empty (key : jsstring) :
  key ∈ Service.Object_prototype_keys → key ≠ [].
Proof.
  intros Hkey ->. revert Hkey.
  refine (bool_decide_eq_false_1 _ _). by vm_compute.
Qed.

Section ServiceFacts.
Context `{Platform}.
Variable aiModel : option LanguageModel.
Variable servers : list (jsstring * MCPServerConfig).
Variable new_client : LanguageModel → Service.ServerValue → MCPClient.
Variable client_chat :
  MCPClient → list CoreMessage → Effects →
  (JsValue + JsValue) * MCPClient * Effects.
Implicit Types (activeConnections : gmap jsstring Service.ActiveConnection).

(** A [/connect] for a session id that is not in the map, with room in
    the map and the model configured, comes through its checks to the
    start of a new client, leaving the map and the world as they are. *)
Lemma connect_checks_pass model sessionId serverId serverConfig
    activeConnections fx :
  aiModel = Some model →
  sessionId ≠ [] → serverId ≠ [] →
  Service.server_config servers serverId = Some serverConfig →
  activeConnections !! sessionId = None →
  size activeConnections < Service.MAX_CONNECTIONS →
  Service.connect_checks aiModel servers new_client
    (Service.string_field sessionId) (Service.string_field serverId)
    activeConnections fx =
    inr ({| Service.connecting_sessionId := sessionId;
            Service.connecting_serverId := serverId;
            Service.connecting_client := new_client model serverConfig |},
         activeConnections, fx).
Proof.
  intros -> Hsession Hserver Hconfig Hfresh Hroom.
  unfold Service.connect_checks.
  destruct sessionId as [|c s]; [done|].
  destruct serverId as [|c' s']; [done|].
  rewrite Hconfig.
  rewrite bool_decide_false by (rewrite Hfresh; by intros [? ?]).
  rewrite bool_decide_false by lia.
  by rewrite Hfresh.
Qed.

(** [/connect] resumed with a start that returned, and with one that
    threw. *)
Lemma connect_resume_started sessionId serverId this activeConnections fx
    mcpClient fx1 :
  start this fx = (inr (), mcpClient, fx1) →
  Service.connect_resume
    {| Service.connecting_sessionId := sessionId;
       Service.connecting_serverId := serverId;
       Service.connecting_client := this |} activeConnections fx =
    ({| Service.status := 200;
        Service.json := Service.message (lit "Connection successful") |},
     <[sessionId :=
         {| Service.serverId := serverId;
            Service.client := mcpClient;
            Service.lastActivityTimestamp := Date_now (world fx1) |}]>
       activeConnections,
     fx1).
Proof.
  intros Hstart. unfold Service.connect_resume.
  cbn [Service.connecting_client]. by rewrite Hstart.
Qed.

Lemma connect_resume_failed sessionId serverId this activeConnections fx
    err mcpClient fx1 :
  start this fx = (inl err, mcpClient, fx1) →
  Service.connect_resume
    {| Service.connecting_sessionId := sessionId;
       Service.connecting_serverId := serverId;
       Service.connecting_client := this |} activeConnections fx =
    ({| Service.status := 500;
        Service.json := Service.message (lit "Failed to establish connection") |},
     delete sessionId activeConnections,
     emit (console_error (server_connect_failed sessionId err)) fx1).
Proof.
  intros Hstart. unfold Service.connect_resume.
  cbn [Service.connecting_client]. by rewrite Hstart.
Qed.


(** [/connect] does not turn down a server id that names a property the
    catalog only inherits, such as [constructor]: with room in the map it
    constructs a client from the inherited value and starts it, and when
    the start returns the session is in the map under a server id that
    [GET /servers] does not list. *)
Theorem connect_accepts_an_inherited_key model sessionId key
    activeConnections fx reply activeConnections' fx' :
  aiModel = Some model →
  sessionId ≠ [] →
  key ∈ Service.Object_prototype_keys →
  key ∉ (get_servers servers).*1 →
  activeConnections !! sessionId = None →
  size activeConnections < Service.MAX_CONNECTIONS →
  Service.connect aiModel servers new_client
    (Service.string_field sessionId) (Service.string_field key)
    activeConnections fx = (reply, activeConnections', fx') →
  Service.status reply ≠ 400%N ∧
  ∃ outcome mcpClient fx0,
    start (new_client model (Service.inherited key)) fx
      = (outcome, mcpClient, fx0) ∧
    match outcome with
    | inr _ =>
        Service.status reply = 200%N ∧
        activeConnections' =
          <[sessionId :=
              {| Service.serverId := key;
                 Service.client := mcpClient;
                 Service.lastActivityTimestamp := Date_now (world fx0) |}]>
            activeConnections
    | inl err =>
        Service.status reply = 500%N ∧ activeConnections' = activeConnections
    end.
Proof.
  intros Hmodel Hsession Hkey Hunlisted Hfresh Hroom Hconnect.
  assert (Service.server_config servers key = Some (Service.inherited key))
    as Hconfig.
  { unfold Service.server_config.
    destruct (Service.own_property servers key) as [config|] eqn:Hown.
    - destruct Hunlisted. rewrite get_servers_ids.
      apply own_property_listed. eauto.
    - by rewrite bool_decide_true. }
  unfold Service.connect in Hconnect.
  rewrite (connect_checks_pass model _ _ (Service.inherited key)) in Hconnect
    by eauto using Object_prototype_keys_not_empty.
  destruct (start (new_client model (Service.inherited key)) fx)
    as [[[err|[]] mcpClient] fx0] eqn:Hstart.
  - rewrite (connect_resume_failed _ _ _ _ _ _ _ _ Hstart) in Hconnect.
    injection Hconnect as <- <- <-. split; [done|].
    eexists _, _, _. split; [reflexivity|]. split; [done|].
    by apply delete_id.
  - rewrite (connect_resume_started _ _ _ _ _ _ _ Hstart) in Hconnect.
    injection Hconnect as <- <- <-. split; [done|].
    eexists _, _, _. split; [reflexivity|]. done.
Qed.

(** Each of the three handlers leaves the entries of all the other
    sessions as they are, whatever it does to its own and however its
    calls turn out. *)
Theorem other_sessions_are_left_alone sessionId other serverId messages
    activeConnections fx :
  sessionId ≠ Service.string_field other →
  (Service.connect aiModel servers new_client sessionId serverId
     activeConnections fx).1.2 !! other = activeConnections !! other ∧
  (Service.disconnect sessionId activeConnections fx).1.2 !! other
    = activeConnections !! other ∧
  (Service.chat aiModel client_chat sessionId messages activeConnections fx).1.2
    !! other = activeConnections !! other.
Proof.
  intros Hother. split_and!.
  - destruct (Service.connect aiModel servers new_client sessionId serverId
                activeConnections fx) as [[reply activeConnections'] fx']
      eqn:Hconnect. simpl.
    destruct (connect_cases _ _ _ _ _ _ _ _ _ _ Hconnect)
      as [(-> & _)
         | (sid & srv & serverConfig & model & outcome & mcpClient & fx0 &
            -> & _ & _ & _ & _ & _ & _ & _ & _ & _ & Hpost)];
      [done|].
    destruct outcome as [err|[]].
    + by destruct Hpost as (_ & -> & _).
    + destruct Hpost as (_ & _ & ->). apply lookup_insert_ne. congruence.
  - unfold Service.disconnect.
    destruct sessionId as [[|c s]|]; try done.
    destruct (activeConnections !! (c :: s)) as [connectionData|]; [|done].
    destruct (cleanup (Service.client connectionData) fx)
      as [[[err|[]] this'] fx0]; simpl; apply lookup_delete_ne; congruence.
  - unfold Service.chat.
    destruct aiModel as [model|]; [|done].
    destruct messages as [[|m ms]|]; try done.
    destruct (Service.get_connection sessionId activeConnections)
      as [[key connectionData]|] eqn:Hget.
    + assert (key ≠ other) as Hkey.
      { destruct sessionId as [s|]; [|done]. simpl in Hget.
        destruct (activeConnections !! s); simplify_eq/=. congruence. }
      destruct (client_chat (Service.client connectionData) (m :: ms) fx)
        as [[[err|response] mcpClient] fx1]; simpl.
      * by apply lookup_insert_ne.
      * destruct (ToBoolean response); simpl; by apply lookup_insert_ne.
    + by destruct (directChat model (m :: ms) fx) as [[err|response] fx1].
Qed.

(** The limit on the number of sessions is checked before [/connect]
    awaits [start] and the session is set afterwards.  Two requests for
    different new sessions that overlap both pass the check on the map as
    it is, and when both starts return the map has two sessions more: from
    one short of [MAX_CONNECTIONS] it goes one beyond.  Handled one after
    the other, the second of the two is answered 503. *)
Theorem overlapping_connects_exceed_the_limit
    model sessionId1 sessionId2 serverId1 serverId2 serverConfig1 serverConfig2
    activeConnections fx mcpClient1 fx1 mcpClient2 fx2 :
  aiModel = Some model →
  sessionId1 ≠ [] → sessionId2 ≠ [] → sessionId1 ≠ sessionId2 →
  serverId1 ≠ [] → serverId2 ≠ [] →
  Service.server_config servers serverId1 = Some serverConfig1 →
  Service.server_config servers serverId2 = Some serverConfig2 →
  activeConnections !! sessionId1 = None →
  activeConnections !! sessionId2 = None →
  size activeConnections < Service.MAX_CONNECTIONS →
  start (new_client model serverConfig1) fx = (inr (), mcpClient1, fx1) →
  start (new_client model serverConfig2) fx1 = (inr (), mcpClient2, fx2) →
  (∃ reply1 reply2 activeConnections',
     Service.connect_overlapped aiModel servers new_client
       (Service.string_field sessionId1, Service.string_field serverId1)
       (Service.string_field sessionId2, Service.string_field serverId2)
       activeConnections fx = (reply1, reply2, activeConnections', fx2) ∧
     Service.status reply1 = 200%N ∧
     Service.status reply2 = 200%N ∧
     is_Some (activeConnections' !! sessionId1) ∧
     is_Some (activeConnections' !! sessionId2) ∧
     size activeConnections' = S (S (size activeConnections)) ∧
     (S (size activeConnections) = Service.MAX_CONNECTIONS →
      ¬ registry_ok activeConnections')) ∧
  (S (size activeConnections) = Service.MAX_CONNECTIONS →
   ∃ reply1 activeConnections1 reply2,
     Service.connect aiModel servers new_client
       (Service.string_field sessionId1) (Service.string_field serverId1)
       activeConnections fx = (reply1, activeConnections1, fx1) ∧
     Service.status reply1 = 200%N ∧
     Service.connect aiModel servers new_client
       (Service.string_field sessionId2) (Service.string_field serverId2)
       activeConnections1 fx1 =
       (reply2, activeConnections1,
        emit (console_warn (server_limit_reached sessionId2)) fx1) ∧
     Service.status reply2 = 503%N ∧
     size activeConnections1 = Service.MAX_CONNECTIONS).
Proof.
  intros Hmodel Hsession1 Hsession2 Hdistinct Hserver1 Hserver2 Hconfig1
    Hconfig2 Hfresh1 Hfresh2 Hroom Hstart1 Hstart2.
  split.
  - unfold Service.connect_overlapped. cbn [fst snd].
    rewrite (connect_checks_pass model _ _ serverConfig1) by done.
    rewrite (connect_checks_pass model _ _ serverConfig2) by done.
    rewrite (connect_resume_started _ _ _ _ _ _ _ Hstart1).
    rewrite (connect_resume_started _ _ _ _ _ _ _ Hstart2).
    eexists _, _, _. split; [reflexivity|].
    assert (size (<[sessionId2 :=
                      {| Service.serverId := serverId2;
                         Service.client := mcpClient2;
                         Service.lastActivityTimestamp := Date_now (world fx2) |}]>
                    (<[sessionId1 :=
                         {| Service.serverId := serverId1;
                            Service.client := mcpClient1;
                            Service.lastActivityTimestamp :=
                              Date_now (world fx1) |}]>
                       activeConnections))
            = S (S (size activeConnections))) as Hsize.
    { rewrite map_size_insert_None by by rewrite lookup_insert_ne.
      by rewrite map_size_insert_None. }
    split_and!; try done.
    + rewrite lookup_insert_ne by done. rewrite lookup_insert_eq. eauto.
    + rewrite lookup_insert_eq. eauto.
    + intros Hfull [Hlimit _]. rewrite Hsize in Hlimit. lia.
  - intros Hfull.
    assert (Service.connect aiModel servers new_client
              (Service.string_field sessionId1) (Service.string_field serverId1)
              activeConnections fx =
            ({| Service.status := 200;
                Service.json := Service.message (lit "Connection successful") |},
             <[sessionId1 :=
                 {| Service.serverId := serverId1;
                    Service.client := mcpClient1;
                    Service.lastActivityTimestamp := Date_now (world fx1) |}]>
               activeConnections, fx1)) as Hfirst.
    { unfold Service.connect.
      rewrite (connect_checks_pass model _ _ serverConfig1) by done.
      by rewrite (connect_resume_started _ _ _ _ _ _ _ Hstart1). }
    eexists _, _, _. split; [exact Hfirst|]. split; [done|].
    assert (size (<[sessionId1 :=
                      {| Service.serverId := serverId1;
                         Service.client := mcpClient1;
                         Service.lastActivityTimestamp :=
                           Date_now (world fx1) |}]> activeConnections)
            = Service.MAX_CONNECTIONS) as Hsize
      by (by rewrite map_size_insert_None).
    split_and!.
    + unfold Service.connect, Service.connect_checks.
      destruct sessionId2 as [|c s]; [done|].
      destruct serverId2 as [|c' s']; [done|].
      rewrite Hconfig2.
      rewrite bool_decide_false
        by (rewrite lookup_insert_ne by done; rewrite Hfresh2; by intros [? ?]).
      rewrite bool_decide_true by (rewrite Hsize; done).
      reflexivity.
    + done.
    + exact Hsize.
Qed.

(** A [/chat] for a session that is in the map stamps its entry with the
    time at which the request came in, before the chat ran, and does so
    whether the chat answers, answers with nothing or throws; the entry
    keeps its server id and holds the client as the chat left it, and the
    map keeps its sessions.  The answer is 200 exactly when the chat
    resolved to something that is not falsy. *)
Theorem chat_with_session_stamps_the_entry model sessionId messages
    connectionData activeConnections fx outcome mcpClient fx1 :
  aiModel = Some model →
  messages ≠ [] →
  activeConnections !! sessionId = Some connectionData →
  client_chat (Service.client connectionData) messages fx
    = (outcome, mcpClient, fx1) →
  ∃ reply activeConnections' fx',
    Service.chat aiModel client_chat (Service.string_field sessionId)
      (Some messages) activeConnections fx = (reply, activeConnections', fx') ∧
    activeConnections' !! sessionId =
      Some {| Service.serverId := Service.serverId connectionData;
              Service.client := mcpClient;
              Service.lastActivityTimestamp := Date_now (world fx) |} ∧
    dom activeConnections' = dom activeConnections ∧
    world fx' = world fx1 ∧
    (Service.status reply = 200%N ↔
       ∃ response, outcome = inr response ∧ ToBoolean response = true) ∧
    (Service.status reply ≠ 200%N → Service.status reply = 500%N).
Proof.
  intros -> Hmessages Hlookup Hchat.
  destruct messages as [|m ms]; [done|].
  unfold Service.chat, Service.get_connection. rewrite Hlookup. simpl.
  rewrite Hchat.
  assert (dom (<[sessionId :=
                   {| Service.serverId := Service.serverId connectionData;
                      Service.client := mcpClient;
                      Service.lastActivityTimestamp := Date_now (world fx) |}]>
                 activeConnections) = dom activeConnections) as Hdom.
  { apply dom_insert_lookup_L. eauto. }
  destruct outcome as [err|response].
  - eexists _, _, _. split; [done|].
    split_and!; try done.
    + apply lookup_insert_eq.
    + split; [done|]. by intros (? & ? & _).
  - destruct (ToBoolean response) eqn:Htruthy.
    + eexists _, _, _. split; [done|].
      split_and!; try done.
      * apply lookup_insert_eq.
      * split; [|done]. intros _. by exists response.
    + eexists _, _, _. split; [done|].
      split_and!; try done.
      * apply lookup_insert_eq.
      * split; [done|]. intros (? & [= <-] & ?). congruence.
Qed.

(** What a [/connect] for another server does not do, a [/disconnect]
    followed by a [/connect] does: with the model configured and the map
    within the limit, the second request is never turned down for lack of
    room; it starts a new client for the server asked for, and when that
    succeeds the session is on the new server, the other sessions being
    as they were. *)
Theorem disconnect_then_connect_switches model sessionId serverId serverConfig
    existingConnection activeConnections fx
    reply1 activeConnections1 fx1 reply2 activeConnections2 fx2 :
  sessionId ≠ [] → serverId ≠ [] →
  Service.server_config servers serverId = Some (Service.configured serverConfig) →
  aiModel = Some model →
  size activeConnections ≤ Service.MAX_CONNECTIONS →
  activeConnections !! sessionId = Some existingConnection →
  Service.disconnect (Service.string_field sessionId) activeConnections fx
    = (reply1, activeConnections1, fx1) →
  Service.connect aiModel servers new_client
    (Service.string_field sessionId) (Service.string_field serverId)
    activeConnections1 fx1 = (reply2, activeConnections2, fx2) →
  ∃ outcome mcpClient fx0,
    start (new_client model (Service.configured serverConfig)) fx1
      = (outcome, mcpClient, fx0) ∧
    match outcome with
    | inr _ =>
        Service.status reply2 = 200%N ∧
        activeConnections2 =
          <[sessionId :=
              {| Service.serverId := serverId;
                 Service.client := mcpClient;
                 Service.lastActivityTimestamp := Date_now (world fx2) |}]>
            activeConnections ∧
        size activeConnections2 = size activeConnections
    | inl err =>
        Service.status reply2 = 500%N ∧
        activeConnections2 = delete sessionId activeConnections
    end.
Proof.
  intros Hsession Hserver Hconfig Hmodel Hlimit Hlookup Hdisconnect Hconnect.
  assert (activeConnections1 = delete sessionId activeConnections) as ->.
  { unfold Service.disconnect in Hdisconnect.
    destruct sessionId as [|c s]; [done|]. rewrite Hlookup in Hdisconnect.
    destruct (cleanup (Service.client existingConnection) fx)
      as [[[err|[]] this'] fx0]; by simplify_eq. }
  unfold Service.connect in Hconnect.
  rewrite (connect_checks_pass model _ _ (Service.configured serverConfig))
    in Hconnect; [|done|done|done|done|apply lookup_delete_eq|].
  2:{ rewrite map_size_delete_Some by eauto.
      assert (size activeConnections ≠ 0); [|lia].
      intros Hzero. apply map_size_empty_inv in Hzero. by subst. }
  destruct (start (new_client model (Service.configured serverConfig)) fx1)
    as [[[err|[]] mcpClient] fx0] eqn:Hstart.
  - rewrite (connect_resume_failed _ _ _ _ _ _ _ _ Hstart) in Hconnect.
    injection Hconnect as <- <- <-.
    eexists _, _, _. split; [reflexivity|]. split; [done|].
    by rewrite delete_delete_eq.
  - rewrite (connect_resume_started _ _ _ _ _ _ _ Hstart) in Hconnect.
    injection Hconnect as <- <- <-.
    eexists _, _, _. split; [reflexivity|].
    split_and!; [done| |].
    + by rewrite insert_delete_eq.
    + rewrite insert_delete_eq. apply map_size_insert_Some. eauto.
Qed.

(** [/connect] checks the server id by reading it as a property of the
    catalog.  With a valid session id, the answer is 400 exactly when the
    server id is not a string, is the empty string, or names neither a key
    that [GET /servers] lists nor a property that every object inherits;
    the 400 answer names the listed ids only, calls nothing and leaves the
    map as it is. *)
Theorem connect_accepts_listed_and_inherited_keys sessionId serverId
    activeConnections fx reply activeConnections' fx' :
  sessionId ≠ [] →
  Service.connect aiModel servers new_client
    (Service.string_field sessionId) serverId
    activeConnections fx = (reply, activeConnections', fx') →
  (Service.status reply = 400%N ↔
     ¬ ∃ srv, serverId = Service.string_field srv ∧ srv ≠ [] ∧
              (srv ∈ (get_servers servers).*1 ∨
               srv ∈ Service.Object_prototype_keys)) ∧
  (Service.status reply = 400%N →
     Service.json reply =
       Service.message
         (lit "Missing or invalid serverId. Available: " ++
          join (lit ", ") ((get_servers servers).*1)) ∧
     activeConnections' = activeConnections ∧ fx' = fx).
Proof.
  intros Hsession Hconnect.
  rewrite get_servers_ids.
  pose proof (server_config_defined servers) as Hdefined.
  destruct sessionId as [|c s]; [done|].
  unfold Service.connect, Service.connect_checks in Hconnect.
  destruct serverId as [[|c' s']|].
  - answered Hconnect. split; [|done]. split; [|done].
    intros _ (srv & [= <-] & ? & _). done.
  - destruct (Service.server_config servers (c' :: s')) as [serverConfig|]
      eqn:Hconfig.
    + assert (Service.status reply ≠ 400%N) as Hstatus.
      { destruct (bool_decide (is_Some (activeConnections !! (c :: s))));
          [by answered Hconnect|].
        destruct (bool_decide (Service.MAX_CONNECTIONS ≤ size activeConnections));
          [by answered Hconnect|].
        destruct aiModel as [model|]; [|by answered Hconnect].
        unfold Service.connect_resume, Service.connect_settle in Hconnect.
        destruct (activeConnections !! (c :: s)) as [existing|].
        - destruct (bool_decide (Service.serverId existing = c' :: s'));
            [by answered Hconnect|].
          destruct (cleanup (Service.client existing) fx)
            as [[[err|[]] this'] fx0];
            cbv beta iota zeta in Hconnect;
            cbn [Service.connecting_client] in Hconnect;
            destruct (start (new_client model serverConfig) _)
              as [[[err'|[]] mcpClient] fx3]; by simplify_eq.
        - cbv beta iota zeta in Hconnect.
          cbn [Service.connecting_client] in Hconnect.
          destruct (start (new_client model serverConfig) fx)
            as [[[err'|[]] mcpClient] fx3]; by simplify_eq. }
      split; [|done]. split; [done|].
      intros Hnot. destruct Hnot. exists (c' :: s'). split_and!; try done.
      apply Hdefined. eauto.
    + answered Hconnect. split; [|done]. split; [|done].
      intros _ (srv & [= <-] & _ & Hin). apply Hdefined in Hin.
      rewrite Hconfig in Hin. by destruct Hin.
  - answered Hconnect. split; [|done]. split; [|done].
    by intros _ (srv & ? & _).
Qed.

End ServiceFacts.

(** [GET /servers] lists the ids of the catalog in its order, each with
    the display name of the configuration that [/connect] would use for
    it. *)
Theorem get_servers_lists_the_catalog
    (servers : list (jsstring * MCPServerConfig)) (id name : jsstring) :
  NoDup (servers.*1) →
  (get_servers servers).*1 = servers.*1 ∧
  ((id, name) ∈ get_servers servers ↔
   ∃ config, Service.server_config servers id
               = Some (Service.configured config) ∧
             displayName config = name).
Proof.
  intros Hnodup. split; [apply get_servers_ids|].
  assert ((∃ config, Service.server_config servers id
                       = Some (Service.configured config) ∧
                     displayName config = name) ↔
          displayName <$> Service.own_property servers id = Some name) as ->.
  { unfold Service.server_config.
    destruct (Service.own_property servers id) as [config|]; simpl.
    - split; [by intros (? & [= <-] & <-) | intros [= <-]; eauto].
    - split; [|done]. intros (? & Hvalue & _). by case_bool_decide. }
  induction servers as [|[id' config] rest IH].
  - split; [by intros ?%elem_of_nil | done].
  - rewrite fmap_cons in Hnodup. apply NoDup_cons in Hnodup as [Hfresh Hnodup].
    unfold get_servers. rewrite fmap_cons, elem_of_cons. simpl.
    case_bool_decide as Hid.
    + subst id'. simpl. split.
      * intros [[= ->]|Hin]; [done|].
        destruct Hfresh. apply list_elem_of_fmap.
        apply list_elem_of_fmap in Hin as ([id0 config0] & [= -> ->] & Hin).
        by exists (id0, config0).
      * intros [= <-]. by left.
    + rewrite <- (IH Hnodup). split.
      * intros [[= -> _]|Hin]; [done|exact Hin].
      * by right.
Qed.

(* ===================================================================== *)
(** * The further service properties on concrete requests                 *)
(* ===================================================================== *)


Lemma connect_accepts_an_inherited_key_witness :
  let P := flaky_search in
  ∃ reply activeConnections' fx',
    Service.connect (H := P) (Some gemini) catalog client_of
      (Service.string_field (lit "s1")) (Service.string_field (lit "constructor"))
      ∅ (quiet (H := P) 0%N) = (reply, activeConnections', fx') ∧
    Service.status reply = 200%N ∧
    Service.serverId <$> activeConnections' !! lit "s1"
      = Some (lit "constructor") ∧
    lit "constructor" ∉ (get_servers catalog).*1.
Proof.
  intros P.
  assert (lit "constructor" ∉ (get_servers catalog).*1) as Hunlisted.
  { refine (bool_decide_eq_false_1 _ _). by vm_compute. }
  destruct (Service.connect (H := P) (Some gemini) catalog client_of
              (Service.string_field (lit "s1"))
              (Service.string_field (lit "constructor"))
              ∅ (quiet (H := P) 0%N))
    as [[reply activeConnections'] fx'] eqn:Hconnect.
  destruct (connect_accepts_an_inherited_key (H := P) (Some gemini) catalog
              client_of gemini (lit "s1") (lit "constructor")
              ∅ (quiet (H := P) 0%N) reply activeConnections' fx')
    as (_ & outcome & mcpClient & fx0 & Hstart & Hpost);
    [reflexivity | discriminate
    | refine (bool_decide_unpack _ _); by vm_compute
    | exact Hunlisted | reflexivity
    | rewrite map_size_empty; unfold Service.MAX_CONNECTIONS; lia
    | exact Hconnect |].
  vm_compute in Hstart.
  destruct outcome as [err|[]]; [discriminate Hstart|].
  destruct Hpost as (Hok & Hmap).
  exists reply, activeConnections', fx'.
  split_and!; [reflexivity | exact Hok | | exact Hunlisted].
  rewrite Hmap. by rewrite lookup_insert_eq.
Defined.

Lemma other_sessions_are_left_alone_witness :
  let P := listing_fails in
  (Service.connect (H := P) (Some gemini) catalog client_of
     (Service.string_field (lit "s3")) (Service.string_field (lit "github"))
     ten_sessions (quiet (H := P) 77%N)).1.2 !! lit "s4"
    = ten_sessions !! lit "s4" ∧
  (Service.disconnect (H := P) (Service.string_field (lit "s3"))
     ten_sessions (quiet (H := P) 77%N)).1.2 !! lit "s4"
    = ten_sessions !! lit "s4" ∧
  (Service.chat (H := P) (Some gemini) (unused_chat (H := P))
     (Service.string_field (lit "s3")) (Some hello)
     ten_sessions (quiet (H := P) 77%N)).1.2 !! lit "s4"
    = ten_sessions !! lit "s4".
Proof.
  intros P.
  apply (other_sessions_are_left_alone (H := P) (Some gemini) catalog client_of
           (unused_chat (H := P)) (Service.string_field (lit "s3")) (lit "s4")
           (Service.string_field (lit "github")) (Some hello)
           ten_sessions (quiet (H := P) 77%N)).
  discriminate.
Defined.

Lemma nine_sessions_size : size nine_sessions = 9.
Proof. by vm_compute. Qed.

Lemma overlapping_connects_exceed_the_limit_witness :
  let P := flaky_search in
  ∃ reply1 reply2 activeConnections' fx',
    Service.connect_overlapped (H := P) (Some gemini) catalog client_of
      (Service.string_field (lit "a"), Service.string_field (lit "github"))
      (Service.string_field (lit "b"), Service.string_field (lit "supabase"))
      nine_sessions (quiet (H := P) 0%N)
      = (reply1, reply2, activeConnections', fx') ∧
    Service.status reply1 = 200%N ∧
    Service.status reply2 = 200%N ∧
    size activeConnections' = 11.
Proof.
  intros P.
  pose proof (λ config1 config2,
                overlapping_connects_exceed_the_limit (H := P)
                  (Some gemini) catalog client_of gemini (lit "a") (lit "b")
                  (lit "github") (lit "supabase") config1 config2 nine_sessions
                  (quiet (H := P) 0%N)) as Hoverlap.
  edestruct Hoverlap
    as [(reply1 & reply2 & activeConnections' & Hrun & Hok1 & Hok2 & _ & _ &
         Hsize & _) _];
    [reflexivity | discriminate | discriminate | discriminate
    | discriminate | discriminate | reflexivity | reflexivity
    | by vm_compute | by vm_compute
    | rewrite nine_sessions_size; unfold Service.MAX_CONNECTIONS; lia
    | reflexivity | reflexivity |].
  eexists reply1, reply2, activeConnections', _.
  split_and!; [exact Hrun | exact Hok1 | exact Hok2 |].
  by rewrite Hsize, nine_sessions_size.
Defined.

Lemma chat_with_session_stamps_the_entry_witness :
  let P := polite in
  ∃ reply activeConnections' fx',
    Service.chat (H := P) (Some gemini) (unused_chat (H := P))
      (Service.string_field (lit "s3")) (Some hello)
      ten_sessions (quiet (H := P) 77%N) = (reply, activeConnections', fx') ∧
    activeConnections' !! lit "s3" = Some (on_github 77) ∧
    ten_sessions !! lit "s3" = Some (on_github 3) ∧
    Service.status reply = 500%N.
Proof.
  intros P.
  destruct (chat_with_session_stamps_the_entry (H := P) (Some gemini)
              (unused_chat (H := P)) gemini (lit "s3") hello (on_github 3)
              ten_sessions (quiet (H := P) 77%N) (inr no_error)
              connected_client (quiet (H := P) 77%N))
    as (reply & activeConnections' & fx' & Hchat & Hentry & _ & _ & Hok & Hfailed);
    [reflexivity | discriminate | by vm_compute | reflexivity |].
  exists reply, activeConnections', fx'.
  split_and!; [exact Hchat | exact Hentry | by vm_compute |].
  apply Hfailed. intros (response & [= <-] & Htruthy)%Hok. discriminate Htruthy.
Defined.

Lemma disconnect_then_connect_switches_witness :
  let P := flaky_search in
  ∃ reply1 activeConnections1 fx1 reply2 activeConnections2 fx2,
    Service.disconnect (H := P) (Service.string_field (lit "s3"))
      ten_sessions (quiet (H := P) 77%N) = (reply1, activeConnections1, fx1) ∧
    Service.connect (H := P) (Some gemini) catalog client_of
      (Service.string_field (lit "s3")) (Service.string_field (lit "supabase"))
      activeConnections1 fx1 = (reply2, activeConnections2, fx2) ∧
    Service.status reply2 = 200%N ∧
    Service.serverId <$> activeConnections2 !! lit "s3" = Some (lit "supabase") ∧
    size activeConnections2 = 10.
Proof.
  intros P.
  eassert (Service.server_config catalog (lit "supabase")
           = Some (Service.configured _)) as Hconfig by reflexivity.
  destruct (Service.disconnect (H := P) (Service.string_field (lit "s3"))
              ten_sessions (quiet (H := P) 77%N))
    as [[reply1 activeConnections1] fx1] eqn:Hdisconnect.
  destruct (Service.connect (H := P) (Some gemini) catalog client_of
              (Service.string_field (lit "s3"))
              (Service.string_field (lit "supabase")) activeConnections1 fx1)
    as [[reply2 activeConnections2] fx2] eqn:Hconnect.
  pose proof (λ config, disconnect_then_connect_switches (H := P)
                (Some gemini) catalog client_of gemini (lit "s3")
                (lit "supabase") config
                (on_github 3) ten_sessions (quiet (H := P) 77%N)
                reply1 activeConnections1 fx1 reply2 activeConnections2 fx2)
    as Hswitch.
  destruct (Hswitch _ ltac:(discriminate) ltac:(discriminate) Hconfig)
    as (outcome & mcpClient & fx0 & Hstart & Hpost);
    [reflexivity | by rewrite ten_sessions_size | by vm_compute
    | exact Hdisconnect | exact Hconnect |].
  assert (fx1 = recorded (H := P) 77%N [call_close 0%N]) as Hfx1.
  { change fx1 with (reply1, activeConnections1, fx1).2.
    rewrite <- Hdisconnect. by vm_compute. }
  rewrite Hfx1 in Hstart. vm_compute in Hstart.
  destruct outcome as [err|[]]; [discriminate Hstart|].
  destruct Hpost as (Hok & Hmap & Hsize).
  exists reply1, activeConnections1, fx1, reply2, activeConnections2, fx2.
  split_and!; [reflexivity | exact Hconnect | exact Hok | |].
  - rewrite Hmap. by rewrite lookup_insert_eq.
  - by rewrite Hsize, ten_sessions_size.
Defined.

Lemma connect_accepts_listed_and_inherited_keys_witness :
  let P := polite in
  ∃ reply,
    Service.connect (H := P) (Some gemini) catalog client_of
      (Service.string_field (lit "s1")) (Service.string_field (lit "gitlab"))
      ten_sessions (quiet (H := P) 0%N)
    = (reply, ten_sessions, quiet (H := P) 0%N) ∧
    Service.json reply =
      Service.message
        (lit "Missing or invalid serverId. Available: github, supabase").
Proof.
  intros P.
  destruct (Service.connect (H := P) (Some gemini) catalog client_of
              (Service.string_field (lit "s1"))
              (Service.string_field (lit "gitlab"))
              ten_sessions (quiet (H := P) 0%N))
    as [[reply activeConnections'] fx'] eqn:Hconnect.
  destruct (connect_accepts_listed_and_inherited_keys (H := P) (Some gemini)
              catalog client_of
              (lit "s1") _ _ _ _ _ _ ltac:(discriminate) Hconnect)
    as [Hturned Hreply].
  destruct Hreply as (Hjson & -> & ->).
  { apply Hturned. intros (srv & [= <-] & _ & [Hin|Hin]);
      (refine (bool_decide_eq_false_1 _ _ Hin); by vm_compute). }
  exists reply. split; [done|]. exact Hjson.
Defined.

Lemma get_servers_lists_the_catalog_witness :
  (get_servers catalog).*1 = catalog.*1 ∧
  ((lit "supabase", lit "Supabase") ∈ get_servers catalog ↔
   ∃ config, Service.server_config catalog (lit "supabase")
               = Some (Service.configured config) ∧
             displayName config = lit "Supabase").
Proof.
  apply get_servers_lists_the_catalog.
  refine (bool_decide_unpack _ _). by vm_compute.
Defined.

(* ===================================================================== *)
(** * The front-end actions                                               *)
(* ===================================================================== *)

Lemma triple_eq {A B C : Type} (a a' : A) (b b' : B) (c c' : C) :
  (a, b, c) = (a', b', c') → a = a' ∧ b = b' ∧ c = c'.
Proof. by intros [= -> -> ->]. Qed.

Section ActionFacts.
Context {W : Type}.
Variable uuid4 : W → jsstring * W.
Variable fetch : Actions.Request → W → (JsValue + Actions.Response) * W.

(** Closes a case in which the request is supposed to have resolved
    otherwise than [Hfetch] says it did. *)
Ltac resolved_otherwise Hfetch :=
  intros; destruct_and?;
  repeat match goal with H : ∃ _, _ |- _ => destruct H end; destruct_and?;
  repeat match goal with
         | H : fetch _ _ = (inr _, _) |- _ => rewrite Hfetch in H
         end;
  simplify_eq; congruence.

(** [connectMCP] makes exactly one request, to [/connect], for the
    session id it was given, or for a fresh one when it was given none (or
    the empty string); a given id is never replaced.  Its result is that
    session id or nothing, and it is the session id exactly when the
    request resolved with a status in 200..299 and a body that parses. *)
Theorem connectMCP_returns_the_session_it_asked_for
    (currentSessionId : option jsstring) (w : W)
    (result : option jsstring) (w' : W) (sent : list Actions.Request) :
  Actions.connectMCP uuid4 fetch currentSessionId w = (result, w', sent) →
  ∃ request w0,
    sent = [request] ∧
    Actions.route request = Actions.connect_route ∧
    Actions.messages request = None ∧
    (∀ given, currentSessionId = Some given → given ≠ [] →
              Actions.sessionId request = given ∧ w0 = w) ∧
    (currentSessionId = None ∨ currentSessionId = Some [] →
       (Actions.sessionId request, w0) = uuid4 w) ∧
    (result = None ∨ result = Some (Actions.sessionId request)) ∧
    (is_Some result ↔
       ∃ response data,
         fetch request w0 = (inr response, w') ∧
         Actions.json response = inr data ∧
         Actions.ok response = true).
Proof.
  intros Hconnect. unfold Actions.connectMCP in Hconnect.
  destruct (match currentSessionId with
            | Some (c :: s) => (c :: s, w)
            | _ => uuid4 w
            end) as [sessionId w0] eqn:Hstart.
  set (request := {| Actions.route := Actions.connect_route;
                     Actions.sessionId := sessionId;
                     Actions.messages := None |}) in *.
  assert ((∀ given, currentSessionId = Some given → given ≠ [] →
                    Actions.sessionId request = given ∧ w0 = w) ∧
          (currentSessionId = None ∨ currentSessionId = Some [] →
             (Actions.sessionId request, w0) = uuid4 w)) as [Hgiven Hfresh].
  { split.
    - intros given -> Hgiven. destruct given as [|c s]; [done|].
      by simplify_eq.
    - by intros [-> | ->]. }
  exists request, w0.
  destruct (fetch request w0) as [[err|response] w1] eqn:Hfetch.
  { simplify_eq. split_and!; try done; [by left|].
    split; [by intros [? ?] | resolved_otherwise Hfetch]. }
  destruct (Actions.json response) as [err|data] eqn:Hjson.
  { simplify_eq. split_and!; try done; [by left|].
    split; [by intros [? ?] | resolved_otherwise Hfetch]. }
  destruct (Actions.ok response) eqn:Hok; cbn [negb] in Hconnect; simplify_eq.
  - split_and!; try done; [by right|].
    split; [|by eauto]. intros _. by exists response, data.
  - split_and!; try done; [by left|].
    split; [by intros [? ?] | resolved_otherwise Hfetch].
Qed.

(** [disconnectMCP] without a session id (or with the empty string)
    reports success without any request.  Otherwise it makes one request,
    to [/disconnect]; it reports success, without an error text, exactly
    when the request resolved with a status in 200..299 and a body that
    parses, and it reports "Disconnect failed" exactly when the request
    resolved with another status, whatever the body. *)
Theorem disconnectMCP_outcome (sessionId : option jsstring) (w : W)
    (result : Actions.Disconnected) (w' : W) (sent : list Actions.Request) :
  Actions.disconnectMCP fetch sessionId w = (result, w', sent) →
  (sessionId = None ∨ sessionId = Some [] →
     Actions.success result = true ∧ sent = [] ∧ w' = w) ∧
  (∀ given, sessionId = Some given → given ≠ [] →
     let request := {| Actions.route := Actions.disconnect_route;
                       Actions.sessionId := given;
                       Actions.messages := None |} in
     sent = [request] ∧
     (Actions.success result = true ↔
        ∃ response data,
          fetch request w = (inr response, w') ∧
          Actions.ok response = true ∧
          Actions.json response = inr data) ∧
     (Actions.error result = Some (lit "Disconnect failed") ↔
        ∃ response,
          fetch request w = (inr response, w') ∧
          Actions.ok response = false)) ∧
  (Actions.error result = None ↔ Actions.success result = true).
Proof.
  intros Hdisconnect. unfold Actions.disconnectMCP in Hdisconnect.
  assert (lit "Disconnect failed" ≠ Actions.unexpected) as Htexts
    by discriminate.
  destruct sessionId as [[|c s]|]; try by (simplify_eq; split_and!; try done;
                                           intros ? [= <-]).
  split_and!; [by intros [?|?]| |].
  - intros given [= <-] _ request. subst request.
    destruct (fetch _ w) as [[err|response] w1] eqn:Hfetch.
    { simplify_eq/=. split_and!; [done| |].
      - split; [done | resolved_otherwise Hfetch].
      - split; [intros [= ?]; by destruct Htexts | resolved_otherwise Hfetch]. }
    destruct (Actions.ok response) eqn:Hok; cbn [negb] in Hdisconnect.
    + destruct (Actions.json response) as [err|data] eqn:Hjson;
        simplify_eq/=; split_and!; try done.
      * split; [done | resolved_otherwise Hfetch].
      * split; [intros [= ?]; by destruct Htexts | resolved_otherwise Hfetch].
      * split; [|done]. intros _. by exists response, data.
      * split; [done | resolved_otherwise Hfetch].
    + simplify_eq/=. split_and!; [done| |].
      * split; [done | resolved_otherwise Hfetch].
      * split; [|done]. intros _. by exists response.
  - destruct (fetch _ w) as [[err|response] w1]; [by simplify_eq|].
    destruct (Actions.ok response); cbn [negb] in Hdisconnect; [|by simplify_eq].
    destruct (Actions.json response); by simplify_eq.
Qed.

(** [sendChatMCP] makes no request without a session id or without
    messages, and one request to [/chat] otherwise.  It gives a response
    exactly when that request resolved with a status in 200..299 and a
    body that is not null, and then it is the [response] of that body.  A
    body that parses under another status gives the error text with that
    status in decimal. *)
Theorem sendChatMCP_outcome (sessionId : option jsstring)
    (messages : list CoreMessage) (w : W)
    (result : jsstring + JsValue) (w' : W) (sent : list Actions.Request) :
  Actions.sendChatMCP fetch sessionId messages w = (result, w', sent) →
  (sessionId = None ∨ sessionId = Some [] ∨ messages = [] →
     sent = [] ∧ w' = w ∧ ∃ text, result = inl text) ∧
  (∀ given, sessionId = Some given → given ≠ [] → messages ≠ [] →
     let request := {| Actions.route := Actions.chat_route;
                       Actions.sessionId := given;
                       Actions.messages := Some messages |} in
     sent = [request] ∧
     (∀ answer,
        result = inr answer ↔
        ∃ response,
          fetch request w = (inr response, w') ∧
          Actions.ok response = true ∧
          Actions.json response = inr (Some answer)) ∧
     (∀ response data,
        fetch request w = (inr response, w') →
        Actions.json response = inr data →
        Actions.ok response = false →
        result = inl (lit "Chat request failed with status: " ++
                      lit (pretty (Actions.status response))))).
Proof.
  intros Hsend. unfold Actions.sendChatMCP in Hsend.
  destruct sessionId as [[|c s]|].
  - simplify_eq. split; [by eauto|]. by intros ? [= <-].
  - destruct messages as [|m ms].
    + simplify_eq. split; [by eauto|]. by intros ? [= <-].
    + split; [intros [?|[?|?]]; done|].
      intros given [= <-] _ _ request. subst request.
      destruct (fetch _ w) as [[err|response] w1] eqn:Hfetch.
      { simplify_eq. split_and!; [done| |resolved_otherwise Hfetch].
        intros answer. split; [done | resolved_otherwise Hfetch]. }
      destruct (Actions.json response) as [err|data] eqn:Hjson.
      { simplify_eq. split_and!; [done| |resolved_otherwise Hfetch].
        intros answer. split; [done | resolved_otherwise Hfetch]. }
      destruct (Actions.ok response) eqn:Hok; cbn [negb] in Hsend.
      * destruct data as [response_field|]; simplify_eq;
          (split_and!; [done| |resolved_otherwise Hfetch]).
        -- intros answer. split.
           ++ intros [= <-]. by exists response.
           ++ resolved_otherwise Hfetch.
        -- intros answer. split; [done | resolved_otherwise Hfetch].
      * apply triple_eq in Hsend as (<- & <- & <-). split_and!; [done| |].
        -- intros answer. split; [done | resolved_otherwise Hfetch].
        -- by intros response' data' [= <-] _ _.
  - simplify_eq. split; [by eauto|]. by intros ? [= ].
Qed.

(** The bodies that [disconnectMCP] and [sendChatMCP] send pass the
    checks of the handlers they go to: [/disconnect] does not answer them
    400, and [/chat] does not either. *)
Theorem sent_requests_pass_the_validation `{Platform}
    (aiModel : option LanguageModel)
    (client_chat : MCPClient → list CoreMessage → Effects →
                   (JsValue + JsValue) * MCPClient * Effects)
    (sessionId : option jsstring) (messages : list CoreMessage) (w : W)
    (disconnected : Actions.Disconnected) (w1 : W) (sent1 : list Actions.Request)
    (result : jsstring + JsValue) (w2 : W) (sent2 : list Actions.Request) :
  Actions.disconnectMCP fetch sessionId w = (disconnected, w1, sent1) →
  Actions.sendChatMCP fetch sessionId messages w = (result, w2, sent2) →
  (∀ request activeConnections fx,
     request ∈ sent1 →
     Service.status
       (Service.disconnect (Service.string_field (Actions.sessionId request))
          activeConnections fx).1.1 ≠ 400%N) ∧
  (∀ request activeConnections fx,
     request ∈ sent2 →
     Service.status
       (Service.chat aiModel client_chat
          (Service.string_field (Actions.sessionId request))
          (Actions.messages request) activeConnections fx).1.1 ≠ 400%N).
Proof.
  intros Hdisconnect Hsend. split.
  - intros request activeConnections fx Hin.
    unfold Actions.disconnectMCP in Hdisconnect.
    destruct sessionId as [[|c s]|];
      try (simplify_eq; by apply elem_of_nil in Hin).
    assert (Actions.sessionId request = c :: s) as ->.
    { destruct (fetch _ w) as [[err|response] w0];
        [simplify_eq; by apply list_elem_of_singleton in Hin as ->|].
      destruct (negb (Actions.ok response));
        [simplify_eq; by apply list_elem_of_singleton in Hin as ->|].
      destruct (Actions.json response); simplify_eq;
        by apply list_elem_of_singleton in Hin as ->. }
    unfold Service.disconnect.
    destruct (activeConnections !! (c :: s)) as [connectionData|]; [|done].
    by destruct (cleanup (Service.client connectionData) fx)
      as [[[err|[]] this'] fx0].
  - intros request activeConnections fx Hin.
    unfold Actions.sendChatMCP in Hsend.
    destruct sessionId as [[|c s]|];
      try (simplify_eq; by apply elem_of_nil in Hin).
    destruct messages as [|m ms];
      [simplify_eq; by apply elem_of_nil in Hin|].
    assert (request = {| Actions.route := Actions.chat_route;
                         Actions.sessionId := c :: s;
                         Actions.messages := Some (m :: ms) |}) as ->.
    { destruct (fetch _ w) as [[err|response] w0];
        [simplify_eq; by apply list_elem_of_singleton in Hin as ->|].
      destruct (Actions.json response) as [err|data];
        [simplify_eq; by apply list_elem_of_singleton in Hin as ->|].
      destruct (negb (Actions.ok response));
        [simplify_eq; by apply list_elem_of_singleton in Hin as ->|].
      destruct data; simplify_eq;
        by apply list_elem_of_singleton in Hin as ->. }
    unfold Service.chat, Service.get_connection.
    cbn [Actions.sessionId Actions.messages].
    destruct aiModel as [model|]; [|done].
    destruct (activeConnections !! (c :: s)) as [connectionData|];
      cbn [fmap option_fmap option_map].
    + destruct (client_chat (Service.client connectionData) (m :: ms) fx)
        as [[[err|response] mcpClient] fx1]; [done|].
      by destruct (ToBoolean response).
    + by destruct (directChat model (m :: ms) fx) as [[err|response] fx1].
Qed.

(** The body that [connectMCP] sends names no server, and [/connect]
    answers every such body 400, without touching the map, whatever the
    session id and the state of the service.  So against a service whose
    status [fetch] passes on, [connectMCP] never gives a session id. *)
Theorem connectMCP_is_turned_down_by_connect `{Platform}
    (aiModel : option LanguageModel)
    (servers : list (jsstring * MCPServerConfig))
    (new_client : LanguageModel → Service.ServerValue → MCPClient)
    (currentSessionId : option jsstring) (w : W)
    (result : option jsstring) (w' : W) (sent : list Actions.Request) :
  Actions.connectMCP uuid4 fetch currentSessionId w = (result, w', sent) →
  (∀ request activeConnections fx,
     request ∈ sent →
     Service.status
       (Service.connect aiModel servers new_client
          (Service.string_field (Actions.sessionId request))
          Service.other_field activeConnections fx).1.1 = 400%N ∧
     (Service.connect aiModel servers new_client
        (Service.string_field (Actions.sessionId request))
        Service.other_field activeConnections fx).1.2 = activeConnections) ∧
  ((∀ request w0 response w1,
      fetch request w0 = (inr response, w1) →
      ∃ activeConnections fx,
        Actions.status response =
          Service.status
            (Service.connect aiModel servers new_client
               (Service.string_field (Actions.sessionId request))
               Service.other_field activeConnections fx).1.1) →
   result = None).
Proof.
  intros Hconnect.
  assert (∀ sid activeConnections fx,
            Service.status
              (Service.connect aiModel servers new_client (Service.string_field sid)
                 Service.other_field activeConnections fx).1.1 = 400%N ∧
            (Service.connect aiModel servers new_client (Service.string_field sid)
               Service.other_field activeConnections fx).1.2
              = activeConnections) as Hturned.
  { intros sid activeConnections fx. by destruct sid. }
  split; [intros; apply Hturned|].
  intros Hrelay. unfold Actions.connectMCP in Hconnect.
  destruct (match currentSessionId with
            | Some (c :: s) => (c :: s, w)
            | _ => uuid4 w
            end) as [sessionId w0].
  destruct (fetch _ w0) as [[err|response] w1] eqn:Hfetch; [by simplify_eq|].
  destruct (Actions.json response) as [err|data]; [by simplify_eq|].
  destruct (Hrelay _ _ _ _ Hfetch) as (activeConnections & fx & Hstatus).
  rewrite (proj1 (Hturned _ _ _)) in Hstatus.
  assert (Actions.ok response = false) as Hok.
  { unfold Actions.ok. by rewrite Hstatus. }
  rewrite Hok in Hconnect. cbn [negb] in Hconnect. by simplify_eq.
Qed.

End ActionFacts.

(* ===================================================================== *)
(** * The front-end actions on concrete requests                          *)
(* ===================================================================== *)

Lemma connectMCP_returns_the_session_it_asked_for_witness :
  ∃ request,
    Actions.connectMCP fixed_uuid (answering 200) None 0%N
      = (Some (lit "generated-id"), 2%N, [request]) ∧
    Actions.route request = Actions.connect_route ∧
    Actions.sessionId request = lit "generated-id".
Proof.
  eassert (Actions.connectMCP fixed_uuid (answering 200) None 0%N
           = (Some (lit "generated-id"), 2%N, _)) as Hconnect by reflexivity.
  destruct (connectMCP_returns_the_session_it_asked_for fixed_uuid
              (answering 200) None 0%N _ _ _ Hconnect)
    as (request & w0 & Hsent & Hroute & _ & _ & Hfresh & _).
  exists request. rewrite <- Hsent. split_and!; [exact Hconnect | exact Hroute |].
  specialize (Hfresh (or_introl eq_refl)). by injection Hfresh as -> _.
Defined.

Lemma disconnectMCP_outcome_witness :
  ∃ result w' sent,
    Actions.disconnectMCP (answering 503) (Some (lit "s1")) 0%N
      = (result, w', sent) ∧
    length sent = 1 ∧
    Actions.success result = false ∧
    Actions.error result = Some (lit "Disconnect failed").
Proof.
  destruct (Actions.disconnectMCP (answering 503) (Some (lit "s1")) 0%N)
    as [[result w'] sent] eqn:Hdisconnect.
  destruct (disconnectMCP_outcome (answering 503) (Some (lit "s1")) 0%N
              result w' sent Hdisconnect) as (_ & Hgiven & Hsuccess).
  destruct (Hgiven (lit "s1") eq_refl ltac:(discriminate))
    as (Hsent & _ & Hfailed).
  assert (Actions.error result = Some (lit "Disconnect failed")) as Herror.
  { apply Hfailed. eexists. split.
    - change w' with (result, w', sent).1.2. rewrite <- Hdisconnect.
      reflexivity.
    - reflexivity. }
  exists result, w', sent. split_and!; [done | by rewrite Hsent | | exact Herror].
  destruct (Actions.success result); [|done].
  destruct Hsuccess as [_ Hnone]. rewrite Hnone in Herror; done.
Defined.

Lemma sendChatMCP_outcome_witness :
  ∃ w' sent,
    Actions.sendChatMCP (answering 503) (Some (lit "s1")) hello 0%N
      = (inl (lit "Chat request failed with status: 503"), w', sent) ∧
    length sent = 1.
Proof.
  destruct (Actions.sendChatMCP (answering 503) (Some (lit "s1")) hello 0%N)
    as [[result w'] sent] eqn:Hsend.
  destruct (sendChatMCP_outcome (answering 503) (Some (lit "s1")) hello 0%N
              result w' sent Hsend) as (_ & Hgiven).
  destruct (Hgiven (lit "s1") eq_refl ltac:(discriminate) ltac:(discriminate))
    as (Hsent & _ & Hstatus).
  exists w', sent. split; [|by rewrite Hsent].
  rewrite (Hstatus {| Actions.status := 503;
                      Actions.json := inr (Some undefined) |}
             (Some undefined)); [reflexivity| |reflexivity|reflexivity].
  change w' with (result, w', sent).1.2. rewrite <- Hsend. reflexivity.
Defined.

Lemma sent_requests_pass_the_validation_witness :
  let P := polite in
  let request := {| Actions.route := Actions.chat_route;
                    Actions.sessionId := lit "s1";
                    Actions.messages := Some hello |} in
  (Actions.sendChatMCP (answering 200) (Some (lit "s1")) hello 0%N).2
    = [request] ∧
  Service.status
    (Service.chat (H := P) (Some gemini) (unused_chat (H := P))
       (Service.string_field (Actions.sessionId request))
       (Actions.messages request) ten_sessions (quiet (H := P) 0%N)).1.1
    ≠ 400%N.
Proof.
  intros P request. split; [reflexivity|].
  eassert (Actions.disconnectMCP (answering 200) (Some (lit "s1")) 0%N
           = (_, _, _)) as Hdisconnect by reflexivity.
  eassert (Actions.sendChatMCP (answering 200) (Some (lit "s1")) hello 0%N
           = (_, _, [request])) as Hsend by reflexivity.
  destruct (sent_requests_pass_the_validation (answering 200) (H := P)
              (Some gemini) (unused_chat (H := P)) _ _ _ _ _ _ _ _ _
              Hdisconnect Hsend) as [_ Hchat].
  apply Hchat. by apply list_elem_of_singleton.
Defined.

Lemma connectMCP_is_turned_down_by_connect_witness :
  let P := polite in
  ∃ w' request,
    Actions.connectMCP fixed_uuid (answering 400) (Some (lit "s1")) 0%N
      = (None, w', [request]) ∧
    Service.status
      (Service.connect (H := P) (Some gemini) catalog client_of
         (Service.string_field (Actions.sessionId request))
         Service.other_field ten_sessions (quiet (H := P) 0%N)).1.1 = 400%N.
Proof.
  intros P.
  destruct (Actions.connectMCP fixed_uuid (answering 400) (Some (lit "s1")) 0%N)
    as [[result w'] sent] eqn:Hconnect.
  destruct (connectMCP_is_turned_down_by_connect fixed_uuid (answering 400)
              (H := P) (Some gemini) catalog client_of _ _ _ _ _ Hconnect)
    as [Hturned Hnone].
  assert (∃ request, sent = [request]) as [request ->].
  { eexists. change sent with (result, w', sent).2. rewrite <- Hconnect.
    reflexivity. }
  rewrite Hnone.
  - exists w', request. split; [reflexivity|].
    apply Hturned. by apply list_elem_of_singleton.
  - intros request' w0 response w1 [= <- _].
    exists ∅, (quiet (H := P) 0%N). by destruct (Actions.sessionId request').
Defined.
